(** * Lead-generation pipeline: a shallow embedding of the Python sources

    The pipeline pulls contacts from a paged CRM list (apollo.py), removes
    the ones already processed (main.py, logger.py), verifies the remaining
    e-mail addresses through an asynchronous bulk service (reoon.py), splits
    the valid ones between two campaigns (utils.py), uploads them in batches
    and sweeps finished leads (instantly.py).

    Every Python function is embedded as an executable Rocq function.  The
    remote services are an oracle answering the n-th network call of a run;
    calls and sleeps are recorded in a trace, exceptions are explicit
    outcomes, and [while True] loops carry fuel. *)

From Stdlib Require Import ZArith Ascii String DecimalString.
From Stdlib Require Import Floats.PrimFloat Floats.FloatOps Floats.SpecFloat Uint63.
From stdpp Require Import gmap strings list.

Open Scope Z_scope.

(** ** Python values and helpers *)

Module Py.

(** The exceptions the pipeline can raise.  Messages that the sources
    build with f-strings are kept as structured payloads. *)
Inductive exn : Type :=
| ValueError (msg : string)
| OverflowError
| ZeroDivisionError
| KeyError (key : string)
| ConnectionError
| JSONDecodeError
| HTTPError (status : Z)
| AttributeError
| Exception (msg : string)
| Wrapped (msg : string) (cause : exn).

(** Result of running a piece of code: a value, a raised exception, or a
    loop that used up its fuel (the run is still going on). *)
Inductive outcome (A : Type) : Type :=
| Ret (a : A)
| Raise (e : exn)
| OutOfFuel.
Arguments Ret {A} a.
Arguments Raise {A} e.
Arguments OutOfFuel {A}.

(** Sequencing of two steps that may raise. *)
Definition and_then {A B} (o : outcome A) (f : A -> outcome B) : outcome B :=
  match o with
  | Ret a => f a
  | Raise e => Raise e
  | OutOfFuel => OutOfFuel
  end.

(** Truth value of [os.getenv(..)] or [d.get(..)] holding a string:
    [None] and the empty string are falsy. *)
Definition truthy (v : option string) : bool :=
  match v with
  | Some s => negb (String.eqb s "")
  | None => false
  end.

(** [bool(l)] for a list. *)
Definition nonempty {A} (l : list A) : bool :=
  match l with [] => false | _ :: _ => true end.

(** [l[:k]] and [l[k:]]; a negative [k] counts from the end. *)
Definition slice_to {A} (k : Z) (l : list A) : list A :=
  if k <? 0 then take (Z.to_nat (Z.of_nat (length l) + k)) l
  else take (Z.to_nat k) l.

Definition slice_from {A} (k : Z) (l : list A) : list A :=
  if k <? 0 then drop (Z.to_nat (Z.of_nat (length l) + k)) l
  else drop (Z.to_nat k) l.

(** [float(n)] for [0 <= n < 2^63] (a list length or a percentage);
    exact below 2^53, rounded to nearest-even above, as in CPython. *)
Definition float_of_int (n : Z) : float :=
  PrimFloat.of_uint63 (Uint63.of_Z n).

(** [int(x)]: truncation toward zero; infinities and NaN raise. *)
Definition int_of_float (x : float) : outcome Z :=
  match Prim2SF x with
  | S754_zero _ => Ret 0
  | S754_finite s m e =>
      let mag := if 0 <=? e then Z.pos m * 2 ^ e else Z.pos m / 2 ^ (- e) in
      Ret (if s then - mag else mag)
  | S754_infinity _ => Raise OverflowError
  | S754_nan => Raise (ValueError "cannot convert float NaN to integer")
  end.

(** [[l[i:i+size] for i in range(0, len(l), size)]].  [range] raises
    [ValueError] for a zero step and is empty for a negative one. *)
Fixpoint chunks_fuel {A} (fuel size : nat) (l : list A) : list (list A) :=
  match fuel, l with
  | _, [] => []
  | O, _ => []
  | S fuel', _ => take size l :: chunks_fuel fuel' size (drop size l)
  end.

Definition batches {A} (size : Z) (l : list A) : outcome (list (list A)) :=
  if size =? 0 then Raise (ValueError "range() arg 3 must not be zero")
  else if size <? 0 then Ret []
  else Ret (chunks_fuel (length l) (Z.to_nat size) l).

End Py.
Export Py.

(** ** Data model *)

Module Model.

(** A contact as the fetcher builds it ([contact.get('id')] may be absent,
    the other attributes default to the empty string). *)
Record contact : Type := Contact {
  id : option string;
  first_name : string;
  last_name : string;
  email : string;
  company : string;
  linkedin : string;
  annual_revenue : string;
  company_headcount : string
}.

(** The process environment read through [os.getenv]. *)
Definition getenv (env : gmap string string) (name : string) : option string :=
  env !! name.

End Model.
Export Model.

(** ** The network: requests, responses, and the effect monad *)

Module Net.

(** The value under a key that is meant to hold a JSON object: the key
    can be absent, or hold [null] (or another value that is not an
    object), or hold an object. *)
Inductive member (A : Type) : Type :=
| Absent
| NotObject
| Object (a : A).
Arguments Absent {A}.
Arguments NotObject {A}.
Arguments Object {A} a.

(** A raw record of the source list's search response.  The string
    attributes are strings or absent ([None]). *)
Record organization : Type := Organization {
  org_name : option string;
  org_annual_revenue : option string;
  org_estimated_num_employees : option string
}.

Record raw_contact : Type := RawContact {
  raw_id : option string;
  raw_first_name : option string;
  raw_last_name : option string;
  raw_email : option string;
  raw_organization : member organization;
  raw_linkedin_url : option string
}.

(** One entry of a verification task's result object. *)
Record verification : Type := Verification {
  is_safe_to_send : bool;
  is_deliverable : bool;
  v_status : option string;
  overall_score : option Z
}.

(** The lead record sent to the outreach platform. *)
Record lead : Type := Lead {
  lead_email : string;
  lead_first_name : string;
  lead_last_name : string;
  lead_company : string;
  lead_linkedin : string;
  lead_campaign_id : string
}.

(** The counters of a run, and the row that sums it up in the log sheet
    (the time stamp is left out; the error message is kept as the
    exception it is taken from). *)
Record counts : Type := Counts {
  fetched : Z;
  new : Z;
  verified : Z;
  uploaded : Z;
  deleted : Z
}.

Record summary : Type := Summary {
  run_status : string;
  run_counts : counts;
  error_msg : option exn
}.

(** The attributes of the sheet manager that hold a worksheet. *)
Inductive sheet : Type := LogSheet | ProcessedSheet | InvalidSheet.

(** The calls the pipeline makes over the network, with the payload that
    matters: the HTTP requests, the rows appended to a worksheet, and the
    error e-mail. *)
Inductive request : Type :=
| ApolloSearch (api_key : string) (q_list_ids : list string) (per_page page : Z)
| ReoonCreateTask (api_key : string) (emails : list string)
| ReoonGetResult (api_key task_id : string)
| InstantlyAddLead (api_key : string) (l : lead)
| InstantlyAddLeads (api_key : string) (leads : list lead)
| InstantlyListLeads (api_key campaign filter : string) (limit : Z)
    (starting_after : option string)
| InstantlyRemoveLeads (api_key campaign_id : string) (emails : list string)
| SheetAppendRow (row : summary)
| SheetAppendRows (target : sheet) (rows : list (list string))
| SmtpSend (sender : string) (error : exn).

(** A response body: not JSON at all, or a JSON object of which only the
    keys the pipeline reads are kept ([None]: key absent). *)
Inductive body : Type :=
| NotJson
| ApolloPage (pagination : member (option Z))
    (contacts : option (list raw_contact))
| ReoonTask (task_id : option string)
| ReoonResult (status : option string)
    (results : option (list (string * verification)))
| InstantlyLeads (data : option (list string)) (next_starting_after : option string)
| EmptyObject.

(** [NoResponse]: [requests] raised a transport exception. *)
Inductive response : Type :=
| NoResponse
| Http (status : Z) (b : body).

(** [response.raise_for_status()] raises for 4xx and 5xx. *)
Definition is_http_error (status : Z) : bool :=
  (400 <=? status) && (status <? 600).

Inductive event : Type :=
| Call (r : request)
| Sleep (seconds : Z).

(** The remote side: the answer to the [n]-th call of the run. *)
Definition server : Type := nat -> request -> response.

(** What running a computation yields: its outcome, the events it
    performed in order, and the number of calls made so far. *)
Record run (A : Type) : Type := Run {
  result : outcome A;
  events : list event;
  calls : nat
}.
Arguments Run {A} result events calls.
Arguments result {A} r.
Arguments events {A} r.
Arguments calls {A} r.

Definition M (A : Type) : Type := server -> nat -> run A.

Definition ret {A} (a : A) : M A := fun _ n => Run (Ret a) [] n.

Definition raise {A} (e : exn) : M A := fun _ n => Run (Raise e) [] n.

Definition out_of_fuel {A} : M A := fun _ n => Run OutOfFuel [] n.

Definition bind {A B} (m : M A) (f : A -> M B) : M B :=
  fun srv n =>
    match m srv n with
    | Run (Ret a) ev n' =>
        match f a srv n' with
        | Run o ev' n'' => Run o (ev ++ ev') n''
        end
    | Run (Raise e) ev n' => Run (Raise e) ev n'
    | Run OutOfFuel ev n' => Run OutOfFuel ev n'
    end.

(** [try: m except Exception as e: handler e]. *)
Definition try_except {A} (m : M A) (handler : exn -> M A) : M A :=
  fun srv n =>
    match m srv n with
    | Run (Raise e) ev n' =>
        match handler e srv n' with
        | Run o ev' n'' => Run o (ev ++ ev') n''
        end
    | r => r
    end.

Definition lift {A} (o : outcome A) : M A := fun _ n => Run o [] n.

Definition call (r : request) : M response :=
  fun srv n => Run (Ret (srv n r)) [Call r] (S n).

Definition sleep (seconds : Z) : M unit :=
  fun _ n => Run (Ret tt) [Sleep seconds] n.

(** Prefix a run with the events that led to it. *)
Definition after {A} (ev : list event) (r : run A) : run A :=
  Run (result r) (ev ++ events r) (calls r).

(** The same run, had one more call been made before it. *)
Definition one_more_call {A} (r : run A) : run A :=
  Run (result r) (events r) (S (calls r)).

(** A remote side that gives the same answer to every call. *)
Definition always (r : response) : server := fun _ _ => r.

(** The requests of a trace, in order. *)
Definition requests_of (ev : list event) : list request :=
  omap (fun e => match e with Call r => Some r | Sleep _ => None end) ev.

(** Every call of a computation is recorded in its trace. *)
Definition counts_calls {A} (m : M A) : Prop :=
  forall srv n,
    calls (m srv n) = (n + length (requests_of (events (m srv n))))%nat.

(** Every call of a computation is of a given kind. *)
Definition only {A} (P : request -> Prop) (m : M A) : Prop :=
  forall srv n, Forall P (requests_of (events (m srv n))).

(** The kinds of call: a search of the source list, a call to the
    verification service, an upload of leads, a call of the cleanup, rows
    of leads appended to a worksheet, the summary row of a given status,
    the error e-mail. *)
Definition is_search (q : request) : Prop :=
  match q with ApolloSearch _ _ _ _ => True | _ => False end.

Definition is_verification (q : request) : Prop :=
  match q with ReoonCreateTask _ _ | ReoonGetResult _ _ => True | _ => False end.

Definition is_upload (q : request) : Prop :=
  match q with InstantlyAddLead _ _ | InstantlyAddLeads _ _ => True | _ => False end.

Definition is_cleanup (q : request) : Prop :=
  match q with
  | InstantlyListLeads _ _ _ _ _ | InstantlyRemoveLeads _ _ _ => True
  | _ => False
  end.

Definition is_lead_log (q : request) : Prop :=
  match q with SheetAppendRows _ _ => True | _ => False end.

Definition is_summary (status : string) (q : request) : Prop :=
  match q with SheetAppendRow row => run_status row = status | _ => False end.

Definition is_email (q : request) : Prop :=
  match q with SmtpSend _ _ => True | _ => False end.

End Net.
Export Net.

Notation "'let*' x ':=' m 'in' k" := (Net.bind m (fun x => k))
  (at level 10, x pattern, m at level 200, k at level 200).

(** ** apollo.py *)

Module Apollo.

(** *** [int(s)]

    Strings are kept as their UTF-8 bytes.  [int] reads a string code point
    by code point: [decode] gives the code points, and [None] for bytes that
    are not UTF-8, which [int] rejects wherever they stand. *)
Definition continuation (b : Z) : bool := (128 <=? b) && (b <=? 191).

Fixpoint decode (bs : list Z) : option (list Z) :=
  match bs with
  | [] => Some []
  | b0 :: rest0 =>
      if b0 <? 128 then cons b0 <$> decode rest0
      else
        match rest0 with
        | [] => None
        | b1 :: rest1 =>
            if (194 <=? b0) && (b0 <=? 223) then
              if continuation b1
              then cons ((b0 - 192) * 64 + (b1 - 128)) <$> decode rest1
              else None
            else
              match rest1 with
              | [] => None
              | b2 :: rest2 =>
                  if (224 <=? b0) && (b0 <=? 239) then
                    if continuation b1 && continuation b2
                       && (negb (b0 =? 224) || (160 <=? b1))
                       && (negb (b0 =? 237) || (b1 <=? 159))
                    then cons ((b0 - 224) * 4096 + (b1 - 128) * 64 + (b2 - 128))
                           <$> decode rest2
                    else None
                  else
                    match rest2 with
                    | [] => None
                    | b3 :: rest3 =>
                        if (240 <=? b0) && (b0 <=? 244)
                           && continuation b1 && continuation b2 && continuation b3
                           && (negb (b0 =? 240) || (144 <=? b1))
                           && (negb (b0 =? 244) || (b1 <=? 143))
                        then cons ((b0 - 240) * 262144 + (b1 - 128) * 4096
                                   + (b2 - 128) * 64 + (b3 - 128))
                               <$> decode rest3
                        else None
                    end
              end
        end
  end.

(** The code points beyond ASCII that [int] takes for a blank, and the
    zero of every run of ten decimal digits (Unicode 14). *)
Definition wide_blanks : list Z :=
  [133; 160; 5760; 8192; 8193; 8194; 8195; 8196; 8197; 8198; 8199; 8200;
   8201; 8202; 8232; 8233; 8239; 8287; 12288].

Definition decimal_zeros : list Z :=
  [48; 1632; 1776; 1984; 2406; 2534; 2662; 2790; 2918; 3046; 3174; 3302;
   3430; 3558; 3664; 3792; 3872; 4160; 4240; 6112; 6160; 6470; 6608; 6784;
   6800; 6992; 7088; 7232; 7248; 42528; 43216; 43264; 43472; 43504; 43600;
   44016; 65296; 66720; 68912; 69734; 69872; 69942; 70096; 70384; 70736;
   70864; 71248; 71360; 71472; 71904; 72016; 72784; 73040; 73120; 92768;
   92864; 93008; 120782; 120792; 120802; 120812; 120822; 123200; 123632;
   125264; 130032].

Definition decimal_of (cp : Z) : option Z :=
  (fun zero => cp - zero)
    <$> List.find (fun zero => (zero <=? cp) && (cp <? zero + 10)) decimal_zeros.

(** A code point beyond ASCII counts as a space or as the ASCII digit of
    its value, or makes the literal invalid. *)
Definition to_ascii (cp : Z) : option Z :=
  if cp <? 128 then Some cp
  else if bool_decide (cp ∈ wide_blanks) then Some 32
  else (fun d => 48 + d) <$> decimal_of cp.

Definition is_blank (c : Z) : bool := (c =? 32) || ((9 <=? c) && (c <=? 13)).

Definition digit_of (c : Z) : option Z :=
  if (48 <=? c) && (c <=? 57) then Some (c - 48) else None.

Fixpoint lstrip (s : list Z) : list Z :=
  match s with
  | c :: s' => if is_blank c then lstrip s' else s
  | [] => []
  end.

(** The digits of the longest run of digits and underscores at the front
    of [s], and what follows it; an underscore must stand between two
    digits.  [digit_before] says whether the previous character was a
    digit. *)
Fixpoint digit_run (digit_before : bool) (s : list Z)
  : option (list Z * list Z) :=
  match s with
  | c :: s' =>
      match digit_of c with
      | Some d =>
          (fun run : list Z * list Z => (d :: run.1, run.2)) <$> digit_run true s'
      | None =>
          if c =? 95 then
            if digit_before then
              match s' with
              | c' :: _ =>
                  match digit_of c' with
                  | Some _ => digit_run false s'
                  | None => None
                  end
              | [] => None
              end
            else None
          else Some ([], s)
      end
  | [] => Some ([], [])
  end.

(** The limit on the number of digits ([sys.get_int_max_str_digits()]). *)
Definition max_str_digits : nat := 4300.

Definition int_of_string (s : string) : outcome Z :=
  let invalid := Raise (ValueError "invalid literal for int() with base 10") in
  let bytes := (fun c => Z.of_N (N_of_ascii c)) <$> list_ascii_of_string s in
  match decode bytes ≫= mapM to_ascii with
  | None => invalid
  | Some chars =>
      let (negative, unsigned) :=
        match lstrip chars with
        | 45 :: rest => (true, rest)
        | 43 :: rest => (false, rest)
        | rest => (false, rest)
        end in
      match digit_run false unsigned with
      | Some (d :: digits, rest) =>
          match lstrip rest with
          | [] =>
              if (max_str_digits <? length (d :: digits))%nat then
                Raise (ValueError "Exceeds the limit for integer string conversion")
              else
                let n := foldl (fun acc d => 10 * acc + d) 0 (d :: digits) in
                Ret (if negative : bool then - n else n)
          | _ :: _ => invalid
          end
      | _ => invalid
      end
  end.

(** ["REPLACE_WITH" in list_id]. *)
Definition contains (needle hay : string) : bool :=
  match String.index 0 needle hay with
  | Some _ => true
  | None => false
  end.

(** [d.get(key, {}).get(..)]: the inner [get] raises unless it is given an
    object. *)
Definition get_object {A B} (m : member A) (absent : B) (read : A -> B)
  : outcome B :=
  match m with
  | Absent => Ret absent
  | NotObject => Raise AttributeError
  | Object a => Ret (read a)
  end.

(** The dictionary appended to [all_contacts] for a record with an e-mail. *)
Definition normalize (c : raw_contact) : outcome contact :=
  and_then
    (get_object (raw_organization c) ""%string
       (fun o => default ""%string (org_name o)))
    (fun company =>
  and_then
    (get_object (raw_organization c) ""%string
       (fun o => default ""%string (org_annual_revenue o)))
    (fun annual_revenue =>
  and_then
    (get_object (raw_organization c) ""%string
       (fun o => default ""%string (org_estimated_num_employees o)))
    (fun company_headcount =>
  Ret {| id := raw_id c;
         first_name := default ""%string (raw_first_name c);
         last_name := default ""%string (raw_last_name c);
         email := default ""%string (raw_email c);
         company := company;
         linkedin := default ""%string (raw_linkedin_url c);
         annual_revenue := annual_revenue;
         company_headcount := company_headcount |}))).

(** [for contact in contacts_on_page: if contact.get('email'): append]. *)
Fixpoint add_valid_contacts (all_contacts : list contact)
    (contacts_on_page : list raw_contact) : outcome (list contact) :=
  match contacts_on_page with
  | [] => Ret all_contacts
  | c :: rest =>
      if truthy (raw_email c) then
        and_then (normalize c)
          (fun entry => add_valid_contacts (all_contacts ++ [entry]) rest)
      else add_valid_contacts all_contacts rest
  end.

(** [response.raise_for_status()] and [response.json()], for the answer to
    the request ([NoResponse]: the request itself raised). *)
Definition json_of (r : response) : outcome body :=
  match r with
  | NoResponse => Raise ConnectionError
  | Http status b =>
      if is_http_error status then Raise (HTTPError status)
      else
        match b with
        | NotJson => Raise JSONDecodeError
        | _ => Ret b
        end
  end.

(** [data.get('pagination', {})] and [data.get('contacts', [])]. *)
Definition pagination_of (b : body) : member (option Z) :=
  match b with
  | ApolloPage p _ => p
  | _ => Absent
  end.

Definition contacts_of (b : body) : list raw_contact :=
  match b with
  | ApolloPage _ (Some cs) => cs
  | _ => []
  end.

(** [if total_pages is None:
       total_pages = data.get('pagination', {}).get('total_pages')]. *)
Definition read_total_pages (total_pages : option Z) (data : body)
  : outcome (option Z) :=
  match total_pages with
  | Some _ => Ret total_pages
  | None => get_object (pagination_of data) None (fun t => t)
  end.

(** [test_mode_pages and page > int(test_mode_pages)]. *)
Definition test_limit_reached (test_mode_pages : option string) (page : Z)
  : outcome bool :=
  match test_mode_pages with
  | Some s =>
      if truthy (Some s) then
        match int_of_string s with
        | Ret limit => Ret (limit <? page)
        | Raise e => Raise e
        | OutOfFuel => OutOfFuel
        end
      else Ret false
  | None => Ret false
  end.

(** How the [try] statement of the loop leaves an iteration: [continue]
    after a rate-limit answer, [break] at an empty page, or on to the next
    page. *)
Inductive next : Type :=
| Again
| Stop
| Advance (total_pages : option Z) (all_contacts : list contact).

Section Fetch.
Variables (api_key list_id : string) (test_mode_pages : option string).

Definition search (page : Z) : request :=
  ApolloSearch api_key [list_id] 100 page.

(** The [try] statement with its two [except] clauses. *)
Definition attempt (page : Z) (total_pages : option Z)
    (all_contacts : list contact) : M next :=
  try_except
    (let* response := call (search page) in
     let* data := lift (json_of response) in
     let* total_pages := lift (read_total_pages total_pages data) in
     let contacts_on_page := contacts_of data in
     if negb (nonempty contacts_on_page) then ret Stop
     else
       let* all_contacts :=
         lift (add_valid_contacts all_contacts contacts_on_page) in
       let* _ := sleep 1 in
       ret (Advance total_pages all_contacts))
    (fun e =>
       match e with
       | HTTPError status =>
           if status =? 429 then
             let* _ := sleep 900 in
             ret Again
           else raise (Wrapped "HTTP Error on page" e)
       | _ => raise (Wrapped "Unexpected error on page" e)
       end).

(** The [while True] loop; one unit of fuel per iteration. *)
Fixpoint fetch_loop (fuel : nat) (page : Z) (total_pages : option Z)
    (all_contacts : list contact) : M (list contact) :=
  match fuel with
  | O => out_of_fuel
  | S fuel =>
      let* stop := lift (test_limit_reached test_mode_pages page) in
      if stop : bool then ret all_contacts
      else
        let* next := attempt page total_pages all_contacts in
        match next with
        | Again => fetch_loop fuel page total_pages all_contacts
        | Stop => ret all_contacts
        | Advance total_pages all_contacts =>
            fetch_loop fuel (page + 1) total_pages all_contacts
        end
  end.
End Fetch.

Definition fetch_all_contacts_from_list (env : gmap string string) (fuel : nat)
  : M (list contact) :=
  let api_key := getenv env "APOLLO_API_KEY" in
  let list_id := getenv env "APOLLO_LIST_ID" in
  let test_mode_pages := getenv env "TEST_MODE_PAGES" in
  if negb (truthy api_key) || negb (truthy list_id) then
    raise (ValueError "Missing Apollo credentials")
  else if contains "REPLACE_WITH" (default ""%string list_id) then
    raise (ValueError "Please replace APOLLO_LIST_ID placeholder")
  else
    fetch_loop (default ""%string api_key) (default ""%string list_id)
      test_mode_pages fuel 1 None [].

(** The [try] statement as a function of the answer to its request: the
    body, the [except] clauses, and the sleep it ends with (see
    [attempt_handled]). *)
Definition tried (r : response) (total_pages : option Z)
    (all_contacts : list contact) : outcome next :=
  and_then (json_of r) (fun data =>
  and_then (read_total_pages total_pages data) (fun total_pages =>
  if negb (nonempty (contacts_of data)) then Ret Stop
  else
    and_then (add_valid_contacts all_contacts (contacts_of data))
      (fun all_contacts => Ret (Advance total_pages all_contacts)))).

Definition excepted (o : outcome next) : outcome next :=
  match o with
  | Raise (HTTPError status) =>
      if status =? 429 then Ret Again
      else Raise (Wrapped "HTTP Error on page" (HTTPError status))
  | Raise e => Raise (Wrapped "Unexpected error on page" e)
  | Ret n => Ret n
  | OutOfFuel => OutOfFuel
  end.

Definition handled (r : response) (total_pages : option Z)
    (all_contacts : list contact) : outcome next :=
  excepted (tried r total_pages all_contacts).

Definition pause (o : outcome next) : list event :=
  match o with
  | Ret Again => [Sleep 900]
  | Ret (Advance _ _) => [Sleep 1]
  | _ => []
  end.



(** A well-behaved source: the list's pages in order, every request for
    page [k] answered with status 200, the [k]-th page (empty beyond) and
    the number of pages. *)
Definition page_of (pages : list (list raw_contact)) (page : Z) : list raw_contact :=
  if page <? 1 then [] else default [] (pages !! Z.to_nat (page - 1)).

Definition paged_server (pages : list (list raw_contact)) : server :=
  fun _ r =>
    match r with
    | ApolloSearch _ _ _ page =>
        Http 200 (ApolloPage (Object (Some (Z.of_nat (length pages))))
                    (Some (page_of pages page)))
    | _ => NoResponse
    end.

(** The same remote side, except that call number [t] is answered with a
    rate-limit response and the later answers move one call back. *)
Definition rate_limited_at (t : nat) (srv : server) : server :=
  fun n r =>
    if (n <? t)%nat then srv n r
    else if (n =? t)%nat then Http 429 NotJson
    else srv (pred n) r.

End Apollo.

(** ** utils.py *)

Module Utils.

Section SplitContacts.
Context {contact : Type}.

(** The permutation [random.shuffle] picks in this run. *)
Variable shuffle : list contact -> list contact.

(** [int(len(contacts) * (primary_percent / 100))], in binary64. *)
Definition split_index (n primary_percent : Z) : outcome Z :=
  int_of_float
    (PrimFloat.mul (float_of_int n)
       (PrimFloat.div (float_of_int primary_percent) (float_of_int 100))).

(** The index is floor(n*p/100), or one less where n*p is a multiple of
    100 (decidable check used below on a range of inputs). *)
Definition split_index_close (n primary_percent : Z) : bool :=
  match split_index n primary_percent with
  | Ret k =>
      let exact := n * primary_percent / 100 in
      (k =? exact)
      || ((k =? exact - 1) && (n * primary_percent mod 100 =? 0))
  | _ => false
  end.

Definition split_contacts (contacts : list contact) (primary_percent : Z)
  : outcome (list (string * list contact)) :=
  if negb ((0 <=? primary_percent) && (primary_percent <=? 100)) then
    Raise (ValueError "Percentage must be between 0 and 100.")
  else
    let contacts := shuffle contacts in
    match split_index (Z.of_nat (length contacts)) primary_percent with
    | Ret split_index =>
        Ret [("campaign_a"%string, slice_to split_index contacts);
             ("campaign_b"%string, slice_from split_index contacts)]
    | Raise e => Raise e
    | OutOfFuel => OutOfFuel
    end.
End SplitContacts.

End Utils.

(** ** reoon.py *)

Module Reoon.

(** An entry of [invalid_contacts]. *)
Record invalid_contact : Type := InvalidContact {
  inv_email : string;
  reason : string;
  details : string
}.

(** [{contact['email']: contact for contact in contacts}]: for a repeated
    e-mail the last contact wins. *)
Definition contact_map (contacts : list contact) : gmap string contact :=
  foldl (fun m c => <[email c := c]> m) ∅ contacts.

(** [str(verification.get('overall_score'))] inside the f-string. *)
Definition show_score (score : option Z) : string :=
  match score with
  | Some z => NilZero.string_of_int (Z.to_int z)
  | None => "None"
  end.

Definition is_valid (v : verification) : bool :=
  is_safe_to_send v && is_deliverable v.

Definition invalid_entry (email : string) (v : verification) : invalid_contact :=
  let reason := default "unknown"%string (v_status v) in
  {| inv_email := email;
     reason := reason;
     details := "Score: " +:+ show_score (overall_score v) +:+ ", Status: " +:+ reason |}.

(** [for email, verification in results.items(): ...]; the look-up
    [contact_map[email]] raises [KeyError] for an unknown key. *)
Fixpoint process_results (contact_map : gmap string contact)
    (results : list (string * verification))
    (valid_contacts : list contact) (invalid_contacts : list invalid_contact)
  : outcome (list contact * list invalid_contact) :=
  match results with
  | [] => Ret (valid_contacts, invalid_contacts)
  | (email, verification) :: rest =>
      match contact_map !! email with
      | None => Raise (KeyError email)
      | Some contact =>
          if is_safe_to_send verification && is_deliverable verification then
            process_results contact_map rest (valid_contacts ++ [contact])
              invalid_contacts
          else
            process_results contact_map rest valid_contacts
              (invalid_contacts ++ [invalid_entry email verification])
      end
  end.

(** [task_data.get('task_id')], [results_data.get('status')] and
    [results_data.get('results', {})]. *)
Definition task_id_of (b : body) : option string :=
  match b with ReoonTask t => t | _ => None end.

Definition status_of (b : body) : option string :=
  match b with ReoonResult st _ => st | _ => None end.

Definition results_of (b : body) : list (string * verification) :=
  match b with ReoonResult _ (Some rs) => rs | _ => [] end.

Definition completed (b : body) : bool :=
  match status_of b with
  | Some st => String.eqb st "completed"
  | None => false
  end.

Definition max_tries : nat := 18.

Definition poll_timeout : exn :=
  Exception "Verification not completed after 180 seconds".

(** [for attempt in range(max_tries): ... else: raise]: [tries] is the
    number of attempts left. *)
Fixpoint poll (tries : nat) (api_key task_id : string) : M body :=
  match tries with
  | O => raise poll_timeout
  | S tries =>
      let* _ := sleep 10 in
      let* results_response := call (ReoonGetResult api_key task_id) in
      match results_response with
      | NoResponse => raise ConnectionError
      | Http status results_data =>
          if is_http_error status then raise (HTTPError status)
          else
            match results_data with
            | NotJson => raise JSONDecodeError
            | _ =>
                if completed results_data then ret results_data
                else poll tries api_key task_id
            end
      end
  end.

(** The body of [for i in range(0, len(email_list), batch_size)], over the
    batches still to be verified. *)
Fixpoint verify_batches (api_key : string) (contact_map : gmap string contact)
    (batches : list (list string))
    (valid_contacts : list contact) (invalid_contacts : list invalid_contact)
  : M (list contact * list invalid_contact) :=
  match batches with
  | [] => ret (valid_contacts, invalid_contacts)
  | batch :: rest =>
      let* create_response := call (ReoonCreateTask api_key batch) in
      match create_response with
      | NoResponse => raise ConnectionError
      | Http status task_data =>
          if is_http_error status then raise (HTTPError status)
          else
            match task_data with
            | NotJson => raise JSONDecodeError
            | _ =>
                let task_id := task_id_of task_data in
                if negb (truthy task_id) then
                  raise (Exception "No task ID returned from Reoon API")
                else
                  let* results_data :=
                    poll max_tries api_key (default ""%string task_id) in
                  let results := results_of results_data in
                  let* (valid_contacts, invalid_contacts) :=
                    lift (process_results contact_map results
                            valid_contacts invalid_contacts) in
                  let* _ := sleep 2 in
                  verify_batches api_key contact_map rest
                    valid_contacts invalid_contacts
            end
      end
  end.

(** The two [except] clauses.  The first one, for the exceptions of the
    request library, builds its message from [e.request.url] and
    [e.response.status_code]: an HTTP error carries both and is re-raised
    as a plain [Exception]; a failed connection carries no response and an
    undecodable body neither of them, and for these the handler itself
    raises [AttributeError].  The second one re-raises any other exception
    as a plain [Exception]. *)
Definition reraise (e : exn) : exn :=
  match e with
  | HTTPError _ => Wrapped "Reoon API request failed" e
  | ConnectionError | JSONDecodeError => AttributeError
  | _ => Wrapped "Verification failed" e
  end.

Definition verify_emails (env : gmap string string) (contacts : list contact)
  : M (list contact * list invalid_contact) :=
  let api_key := getenv env "REOON_API_KEY" in
  if negb (truthy api_key) then
    raise (ValueError "Missing REOON_API_KEY in environment variables")
  else
    let email_list := email <$> contacts in
    let contact_map := contact_map contacts in
    let batch_size := 100 in
    let* (valid_contacts, invalid_contacts) :=
      try_except
        (let* batches := lift (batches batch_size email_list) in
         verify_batches (default ""%string api_key) contact_map batches [] [])
        (fun e => raise (reraise e)) in
    (* the success rate printed at the end divides by len(contacts) *)
    if (length contacts =? 0)%nat then raise ZeroDivisionError
    else ret (valid_contacts, invalid_contacts).

(** The result sets of the completed tasks seen in a trace whose first
    call is call number [n], in the order they were returned. *)
Fixpoint task_results (srv : server) (n : nat) (ev : list event)
  : list (string * verification) :=
  match ev with
  | [] => []
  | Sleep _ :: ev => task_results srv n ev
  | Call q :: ev =>
      let here :=
        match q, srv n q with
        | ReoonGetResult _ _, Http status b =>
            if negb (is_http_error status) && completed b then results_of b
            else []
        | _, _ => []
        end in
      here ++ task_results srv (S n) ev
  end.

(** The batches of e-mails submitted by the task-creation requests of a
    trace, in order. *)
Definition created_batches (ev : list event) : list (list string) :=
  omap (fun e => match e with
                 | Call (ReoonCreateTask _ emails) => Some emails
                 | _ => None
                 end) ev.

(** A verification service for the examples: every task is created with
    the identifier ["task-1"]; polls are answered ["running"] up to call
    number [pending] and ["completed"], with [results], afterwards. *)
Definition scripted_service (pending : nat) (results : list (string * verification))
  : server :=
  fun n r =>
    match r with
    | ReoonCreateTask _ _ => Http 200 (ReoonTask (Some "task-1"%string))
    | ReoonGetResult _ _ =>
        if (n <=? pending)%nat then Http 200 (ReoonResult (Some "running"%string) None)
        else Http 200 (ReoonResult (Some "completed"%string) (Some results))
    | _ => NoResponse
    end.

End Reoon.

(** ** instantly.py *)

Module Instantly.

(** [campaign_ids.get(campaign_key)] for the dictionary built from the
    environment. *)
Definition campaign_id_of (env : gmap string string) (campaign_key : string)
  : option string :=
  if String.eqb campaign_key "campaign_a" then getenv env "CAMPAIGN_PRIMARY_ID"
  else if String.eqb campaign_key "campaign_b" then getenv env "CAMPAIGN_SECONDARY_ID"
  else None.

(** [api_key and all(campaign_ids.values())]. *)
Definition credentials_ok (env : gmap string string) : bool :=
  truthy (getenv env "INSTANTLY_API_KEY")
  && forallb truthy [getenv env "CAMPAIGN_PRIMARY_ID";
                     getenv env "CAMPAIGN_SECONDARY_ID"].

Definition lead_data (campaign_id : string) (c : contact) : lead :=
  {| lead_email := email c;
     lead_first_name := first_name c;
     lead_last_name := last_name c;
     lead_company := company c;
     lead_linkedin := linkedin c;
     lead_campaign_id := campaign_id |}.

(** One lead goes to [/leads], several go to [/leads/list]. *)
Definition upload_request (api_key : string) (leads_payload : list lead) : request :=
  match leads_payload with
  | [l] => InstantlyAddLead api_key l
  | _ => InstantlyAddLeads api_key leads_payload
  end.

Definition created (status : Z) : bool := (status =? 200) || (status =? 201).

(** The body of the batch loop: the [try] block and its handler, which
    prints and goes on. *)
Definition upload_batch (api_key campaign_id : string) (batch : list contact)
    (total_uploaded : Z) : M Z :=
  let leads_payload := lead_data campaign_id <$> batch in
  try_except
    (let* response := call (upload_request api_key leads_payload) in
     match response with
     | NoResponse => raise ConnectionError
     | Http status _ =>
         let total_uploaded :=
           if created status then total_uploaded + Z.of_nat (length batch)
           else total_uploaded in
         let* _ := sleep 1 in
         ret total_uploaded
     end)
    (fun _ => ret total_uploaded).

Fixpoint upload_batches (api_key campaign_id : string)
    (batches : list (list contact)) (total_uploaded : Z) : M Z :=
  match batches with
  | [] => ret total_uploaded
  | batch :: rest =>
      let* total_uploaded := upload_batch api_key campaign_id batch total_uploaded in
      upload_batches api_key campaign_id rest total_uploaded
  end.

(** [for campaign_key, contact_list in contacts_split.items()]. *)
Fixpoint push_campaigns (env : gmap string string) (api_key : string)
    (batch_size : Z) (items : list (string * list contact)) (total_uploaded : Z)
  : M Z :=
  match items with
  | [] => ret total_uploaded
  | (campaign_key, contact_list) :: rest =>
      let campaign_id := campaign_id_of env campaign_key in
      if negb (truthy campaign_id) then
        push_campaigns env api_key batch_size rest total_uploaded
      else if negb (nonempty contact_list) then
        push_campaigns env api_key batch_size rest total_uploaded
      else
        let* batches := lift (batches batch_size contact_list) in
        let* total_uploaded :=
          upload_batches api_key (default ""%string campaign_id) batches
            total_uploaded in
        push_campaigns env api_key batch_size rest total_uploaded
  end.

Definition push_to_instantly (env : gmap string string)
    (contacts_split : list (string * list contact)) (batch_size : Z) : M Z :=
  let api_key := getenv env "INSTANTLY_API_KEY" in
  if negb (credentials_ok env) then
    raise (ValueError "Missing Instantly credentials (API Key or Campaign IDs)")
  else
    push_campaigns env (default ""%string api_key) batch_size contacts_split 0.

(** The number of leads an upload request carries. *)
Definition leads_sent (q : request) : Z :=
  match q with
  | InstantlyAddLead _ _ => 1
  | InstantlyAddLeads _ leads => Z.of_nat (length leads)
  | _ => 0
  end.

(** The number of leads a call got onto the platform: those of an upload
    request answered with 200 or 201. *)
Definition accepted (q : request) (r : response) : Z :=
  match r with
  | Http status _ => if created status then leads_sent q else 0
  | NoResponse => 0
  end.

(** The leads uploaded by the calls of a trace whose first call is call
    number [n]. *)
Fixpoint uploaded (srv : server) (n : nat) (ev : list event) : Z :=
  match ev with
  | [] => 0
  | Sleep _ :: ev => uploaded srv n ev
  | Call q :: ev => accepted q (srv n q) + uploaded srv (S n) ev
  end.

(** [data.get('data', [])], reduced to the e-mails, and
    [data.get("next_starting_after")]. *)
Definition leads_of (b : body) : list string :=
  match b with InstantlyLeads (Some leads) _ => leads | _ => [] end.

Definition cursor_of (b : body) : option string :=
  match b with InstantlyLeads _ cursor => cursor | _ => None end.

(** The key [starting_after] is put in the payload only when truthy. *)
Definition list_request (api_key campaign_id filter_val : string)
    (starting_after : option string) : request :=
  InstantlyListLeads api_key campaign_id filter_val 100
    (if truthy starting_after then starting_after else None).

(** The [while True] pagination loop of one campaign and filter. *)
Fixpoint collect_leads (fuel : nat) (api_key campaign_id filter_val : string)
    (starting_after : option string) (emails_to_delete : list string)
  : M (list string) :=
  match fuel with
  | O => out_of_fuel
  | S fuel =>
      let* response :=
        call (list_request api_key campaign_id filter_val starting_after) in
      match response with
      | NoResponse => raise ConnectionError
      | Http status data =>
          if is_http_error status then raise (HTTPError status)
          else
            match data with
            | NotJson => raise JSONDecodeError
            | _ =>
                let leads := leads_of data in
                let emails_to_delete := emails_to_delete ++ leads in
                let starting_after := cursor_of data in
                if negb (truthy starting_after) || negb (nonempty leads) then
                  ret emails_to_delete
                else
                  collect_leads fuel api_key campaign_id filter_val
                    starting_after emails_to_delete
            end
      end
  end.

Definition filter_values : list string := ["FILTER_VAL_COMPLETED"%string].

Fixpoint collect_filters (fuel : nat) (api_key campaign_id : string)
    (filters : list string) (emails_to_delete : list string) : M (list string) :=
  match filters with
  | [] => ret emails_to_delete
  | filter_val :: rest =>
      let* emails_to_delete :=
        collect_leads fuel api_key campaign_id filter_val None emails_to_delete in
      collect_filters fuel api_key campaign_id rest emails_to_delete
  end.

(** Deletion in batches of 100; only a 200 counts. *)
Fixpoint delete_batches (api_key campaign_id : string)
    (batches : list (list string)) (deleted_count : Z) : M Z :=
  match batches with
  | [] => ret deleted_count
  | batch :: rest =>
      let* delete_response :=
        call (InstantlyRemoveLeads api_key campaign_id batch) in
      match delete_response with
      | NoResponse => raise ConnectionError
      | Http status _ =>
          let deleted_count :=
            if status =? 200 then deleted_count + Z.of_nat (length batch)
            else deleted_count in
          let* _ := sleep 1 in
          delete_batches api_key campaign_id rest deleted_count
      end
  end.

Fixpoint sweep_campaigns (fuel : nat) (api_key : string)
    (campaign_ids : list (option string)) (deleted_count : Z) : M Z :=
  match campaign_ids with
  | [] => ret deleted_count
  | campaign_id :: rest =>
      if negb (truthy campaign_id) then
        sweep_campaigns fuel api_key rest deleted_count
      else
        let campaign_id := default ""%string campaign_id in
        let* emails_to_delete :=
          collect_filters fuel api_key campaign_id filter_values [] in
        if negb (nonempty emails_to_delete) then
          sweep_campaigns fuel api_key rest deleted_count
        else
          let* batches := lift (batches 100 emails_to_delete) in
          let* deleted_count :=
            delete_batches api_key campaign_id batches deleted_count in
          sweep_campaigns fuel api_key rest deleted_count
  end.

Definition delete_finished_leads (env : gmap string string) (fuel : nat) : M Z :=
  let api_key := getenv env "INSTANTLY_API_KEY" in
  let campaign_ids :=
    [getenv env "CAMPAIGN_PRIMARY_ID"; getenv env "CAMPAIGN_SECONDARY_ID"] in
  if negb (truthy api_key) then
    raise (ValueError "Missing INSTANTLY_API_KEY in environment variables")
  else sweep_campaigns fuel (default ""%string api_key) campaign_ids 0.

(** The leads an upload request carries, and the leads sent by the
    upload requests of a trace, in order. *)
Definition leads_in (q : request) : list lead :=
  match q with
  | InstantlyAddLead _ l => [l]
  | InstantlyAddLeads _ leads => leads
  | _ => []
  end.

Definition sent_leads (ev : list event) : list lead :=
  requests_of ev ≫= leads_in.

(** The e-mails a removal request names, and what an answer to it adds to
    the count of deleted leads: only a 200 counts. *)
Definition emails_in (q : request) : list string :=
  match q with
  | InstantlyRemoveLeads _ _ emails => emails
  | _ => []
  end.

Definition removal (q : request) (r : response) : Z :=
  match r with
  | Http status _ => if status =? 200 then Z.of_nat (length (emails_in q)) else 0
  | NoResponse => 0
  end.

(** The leads deleted by the calls of a trace whose first call is call
    number [n]. *)
Fixpoint removed (srv : server) (n : nat) (ev : list event) : Z :=
  match ev with
  | [] => 0
  | Sleep _ :: ev => removed srv n ev
  | Call q :: ev => removal q (srv n q) + removed srv (S n) ev
  end.

(** A destination for the examples: uploads and removals are answered
    with [status_at n] at call [n]; a list request with the page found
    under its cursor in [pages] (the first page under the empty cursor). *)
Definition scripted_platform (status_at : nat -> Z)
    (pages : list (string * (list string * option string))) : server :=
  fun n r =>
    match r with
    | InstantlyAddLead _ _ | InstantlyAddLeads _ _ | InstantlyRemoveLeads _ _ _ =>
        Http (status_at n) EmptyObject
    | InstantlyListLeads _ _ _ _ cursor =>
        match list_find (fun p => String.eqb p.1 (default ""%string cursor) = true) pages with
        | Some (_, (_, (leads, next))) => Http 200 (InstantlyLeads (Some leads) next)
        | None => Http 200 (InstantlyLeads None None)
        end
    | _ => NoResponse
    end.

End Instantly.

(** ** logger.py *)

Module Logger.

(** A worksheet, as far as the pipeline reads it: the values of its first
    column, header included ([None]: the read raises). *)
Record worksheet : Type := Worksheet {
  col_values_1 : option (list string)
}.

(** The spreadsheet that [client.open_by_key(sheet_id)] gives: its
    worksheets by title. *)
Definition spreadsheet : Type := gmap string worksheet.

(** The attributes of a [GoogleSheetManager]; an attribute that was never
    assigned is [None]. *)
Record GoogleSheetManager : Type := Manager {
  log_sheet : option worksheet;
  processed_sheet : option worksheet;
  invalid_sheet : option worksheet
}.

(** [__init__]: builds the credentials from the environment (the private
    key must be set, for [.replace]), opens the spreadsheet ([opened]: what
    authorizing and [open_by_key] give) and assigns [self.log_sheet], and
    nothing else.  Any exception is re-raised as a plain [Exception]. *)
Definition init (env : gmap string string) (opened : outcome spreadsheet)
  : outcome GoogleSheetManager :=
  let failed := Wrapped "Failed to initialize GoogleSheetManager" in
  match getenv env "GOOGLE_PRIVATE_KEY" with
  | None => Raise (failed AttributeError)
  | Some _ =>
      match opened with
      | Ret spreadsheet =>
          match spreadsheet !! "Log"%string with
          | Some log =>
              Ret {| log_sheet := Some log;
                     processed_sheet := None;
                     invalid_sheet := None |}
          | None => Raise (failed (Exception "WorksheetNotFound"))
          end
      | Raise e => Raise (failed e)
      | OutOfFuel => OutOfFuel
      end
  end.

(** [set(self.processed_sheet.col_values(1)[1:])]; any exception, the
    missing attribute included, is caught and yields the empty set. *)
Definition get_processed_emails (self : GoogleSheetManager) : gset string :=
  match processed_sheet self with
  | Some sheet =>
      match col_values_1 sheet with
      | Some emails => list_to_set (drop 1 emails)
      | None => ∅
      end
  | None => ∅
  end.

(** [worksheet.append_row(..)] and [worksheet.append_rows(..)]: the
    library raises when the call fails or is refused. *)
Definition append (q : request) : M unit :=
  let* response := call q in
  match response with
  | NoResponse => raise ConnectionError
  | Http status _ =>
      if is_http_error status then raise (HTTPError status) else ret tt
  end.

Definition log_run_summary (self : GoogleSheetManager) (status : string)
    (c : counts) (error_msg : option exn) : M unit :=
  match log_sheet self with
  | None => raise AttributeError
  | Some _ => append (SheetAppendRow (Summary status c error_msg))
  end.

Definition log_processed_leads (self : GoogleSheetManager) (leads : list contact)
  : M unit :=
  if negb (nonempty leads) then ret tt
  else
    let rows :=
      (fun lead => [email lead; first_name lead; last_name lead; company lead;
                    linkedin lead]) <$> leads in
    match processed_sheet self with
    | None => raise AttributeError
    | Some _ => append (SheetAppendRows ProcessedSheet rows)
    end.

Definition log_invalid_leads (self : GoogleSheetManager)
    (leads : list Reoon.invalid_contact) : M unit :=
  if negb (nonempty leads) then ret tt
  else
    let rows := (fun lead => [Reoon.inv_email lead; Reoon.reason lead]) <$> leads in
    match invalid_sheet self with
    | None => raise AttributeError
    | Some _ => append (SheetAppendRows InvalidSheet rows)
    end.

End Logger.

(** ** notifier.py *)

Module Notifier.

(** Without the two SMTP settings nothing is sent; a failure to send is
    caught and printed. *)
Definition send_error_email (env : gmap string string) (error : exn) : M unit :=
  let sender_email := getenv env "SMTP_EMAIL" in
  let password := getenv env "SMTP_PASS" in
  if negb (truthy sender_email) || negb (truthy password) then ret tt
  else
    let* _ := call (SmtpSend (default ""%string sender_email) error) in
    ret tt.

End Notifier.

(** ** main.py: deduplication *)

Module Main.

Section Dedup.

(** [str.lower], as the language defines it on every string: taken as
    given. *)
Variable lower : string -> string.

(** [[c for c in all_apollo_contacts
      if c['email'] and c['email'].lower() not in processed_emails]]. *)
Definition new_contacts (processed_emails : gset string)
    (all_apollo_contacts : list contact) : list contact :=
  List.filter
    (fun c => negb (String.eqb (email c) "")
              && negb (bool_decide (lower (email c) ∈ processed_emails)))
    all_apollo_contacts.

End Dedup.

(** What [str.lower] does to a string of ASCII characters, for the
    examples. *)
Definition is_upper (c : ascii) : bool :=
  let n := nat_of_ascii c in (65 <=? n)%nat && (n <=? 90)%nat.

Definition lower_char (c : ascii) : ascii :=
  if is_upper c then ascii_of_nat (nat_of_ascii c + 32) else c.

Fixpoint ascii_lower (s : string) : string :=
  match s with
  | EmptyString => EmptyString
  | String c s => String (lower_char c) (ascii_lower s)
  end.

(** [int(os.getenv("CAMPAIGN_SPLIT_PERCENT", 60))]. *)
Definition split_percent (env : gmap string string) : outcome Z :=
  match getenv env "CAMPAIGN_SPLIT_PERCENT" with
  | Some s => Apollo.int_of_string s
  | None => Ret 60
  end.

(** One statement of the [try] block, followed by the rest of the block:
    an exception of the statement goes to the [except] clause, which sees
    the manager and the counters as they stand at that point.  What the
    [except] clause raises itself is not caught again. *)
Definition step {A} (m : M A) (except : exn -> M unit) (rest : A -> M unit)
  : M unit :=
  fun srv n =>
    match m srv n with
    | Run (Ret a) ev n' => after ev (rest a srv n')
    | Run (Raise e) ev n' => after ev (except e srv n')
    | Run OutOfFuel ev n' => Run OutOfFuel ev n'
    end.

Definition no_counts : counts := Counts 0 0 0 0 0.

Section Flow.

Variable lower : string -> string.

(** The permutation [random.shuffle] picks in this run. *)
Variable shuffle : list contact -> list contact.

Variable env : gmap string string.

(** What opening the spreadsheet gives in this run. *)
Variable opened : outcome Logger.spreadsheet.

(** The [except] clause. *)
Definition failed (sheet_manager : option Logger.GoogleSheetManager)
    (c : counts) (e : exn) : M unit :=
  let* _ :=
    match sheet_manager with
    | Some self => Logger.log_run_summary self "Failed" c (Some e)
    | None => ret tt
    end in
  Notifier.send_error_email env e.

Definition run_automation_flow (fuel : nat) : M unit :=
  step (lift (Logger.init env opened)) (failed None no_counts) (fun self =>
  let sheet_manager := Some self in
  let processed_emails := Logger.get_processed_emails self in
  step (Apollo.fetch_all_contacts_from_list env fuel)
    (failed sheet_manager no_counts) (fun all_apollo_contacts =>
  let c := Counts (Z.of_nat (length all_apollo_contacts)) 0 0 0 0 in
  let new_contacts := new_contacts lower processed_emails all_apollo_contacts in
  let c := Counts (fetched c) (Z.of_nat (length new_contacts)) 0 0 0 in
  if negb (nonempty new_contacts) then
    step (Logger.log_run_summary self "Completed (No New Leads)" c None)
      (failed sheet_manager c) ret
  else
  step (Reoon.verify_emails env new_contacts) (failed sheet_manager c)
    (fun verification =>
  let valid_contacts := verification.1 in
  let invalid_contacts := verification.2 in
  let c := Counts (fetched c) (new c) (Z.of_nat (length valid_contacts)) 0 0 in
  step (if nonempty invalid_contacts
        then Logger.log_invalid_leads self invalid_contacts
        else ret tt)
    (failed sheet_manager c) (fun _ =>
  if negb (nonempty valid_contacts) then
    step (Logger.log_run_summary self "Completed (No Valid Leads)" c None)
      (failed sheet_manager c) ret
  else
  step (lift (and_then (split_percent env)
                (Utils.split_contacts shuffle valid_contacts)))
    (failed sheet_manager c) (fun split_data =>
  (* the list was shuffled in place *)
  let valid_contacts := shuffle valid_contacts in
  step (Instantly.push_to_instantly env split_data 100)
    (failed sheet_manager c) (fun uploaded_count =>
  let c := Counts (fetched c) (new c) (verified c) uploaded_count 0 in
  step (Logger.log_processed_leads self valid_contacts)
    (failed sheet_manager c) (fun _ =>
  step (Instantly.delete_finished_leads env fuel)
    (failed sheet_manager c) (fun deleted_count =>
  let c := Counts (fetched c) (new c) (verified c) (uploaded c) deleted_count in
  step (Logger.log_run_summary self "Success" c None)
    (failed sheet_manager c) ret)))))))).

End Flow.

(** The services of a whole run, for the examples: the source list has
    the one page [people], the verification service completes every task
    at once with [results], the destination accepts every upload, the
    spreadsheet answers every append with [sheet_status] and the mail
    server takes every message. *)
Definition scripted_run (people : list raw_contact)
    (results : list (string * verification)) (sheet_status : Z) : server :=
  fun n r =>
    match r with
    | ApolloSearch _ _ _ _ => Apollo.paged_server [people] n r
    | ReoonCreateTask _ _ | ReoonGetResult _ _ => Reoon.scripted_service 0 results n r
    | InstantlyAddLead _ _ | InstantlyAddLeads _ _
    | InstantlyListLeads _ _ _ _ _ | InstantlyRemoveLeads _ _ _ =>
        Instantly.scripted_platform (fun _ => 200) [] n r
    | SheetAppendRow _ | SheetAppendRows _ _ => Http sheet_status EmptyObject
    | SmtpSend _ _ => Http 250 EmptyObject
    end.

End Main.

(** * Properties *)

(** ** utils.py: the campaign splitter *)

Section SplitContactsFacts.
Context {contact : Type}.
Variable shuffle : list contact -> list contact.

Lemma slice_to_from_app (k : Z) (l : list contact) :
  slice_to k l ++ slice_from k l = l.
Proof.
  unfold slice_to, slice_from. destruct (k <? 0); apply take_drop.
Qed.

Lemma slice_to_nonneg (k : Z) (l : list contact) :
  0 <= k -> slice_to k l = take (Z.to_nat k) l.
Proof. intros Hk. unfold slice_to. destruct (Z.ltb_spec k 0); [lia|reflexivity]. Qed.

Lemma slice_from_nonneg (k : Z) (l : list contact) :
  0 <= k -> slice_from k l = drop (Z.to_nat k) l.
Proof. intros Hk. unfold slice_from. destruct (Z.ltb_spec k 0); [lia|reflexivity]. Qed.

(** Whatever index the slice is taken at, the two groups together are a
    permutation of the input: each contact lands in exactly one group. *)
Lemma split_contacts_partition (contacts : list contact) (p : Z) a b :
  (forall l, shuffle l ≡ₚ l) ->
  Utils.split_contacts shuffle contacts p
    = Ret [("campaign_a"%string, a); ("campaign_b"%string, b)] ->
  a ++ b ≡ₚ contacts.
Proof.
  intros Hperm. unfold Utils.split_contacts.
  destruct (negb _); [discriminate|].
  destruct (Utils.split_index _ _) as [k| |]; [|discriminate..].
  intros [= <- <-]. rewrite slice_to_from_app. apply Hperm.
Qed.

Lemma split_contacts_out_of_range (contacts : list contact) (p : Z) :
  p < 0 \/ 100 < p ->
  Utils.split_contacts shuffle contacts p
    = Raise (ValueError "Percentage must be between 0 and 100.").
Proof.
  intros Hp. unfold Utils.split_contacts.
  destruct (Z.leb_spec 0 p), (Z.leb_spec p 100); simpl; try reflexivity; lia.
Qed.

(** C1 (as the code behaves): for 100 contacts and 29 percent the primary
    group receives 28 contacts, one fewer than floor(100*29/100) = 29:
    the product 100 * (29/100) is rounded below 29 in binary64 and then
    truncated. *)
Theorem split_contacts_100_at_29_percent (contacts : list contact) :
  length contacts = 100%nat ->
  (forall l, length (shuffle l) = length l) ->
  exists a b,
    Utils.split_contacts shuffle contacts 29
      = Ret [("campaign_a"%string, a); ("campaign_b"%string, b)]
    /\ length a = 28%nat /\ length b = 72%nat
    /\ Z.of_nat (length a) <> (Z.of_nat (length contacts) * 29) `div` 100.
Proof.
  intros Hlen Hshuffle.
  assert (Hs : length (shuffle contacts) = 100%nat) by (rewrite Hshuffle; exact Hlen).
  unfold Utils.split_contacts. simpl negb. cbv iota.
  rewrite Hs.
  change (Utils.split_index (Z.of_nat 100) 29) with (Ret (A:=Z) 28).
  exists (slice_to 28 (shuffle contacts)), (slice_from 28 (shuffle contacts)).
  split; [reflexivity|].
  rewrite slice_to_nonneg, slice_from_nonneg by lia.
  rewrite length_take, length_drop, Hs, Hlen.
  repeat split; try reflexivity. vm_compute. discriminate.
Qed.
End SplitContactsFacts.

(** For up to 200 contacts and every percentage the binary64 index is the
    exact floor or, for some inputs where n*p/100 is an integer, one
    less. *)
Lemma split_index_close_upto_200 :
  forallb (fun n =>
    forallb (fun p => Utils.split_index_close (Z.of_nat n) (Z.of_nat p)) (seq 0 101))
    (seq 0 201) = true.
Proof. vm_compute. reflexivity. Qed.

Lemma split_contacts_100_at_29_percent_witness :
  exists a b,
    Utils.split_contacts (@rev nat) (seq 0 100) 29
      = Ret [("campaign_a"%string, a); ("campaign_b"%string, b)]
    /\ length a = 28%nat /\ length b = 72%nat
    /\ Z.of_nat (length a) <> (Z.of_nat (length (seq 0 100)) * 29) `div` 100.
Proof.
  apply (split_contacts_100_at_29_percent (@rev nat) (seq 0 100)).
  - reflexivity.
  - intros l. apply length_rev.
Defined.

(** ** Traces *)

Lemma requests_of_call q ev : requests_of (Call q :: ev) = q :: requests_of ev.
Proof. reflexivity. Qed.

Lemma requests_of_sleep s ev : requests_of (Sleep s :: ev) = requests_of ev.
Proof. reflexivity. Qed.

Lemma requests_of_app ev1 ev2 :
  requests_of (ev1 ++ ev2) = requests_of ev1 ++ requests_of ev2.
Proof. apply omap_app. Qed.

Lemma run_eta {A} (r : run A) : Run (result r) (events r) (calls r) = r.
Proof. by destruct r. Qed.

Lemma bind_ret_run {A B} (m : M A) (f : A -> M B) srv n a :
  result (m srv n) = Ret a ->
  bind m f srv n = after (events (m srv n)) (f a srv (calls (m srv n))).
Proof.
  unfold bind, after. destruct (m srv n) as [o ev n1]. cbn. intros ->.
  by destruct (f a srv n1).
Qed.

Lemma bind_raise_run {A B} (m : M A) (f : A -> M B) srv n e :
  result (m srv n) = Raise e ->
  bind m f srv n = Run (Raise e) (events (m srv n)) (calls (m srv n)).
Proof. unfold bind. destruct (m srv n) as [o ev n1]. cbn. by intros ->. Qed.

Lemma bind_assoc {A B C} (m : M A) (f : A -> M B) (g : B -> M C) srv n :
  bind (bind m f) g srv n = bind m (fun a => bind (f a) g) srv n.
Proof.
  unfold bind. destruct (m srv n) as [[a|e|] ev n1]; try done.
  destruct (f a srv n1) as [[b|e|] ev1 n2]; try done.
  destruct (g b srv n2) as [o ev2 n3]. by rewrite app_assoc.
Qed.

Lemma counts_calls_ret {A} (a : A) : counts_calls (ret a).
Proof. intros srv n. cbn. lia. Qed.

Lemma counts_calls_raise {A} e : counts_calls (@raise A e).
Proof. intros srv n. cbn. lia. Qed.

Lemma counts_calls_lift {A} (o : outcome A) : counts_calls (lift o).
Proof. intros srv n. cbn. lia. Qed.

Lemma counts_calls_sleep s : counts_calls (sleep s).
Proof. intros srv n. cbn. lia. Qed.

Lemma counts_calls_call q : counts_calls (call q).
Proof. intros srv n. cbn. lia. Qed.

Lemma counts_calls_bind {A B} (m : M A) (f : A -> M B) :
  counts_calls m -> (forall a, counts_calls (f a)) -> counts_calls (bind m f).
Proof.
  intros Hm Hf srv n. unfold bind. specialize (Hm srv n).
  destruct (m srv n) as [[a|e|] ev n1]; cbn [calls events result] in *; try done.
  specialize (Hf a srv n1). destruct (f a srv n1) as [o ev1 n2].
  cbn [calls events result] in *.
  rewrite requests_of_app, length_app. lia.
Qed.

Lemma counts_calls_try_except {A} (m : M A) (h : exn -> M A) :
  counts_calls m -> (forall e, counts_calls (h e)) -> counts_calls (try_except m h).
Proof.
  intros Hm Hh srv n. unfold try_except. specialize (Hm srv n).
  destruct (m srv n) as [[a|e|] ev n1]; cbn [calls events result] in *; try done.
  specialize (Hh e srv n1). destruct (h e srv n1) as [o ev1 n2].
  cbn [calls events result] in *.
  rewrite requests_of_app, length_app. lia.
Qed.

Lemma bind_lift_ret {A B} (a : A) (f : A -> M B) srv n :
  bind (lift (Ret a)) f srv n = f a srv n.
Proof. unfold bind, lift. by destruct (f a srv n). Qed.

Lemma bind_lift_raise {A B} e (f : A -> M B) srv n :
  bind (lift (Raise e)) f srv n = Run (Raise e) [] n.
Proof. reflexivity. Qed.

Lemma bind_sleep {B} s (f : unit -> M B) srv n :
  bind (sleep s) f srv n = after [Sleep s] (f tt srv n).
Proof. unfold bind, sleep, after. by destruct (f tt srv n). Qed.

Lemma bind_call {B} q (f : response -> M B) srv n :
  bind (call q) f srv n = after [Call q] (f (srv n q) srv (S n)).
Proof. unfold bind, call, after. by destruct (f (srv n q) srv (S n)). Qed.

Lemma after_after {A} ev1 ev2 (r : run A) :
  after ev1 (after ev2 r) = after (ev1 ++ ev2) r.
Proof. unfold after. cbn. by rewrite app_assoc. Qed.

(** ** apollo.py: the pagination fetcher *)

Lemma and_then_Ret {A B} (o : outcome A) (f : A -> outcome B) b :
  and_then o f = Ret b <-> exists a, o = Ret a /\ f a = Ret b.
Proof.
  destruct o as [a|e|]; cbn; [|split; [done|by intros (? & ? & ?)]..].
  split; [by exists a|]. by intros (a' & [= ->] & ?).
Qed.

Lemma events_after {A} ev (r : run A) : events (after ev r) = ev ++ events r.
Proof. reflexivity. Qed.

Lemma result_after {A} ev (r : run A) : result (after ev r) = result r.
Proof. reflexivity. Qed.

Lemma body_json_cases (b : body) : b = NotJson \/ b <> NotJson.
Proof. destruct b; (by left) || (by right). Qed.

Section FetchFacts.
Import Apollo.
Variables (api_key list_id : string) (test_mode_pages : option string).

Local Notation "'loop'" := (fetch_loop api_key list_id test_mode_pages).
Local Notation "'query'" := (search api_key list_id).

Lemma add_valid_contacts_outcome page : forall acc,
  add_valid_contacts acc page <> OutOfFuel.
Proof.
  induction page as [|c page IH]; intros acc; cbn [add_valid_contacts]; [done|].
  destruct (truthy (raw_email c)); [|apply IH].
  unfold normalize. destruct (raw_organization c); cbn; [apply IH|done|apply IH].
Qed.

Lemma read_total_pages_cases total_pages b :
  (total_pages = None /\ pagination_of b = NotObject
   /\ read_total_pages total_pages b = Raise AttributeError)
  \/ ((total_pages <> None \/ pagination_of b <> NotObject)
      /\ exists total_pages', read_total_pages total_pages b = Ret total_pages').
Proof.
  unfold read_total_pages. destruct total_pages as [t|].
  { right. split; [by left|by eexists]. }
  destruct (pagination_of b); cbn.
  - right. split; [by right|by eexists].
  - by left.
  - right. split; [by right|by eexists].
Qed.

(** The body of the [try] statement on an answer that is a JSON object. *)
Lemma tried_json status b total_pages acc :
  is_http_error status = false -> b <> NotJson ->
  tried (Http status b) total_pages acc
    = and_then (read_total_pages total_pages b) (fun total_pages =>
        if negb (nonempty (contacts_of b)) then Ret Stop
        else and_then (add_valid_contacts acc (contacts_of b))
               (fun acc => Ret (Advance total_pages acc))).
Proof. intros He Hb. unfold tried. cbn [json_of]. rewrite He. by destruct b. Qed.

Lemma tried_outcome r total_pages acc :
  tried r total_pages acc <> Ret Again /\ tried r total_pages acc <> OutOfFuel.
Proof.
  unfold tried. destruct (json_of r) as [data|e|] eqn:Hjson; cbn [and_then]; [|done|].
  - destruct (read_total_pages_cases total_pages data)
      as [(_ & _ & ->)|(_ & tp & ->)]; cbn [and_then]; [done|].
    destruct (negb (nonempty (contacts_of data))); [done|].
    pose proof (add_valid_contacts_outcome (contacts_of data) acc).
    by destruct (add_valid_contacts acc (contacts_of data)).
  - destruct r as [|status b]; [done|]. cbn in Hjson.
    destruct (is_http_error status); [done|]. by destruct b.
Qed.

(** The [try] statement makes one call, and what it does next is a
    function of the answer. *)
Lemma attempt_handled page total_pages acc (srv : server) n :
  attempt api_key list_id page total_pages acc srv n
    = Run (handled (srv n (query page)) total_pages acc)
        (Call (query page) :: pause (handled (srv n (query page)) total_pages acc))
        (S n).
Proof.
  unfold attempt, handled, try_except. rewrite bind_call.
  remember (srv n (query page)) as r eqn:Hr.
  assert (Hbody :
    (let* data := lift (json_of r) in
     let* total_pages0 := lift (read_total_pages total_pages data) in
     if negb (nonempty (contacts_of data)) then ret Stop
     else
       let* all_contacts := lift (add_valid_contacts acc (contacts_of data)) in
       let* _ := sleep 1 in
       ret (Advance total_pages0 all_contacts)) srv (S n)
    = Run (tried r total_pages acc)
        match tried r total_pages acc with
        | Ret (Advance _ _) => [Sleep 1]
        | _ => []
        end (S n)).
  { unfold tried. destruct (json_of r) as [data|e|]; [|reflexivity..].
    rewrite bind_lift_ret. cbn [and_then].
    destruct (read_total_pages total_pages data) as [tp|e|]; [|reflexivity..].
    rewrite bind_lift_ret. cbn [and_then].
    destruct (negb (nonempty (contacts_of data))); [reflexivity|].
    destruct (add_valid_contacts acc (contacts_of data)); reflexivity. }
  rewrite Hbody. unfold after. cbn [result events calls].
  destruct (tried_outcome r total_pages acc) as [Hagain _].
  destruct (tried r total_pages acc) as [[| |tp acc']|e|]; try done.
  destruct e; try reflexivity. cbn. by destruct (_ =? 429).
Qed.

(** One iteration of the loop. *)
Lemma fetch_loop_unfold fuel page total_pages acc (srv : server) n :
  loop (S fuel) page total_pages acc srv n
    = match test_limit_reached test_mode_pages page with
      | Ret true => Run (Ret acc) [] n
      | Ret false =>
          after (Call (query page)
                 :: pause (handled (srv n (query page)) total_pages acc))
            match handled (srv n (query page)) total_pages acc with
            | Ret Again => loop fuel page total_pages acc srv (S n)
            | Ret Stop => Run (Ret acc) [] (S n)
            | Ret (Advance total_pages acc) =>
                loop fuel (page + 1) total_pages acc srv (S n)
            | Raise e => Run (Raise e) [] (S n)
            | OutOfFuel => Run OutOfFuel [] (S n)
            end
      | Raise e => Run (Raise e) [] n
      | OutOfFuel => Run OutOfFuel [] n
      end.
Proof.
  cbn [fetch_loop].
  destruct (test_limit_reached test_mode_pages page) as [[|]|e|];
    [reflexivity| |reflexivity..].
  rewrite bind_lift_ret. unfold bind. rewrite attempt_handled.
  destruct (handled (srv n (query page)) total_pages acc) as [[| |tp acc']|e|];
    unfold after; cbn [result events calls pause app];
    try reflexivity;
    match goal with |- context [fetch_loop ?a ?b ?c ?d ?e ?f ?g ?h ?i] =>
      destruct (fetch_loop a b c d e f g h i) as [o ev k] end;
    reflexivity.
Qed.

Lemma normalize_cases (c : raw_contact) :
  (raw_organization c = NotObject /\ normalize c = Raise AttributeError)
  \/ (raw_organization c <> NotObject /\ exists entry, normalize c = Ret entry).
Proof.
  unfold normalize. destruct (raw_organization c); cbn; eauto.
Qed.

Lemma normalize_email (c : raw_contact) entry :
  normalize c = Ret entry -> email entry = default ""%string (raw_email c).
Proof.
  unfold normalize. destruct (raw_organization c); cbn; [|done|]; by intros [= <-].
Qed.

(** The contacts of a page are added in order, each one as [normalize]
    builds it; a record whose organization cannot be read makes the whole
    page fail. *)
Lemma add_valid_contacts_cases page : forall acc,
  (exists new,
     add_valid_contacts acc page = Ret (acc ++ new)
     /\ Forall2 (fun entry c => normalize c = Ret entry) new
          (List.filter (fun c => truthy (raw_email c)) page))
  \/ (add_valid_contacts acc page = Raise AttributeError
      /\ exists c, c ∈ page /\ truthy (raw_email c) = true
                   /\ raw_organization c = NotObject).
Proof.
  induction page as [|c page IH]; intros acc; cbn [add_valid_contacts List.filter].
  { left. exists []. by rewrite app_nil_r. }
  destruct (truthy (raw_email c)) eqn:Hmail.
  - destruct (normalize_cases c) as [[Horg ->]|[Horg [entry Hentry]]].
    { right. split; [done|]. exists c. split; [by left|done]. }
    rewrite Hentry. cbn [and_then].
    destruct (IH (acc ++ [entry])) as [(new & -> & Hnew)|(-> & c' & Hin & Hc')].
    + left. exists (entry :: new). split; [by rewrite <- app_assoc|].
      by constructor.
    + right. split; [done|]. exists c'. split; [by right|done].
  - destruct (IH acc) as [(new & -> & Hnew)|(-> & c' & Hin & Hc')].
    + left. by exists new.
    + right. split; [done|]. exists c'. split; [by right|done].
Qed.


(** *** The answers and what the [try] statement makes of them *)

Lemma handled_outcome r total_pages acc :
  handled r total_pages acc <> OutOfFuel.
Proof.
  unfold handled. destruct (tried_outcome r total_pages acc) as [_ Hfuel].
  destruct (tried r total_pages acc) as [nx|e|]; [done| |done].
  destruct e; try done. cbn. by destruct (_ =? 429).
Qed.

Lemma handled_no_response total_pages acc :
  handled NoResponse total_pages acc
    = Raise (Wrapped "Unexpected error on page" ConnectionError).
Proof. reflexivity. Qed.

Lemma handled_http_error status b total_pages acc :
  is_http_error status = true ->
  handled (Http status b) total_pages acc
    = if status =? 429 then Ret Again
      else Raise (Wrapped "HTTP Error on page" (HTTPError status)).
Proof. intros He. unfold handled, tried. cbn [json_of]. by rewrite He. Qed.

(** Without an error status the answer is never taken for an HTTP error,
    and never asked for again. *)
Lemma handled_no_http_error status b total_pages acc :
  is_http_error status = false ->
  match handled (Http status b) total_pages acc with
  | Ret Again | OutOfFuel => False
  | Ret Stop => contacts_of b = []
  | Ret (Advance total_pages' acc') =>
      contacts_of b <> []
      /\ read_total_pages total_pages b = Ret total_pages'
      /\ add_valid_contacts acc (contacts_of b) = Ret acc'
  | Raise e => exists cause, e = Wrapped "Unexpected error on page" cause
               /\ forall s, cause <> HTTPError s
  end.
Proof.
  intros He. unfold handled.
  destruct (body_json_cases b) as [->|Hb].
  { unfold tried. cbn [json_of]. rewrite He. by exists JSONDecodeError. }
  rewrite tried_json by done.
  destruct (read_total_pages_cases total_pages b)
    as [(_ & _ & ->)|(_ & tp & Htp)]; cbn [and_then excepted].
  { by exists AttributeError. }
  rewrite Htp. cbn [and_then].
  destruct (contacts_of b) as [|c cs] eqn:Hcs; [done|]. cbn [nonempty negb].
  destruct (add_valid_contacts_cases (c :: cs) acc)
    as [(new & Hret & _)|(Hret & _)]; rewrite Hret; cbn [and_then excepted].
  - done.
  - by exists AttributeError.
Qed.


(** *** A source that serves its pages in order *)

Section PagedSource.
Variable srv : server.
Variable source : Z -> list raw_contact.
Hypothesis serves : forall n page,
  exists status b,
    srv n (query page) = Http status b
    /\ is_http_error status = false /\ b <> NotJson
    /\ pagination_of b <> NotObject
    /\ contacts_of b = source page.

End PagedSource.

End FetchFacts.

Lemma no_test_limit test_mode_pages page :
  truthy test_mode_pages = false ->
  Apollo.test_limit_reached test_mode_pages page = Ret false.
Proof.
  intros H. unfold Apollo.test_limit_reached.
  destruct test_mode_pages as [s|]; [|done]. by rewrite H.
Qed.

Lemma paged_server_serves api_key list_id pages n page :
  Apollo.paged_server pages n (Apollo.search api_key list_id page)
    = Http 200 (ApolloPage (Object (Some (Z.of_nat (length pages))))
                  (Some (Apollo.page_of pages page))).
Proof. reflexivity. Qed.

Lemma fetch_with_credentials env api_key list_id fuel :
  getenv env "APOLLO_API_KEY" = Some api_key -> api_key <> ""%string ->
  getenv env "APOLLO_LIST_ID" = Some list_id -> list_id <> ""%string ->
  Apollo.contains "REPLACE_WITH" list_id = false ->
  Apollo.fetch_all_contacts_from_list env fuel
    = Apollo.fetch_loop api_key list_id (getenv env "TEST_MODE_PAGES") fuel 1 None [].
Proof.
  intros Hk Hk' Hl Hl' Hc. unfold Apollo.fetch_all_contacts_from_list.
  rewrite Hk, Hl. cbn.
  destruct (String.eqb_spec api_key ""); [done|].
  destruct (String.eqb_spec list_id ""); [done|]. cbn. by rewrite Hc.
Qed.







(** *** Rate limiting and fatal HTTP errors *)

Section RateLimitFacts.
Import Apollo.
Variables (api_key list_id : string) (test_mode_pages : option string).

Local Notation "'loop'" := (fetch_loop api_key list_id test_mode_pages).
Local Notation "'query'" := (search api_key list_id).

Lemma test_limit_reached_cases page :
  (exists b, test_limit_reached test_mode_pages page = Ret b)
  \/ (exists e, test_limit_reached test_mode_pages page = Raise e).
Proof.
  unfold test_limit_reached. destruct test_mode_pages as [s|]; [|by left; eauto].
  destruct (truthy (Some s)); [|by left; eauto].
  unfold int_of_string.
  destruct (_ ≫= _) as [chars|]; [|by right; eauto].
  destruct (match lstrip chars with [] => _ | _ => _ end) as [negative unsigned].
  destruct (digit_run false unsigned) as [[[|d digits] rest]|]; [by right; eauto| |by right; eauto].
  destruct (lstrip rest); [|by right; eauto].
  destruct (_ <? _)%nat; [by right; eauto|by left; eauto].
Qed.

Lemma rate_limited_at_before t srv n r :
  (n < t)%nat -> rate_limited_at t srv n r = srv n r.
Proof.
  intros H. unfold rate_limited_at. by destruct (Nat.ltb_spec n t); [|lia].
Qed.

Lemma rate_limited_at_here t srv r : rate_limited_at t srv t r = Http 429 NotJson.
Proof.
  unfold rate_limited_at. destruct (Nat.ltb_spec t t); [lia|].
  by rewrite Nat.eqb_refl.
Qed.

Lemma rate_limited_at_after t srv n r :
  (t <= n)%nat -> rate_limited_at t srv (S n) r = srv n r.
Proof.
  intros H. unfold rate_limited_at. destruct (Nat.ltb_spec (S n) t); [lia|].
  by destruct (Nat.eqb_spec (S n) t); [lia|].
Qed.

(** Past the inserted response the two runs proceed in lock step. *)
Lemma fetch_loop_shift t srv fuel : forall page total_pages acc n,
  (t <= n)%nat ->
  loop fuel page total_pages acc (rate_limited_at t srv) (S n)
    = one_more_call (loop fuel page total_pages acc srv n).
Proof.
  induction fuel as [|fuel IH]; intros page total_pages acc n Hn; [reflexivity|].
  rewrite !fetch_loop_unfold, rate_limited_at_after by done.
  destruct (test_limit_reached test_mode_pages page) as [[|]|e|]; [done| |done..].
  destruct (handled (srv n (query page)) total_pages acc) as [[| |tp acc']|e|];
    [|done| |done..]; by rewrite IH by lia.
Qed.

Lemma fetch_loop_first_call srv fuel page total_pages acc n :
  test_limit_reached test_mode_pages page = Ret false ->
  exists post,
    events (loop (S fuel) page total_pages acc srv n) = Call (query page) :: post.
Proof. intros Hl. rewrite fetch_loop_unfold, Hl. by eexists. Qed.

(** Answering call number [t] with a rate-limit response leaves the result
    of the run as it was and adds to its trace one 900 s sleep and one
    repetition of the request that was rate limited. *)
Lemma fetch_loop_insert_429 t srv fuel : forall page total_pages acc n,
  (n <= t)%nat ->
  (t < calls (loop fuel page total_pages acc srv n))%nat ->
  exists pre p post,
    events (loop fuel page total_pages acc srv n) = pre ++ Call (query p) :: post
    /\ length (requests_of pre) = (t - n)%nat
    /\ loop (S fuel) page total_pages acc (rate_limited_at t srv) n
       = Run (result (loop fuel page total_pages acc srv n))
           (pre ++ Call (query p) :: Sleep 900 :: Call (query p) :: post)
           (S (calls (loop fuel page total_pages acc srv n))).
Proof.
  induction fuel as [|fuel IH]; intros page total_pages acc n Hn Hcalls;
    [cbn in Hcalls; lia|].
  destruct (test_limit_reached test_mode_pages page) as [[|]|e|] eqn:Hl;
    [rewrite fetch_loop_unfold, Hl in Hcalls; cbn in Hcalls; lia|
    |rewrite fetch_loop_unfold, Hl in Hcalls; cbn in Hcalls; lia..].
  destruct (decide (n = t)) as [->|Hnt].
  { destruct (fetch_loop_first_call srv fuel page total_pages acc t Hl) as [post Hpost].
    exists [], page, post. split; [done|]. split; [cbn; lia|].
    rewrite (fetch_loop_unfold _ _ _ (S fuel)), Hl, rate_limited_at_here.
    rewrite (handled_http_error 429 NotJson) by done.
    rewrite fetch_loop_shift by done. unfold after, one_more_call.
    cbn [result events calls app pause Z.eqb Pos.eqb]. by rewrite Hpost. }
  rewrite (fetch_loop_unfold _ _ _ (S fuel)), Hl.
  rewrite rate_limited_at_before by lia.
  rewrite (fetch_loop_unfold _ _ _ fuel), Hl in Hcalls |- *.
  assert (Hgo : forall sl page' tp' acc',
    requests_of sl = [] ->
    (t < calls (after (Call (query page) :: sl)
                  (loop fuel page' tp' acc' srv (S n))))%nat ->
    exists pre p post,
      events (after (Call (query page) :: sl) (loop fuel page' tp' acc' srv (S n)))
        = pre ++ Call (query p) :: post
      /\ length (requests_of pre) = (t - n)%nat
      /\ after (Call (query page) :: sl)
           (loop (S fuel) page' tp' acc' (rate_limited_at t srv) (S n))
         = Run (result (after (Call (query page) :: sl)
                          (loop fuel page' tp' acc' srv (S n))))
             (pre ++ Call (query p) :: Sleep 900 :: Call (query p) :: post)
             (S (calls (after (Call (query page) :: sl)
                          (loop fuel page' tp' acc' srv (S n)))))).
  { intros sl page' tp' acc' Hsl Ht.
    destruct (IH page' tp' acc' (S n) ltac:(lia) Ht)
      as (pre & p & post & Hev & Hlen & ->).
    exists (Call (query page) :: sl ++ pre), p, post.
    unfold after. cbn [result events calls]. rewrite Hev.
    cbn [app].
    split; [by rewrite app_assoc|]. split; [|by rewrite app_assoc].
    rewrite requests_of_call, requests_of_app, Hsl. cbn [length app].
    rewrite Hlen. lia. }
  destruct (handled (srv n (query page)) total_pages acc) as [[| |tp acc']|e|];
    [by apply Hgo|cbn in Hcalls; lia|by apply Hgo|cbn in Hcalls; lia..].
Qed.

(** A request answered with an HTTP error other than 429 is the last one
    of the run, and the run ends by raising. *)
Lemma fetch_loop_fatal srv fuel : forall page total_pages acc n k q status b,
  requests_of (events (loop fuel page total_pages acc srv n)) !! k = Some q ->
  srv (n + k)%nat q = Http status b ->
  is_http_error status = true -> status <> 429 ->
  result (loop fuel page total_pages acc srv n)
    = Raise (Wrapped "HTTP Error on page" (HTTPError status))
  /\ calls (loop fuel page total_pages acc srv n) = S (n + k).
Proof.
  induction fuel as [|fuel IH];
    intros page total_pages acc n k q status b Hk Hq Herr H429; [done|].
  rewrite fetch_loop_unfold in Hk |- *.
  destruct (test_limit_reached test_mode_pages page) as [[|]|e|]; [done| |done..].
  rewrite events_after, <- app_comm_cons, requests_of_call in Hk.
  rewrite result_after.
  change (calls (after ?ev ?r)) with (calls r).
  destruct k as [|k].
  { injection Hk as <-. rewrite Nat.add_0_r in Hq |- *. rewrite Hq.
    rewrite handled_http_error by done.
    by destruct (Z.eqb_spec status 429). }
  cbn [lookup list_lookup] in Hk. rewrite requests_of_app in Hk.
  replace (n + S k)%nat with (S n + k)%nat in * by lia.
  assert (Hsl : requests_of (pause (handled (srv n (query page)) total_pages acc)) = []).
  { by destruct (handled _ _ _) as [[| |]| |]. }
  rewrite Hsl in Hk. cbn [app] in Hk.
  destruct (handled (srv n (query page)) total_pages acc) as [[| |tp acc']|e|];
    [|done| |done..]; by apply (IH _ _ _ (S n) k q status b).
Qed.

End RateLimitFacts.

(** The scenario of the specification: page 3 is rate limited once. *)
Example fetch_429_on_page_3 :
  let env : gmap string string :=
    {[ "APOLLO_API_KEY"%string := "key"%string; "APOLLO_LIST_ID"%string := "list-1"%string ]} in
  let raw e := RawContact None None None (Some e) Absent None in
  let pages := [[raw "a@x.com"]; [raw "b@x.com"]; [raw "c@x.com"]; []]%string in
  let page k := Call (ApolloSearch "key" ["list-1"%string] 100 k) in
  let r := Apollo.fetch_all_contacts_from_list env 5
             (Apollo.rate_limited_at 2 (Apollo.paged_server pages)) 0%nat in
  (exists contacts, result r = Ret contacts
     /\ email <$> contacts = ["a@x.com"; "b@x.com"; "c@x.com"]%string)
  /\ events r = [page 1; Sleep 1; page 2; Sleep 1; page 3; Sleep 900;
                 page 3; Sleep 1; page 4].
Proof. cbv zeta. split; [eexists; split|]; vm_compute; reflexivity. Qed.

(** C7: answering any request of a run with HTTP 429 instead changes
    nothing in what the fetcher returns (no contact is added twice); the
    trace gains a 900 s sleep followed by a second request for the same
    page.  A request answered with any other 4xx/5xx status is the last one:
    the fetch raises. *)
Theorem fetch_rate_limit_and_fatal_errors env srv fuel :
  let r := Apollo.fetch_all_contacts_from_list env fuel srv 0%nat in
  (forall t, (t < calls r)%nat ->
     exists pre api_key list_id page post,
       let q := Call (ApolloSearch api_key [list_id] 100 page) in
       events r = pre ++ q :: post
       /\ length (requests_of pre) = t
       /\ Apollo.fetch_all_contacts_from_list env (S fuel)
            (Apollo.rate_limited_at t srv) 0%nat
          = Run (result r) (pre ++ q :: Sleep 900 :: q :: post) (S (calls r)))
  /\ (forall k q status b,
        requests_of (events r) !! k = Some q ->
        srv k q = Http status b ->
        is_http_error status = true -> status <> 429 ->
        result r = Raise (Wrapped "HTTP Error on page" (HTTPError status))
        /\ calls r = S k).
Proof.
  unfold Apollo.fetch_all_contacts_from_list.
  destruct (negb (truthy (getenv env "APOLLO_API_KEY")) || _).
  { cbn. split; [intros; lia|done]. }
  destruct (Apollo.contains _ _).
  { cbn. split; [intros; lia|done]. }
  set (api_key := default ""%string (getenv env "APOLLO_API_KEY")).
  set (list_id := default ""%string (getenv env "APOLLO_LIST_ID")).
  split.
  - intros t Ht.
    destruct (fetch_loop_insert_429 api_key list_id _ t srv fuel 1 None [] 0%nat
                ltac:(lia) Ht) as (pre & p & post & Hev & Hlen & Hrun).
    exists pre, api_key, list_id, p, post. cbv zeta.
    split; [done|]. split; [lia|done].
  - intros k q status b Hk Hq Herr H429.
    by apply (fetch_loop_fatal api_key list_id _ srv fuel 1 None [] 0%nat k q status b).
Qed.

Lemma fetch_rate_limit_and_fatal_errors_witness :
  let env : gmap string string :=
    {[ "APOLLO_API_KEY"%string := "key"%string; "APOLLO_LIST_ID"%string := "list-1"%string ]} in
  let raw e := RawContact None None None (Some e) Absent None in
  let srv := Apollo.paged_server [[raw "a@x.com"]; [raw "b@x.com"]; [raw "c@x.com"]; []]%string in
  let failing : server := fun n r => if (n =? 1)%nat then Http 500 NotJson else srv n r in
  let r := Apollo.fetch_all_contacts_from_list env 4 srv 0%nat in
  (exists pre api_key list_id page post,
     let q := Call (ApolloSearch api_key [list_id] 100 page) in
     events r = pre ++ q :: post
     /\ length (requests_of pre) = 2%nat
     /\ Apollo.fetch_all_contacts_from_list env 5 (Apollo.rate_limited_at 2 srv) 0%nat
        = Run (result r) (pre ++ q :: Sleep 900 :: q :: post) (S (calls r)))
  /\ (result (Apollo.fetch_all_contacts_from_list env 4 failing 0%nat)
        = Raise (Wrapped "HTTP Error on page" (HTTPError 500))
      /\ calls (Apollo.fetch_all_contacts_from_list env 4 failing 0%nat) = 2%nat).
Proof.
  intros env raw srv failing r. split.
  - apply (proj1 (fetch_rate_limit_and_fatal_errors env srv 4) 2%nat).
    vm_compute. lia.
  - apply (proj2 (fetch_rate_limit_and_fatal_errors env failing 4) 1%nat
             (ApolloSearch "key" ["list-1"%string] 100 2) 500 NotJson).
    + reflexivity.
    + reflexivity.
    + reflexivity.
    + discriminate.
Defined.

(** ** reoon.py: the verification batcher *)

Section VerifyFacts.
Import Reoon.

Local Notation "'ok'" := (fun ev : string * verification =>
  is_safe_to_send ev.2 && is_deliverable ev.2).
Local Notation "'rejected'" := (fun ev : string * verification =>
  negb (is_safe_to_send ev.2 && is_deliverable ev.2)).

Lemma contact_map_foldl_Some contacts : forall (m : gmap string contact) e c,
  foldl (fun m c => <[email c := c]> m) m contacts !! e = Some c ->
  m !! e = Some c \/ (email c = e /\ c ∈ contacts).
Proof.
  induction contacts as [|c0 contacts IH]; intros m e c H; cbn in H; [by left|].
  apply IH in H as [H|[H1 H2]].
  - destruct (decide (email c0 = e)) as [<-|Hne].
    + rewrite lookup_insert_eq in H. injection H as <-. right. split; [done|]. by left.
    + rewrite lookup_insert_ne in H by done. by left.
  - right. split; [done|]. by right.
Qed.

Lemma contact_map_foldl_None contacts : forall (m : gmap string contact) e,
  foldl (fun m c => <[email c := c]> m) m contacts !! e = None <->
  m !! e = None /\ e ∉ email <$> contacts.
Proof.
  induction contacts as [|c0 contacts IH]; intros m e; cbn.
  - split; [intros H; split; [done|]; apply not_elem_of_nil|by intros [H _]].
  - rewrite IH, not_elem_of_cons. destruct (decide (email c0 = e)) as [<-|Hne].
    + rewrite lookup_insert_eq. intuition congruence.
    + rewrite lookup_insert_ne by done. intuition congruence.
Qed.

(** A look-up that succeeds yields a submitted contact with that e-mail. *)
Lemma contact_map_Some contacts e c :
  contact_map contacts !! e = Some c -> email c = e /\ c ∈ contacts.
Proof.
  intros H. apply contact_map_foldl_Some in H as [H|H]; [|done].
  by rewrite lookup_empty in H.
Qed.

Lemma contact_map_None contacts e :
  contact_map contacts !! e = None <-> e ∉ email <$> contacts.
Proof.
  unfold contact_map. rewrite contact_map_foldl_None, lookup_empty. intuition.
Qed.

(** The loop over one task's results: it stops with [KeyError] at the
    first unknown key; otherwise the entries with both flags set add their
    contact to the valid list and all others add an entry to the invalid
    list, in order. *)
Lemma process_results_cases cmap results : forall valid invalid,
  match process_results cmap results valid invalid with
  | Ret (valid', invalid') =>
      Forall (fun ev => is_Some (cmap !! ev.1)) results
      /\ (exists vs, valid' = valid ++ vs
            /\ Some <$> vs = (fun ev => cmap !! ev.1) <$> List.filter ok results)
      /\ invalid' = invalid ++
           ((fun ev => invalid_entry ev.1 ev.2) <$> List.filter rejected results)
  | Raise e => exists k, e = KeyError k /\ cmap !! k = None /\ k ∈ results.*1
  | OutOfFuel => False
  end.
Proof.
  induction results as [|[e v] results IH]; intros valid invalid; cbn.
  - split; [done|]. split; [exists []|]; by rewrite app_nil_r.
  - destruct (cmap !! e) as [c|] eqn:Hc.
    2:{ exists e. split; [done|]. split; [done|]. by left. }
    destruct (is_safe_to_send v && is_deliverable v) eqn:Hv.
    + specialize (IH (valid ++ [c]) invalid).
      destruct (process_results _ _ _ _) as [[valid' invalid']|err|]; [| |done].
      * destruct IH as (Hall & (vs & -> & Hvs) & ->). split; [|split].
        -- constructor; [cbn; by rewrite Hc|done].
        -- exists (c :: vs). rewrite <- app_assoc. split; [done|].
           cbn. by rewrite Hc, Hvs.
        -- done.
      * destruct IH as (k & -> & Hk & Hin). exists k. split; [done|].
        split; [done|]. by right.
    + specialize (IH valid (invalid ++ [invalid_entry e v])).
      destruct (process_results _ _ _ _) as [[valid' invalid']|err|]; [| |done].
      * destruct IH as (Hall & (vs & -> & Hvs) & ->). split; [|split].
        -- constructor; [cbn; by rewrite Hc|done].
        -- by exists vs.
        -- by rewrite <- app_assoc.
      * destruct IH as (k & -> & Hk & Hin). exists k. split; [done|].
        split; [done|]. by right.
Qed.

Lemma poll_counts tries key tid : counts_calls (poll tries key tid).
Proof.
  induction tries as [|tries IH]; cbn [poll]; [apply counts_calls_raise|].
  apply counts_calls_bind; [apply counts_calls_sleep|]. intros _.
  apply counts_calls_bind; [apply counts_calls_call|]. intros [|status b].
  { apply counts_calls_raise. }
  destruct (is_http_error status); [apply counts_calls_raise|].
  destruct b; try apply counts_calls_raise;
    (destruct (completed _); [apply counts_calls_ret|apply IH]).
Qed.

(** One poll: a 10 s sleep, then the request. *)
Lemma poll_unfold tries key tid srv n :
  poll (S tries) key tid srv n
    = after [Sleep 10; Call (ReoonGetResult key tid)]
        (match srv n (ReoonGetResult key tid) with
         | NoResponse => Run (Raise ConnectionError) [] (S n)
         | Http status b =>
             if is_http_error status then Run (Raise (HTTPError status)) [] (S n)
             else match b with
                  | NotJson => Run (Raise JSONDecodeError) [] (S n)
                  | _ => if completed b then Run (Ret b) [] (S n)
                         else poll tries key tid srv (S n)
                  end
         end).
Proof.
  cbn [poll]. unfold bind, sleep, call, after. cbn.
  destruct (srv n (ReoonGetResult key tid)) as [|status b]; [done|].
  destruct (is_http_error status); [done|].
  destruct b; try done;
    (destruct (completed _); [done|];
     by destruct (poll tries key tid srv (S n)) as [[?| |] ? ?]).
Qed.

(** The polls of one task: at most [tries] of them, 10 s apart. *)
Lemma poll_trace tries key tid srv : forall n,
  exists k, (k <= tries)%nat
    /\ events (poll tries key tid srv n)
       = concat (replicate k [Sleep 10; Call (ReoonGetResult key tid)])
    /\ calls (poll tries key tid srv n) = (n + k)%nat.
Proof.
  induction tries as [|tries IH]; intros n.
  { exists 0%nat. cbn. split; [lia|]. split; [done|lia]. }
  rewrite poll_unfold.
  assert (Hone : forall o : outcome body,
    exists k, (k <= S tries)%nat
      /\ events (after [Sleep 10; Call (ReoonGetResult key tid)] (Run o [] (S n)))
         = concat (replicate k [Sleep 10; Call (ReoonGetResult key tid)])
      /\ calls (after [Sleep 10; Call (ReoonGetResult key tid)] (Run o [] (S n)))
         = (n + k)%nat).
  { intros o. exists 1%nat. cbn. split; [lia|]. split; [done|lia]. }
  destruct (srv n (ReoonGetResult key tid)) as [|status b]; [apply Hone|].
  destruct (is_http_error status); [apply Hone|].
  destruct b; try apply Hone;
    (destruct (completed _); [apply Hone|];
     destruct (IH (S n)) as (k & Hk & Hev & Hcalls);
     exists (S k); unfold after; cbn [events calls];
     rewrite Hev, Hcalls; split; [lia|]; split; [done|lia]).
Qed.

(** A task that is still pending after every attempt is a timeout. *)
Lemma poll_pending tries key tid srv : forall n,
  (forall k, (k < tries)%nat -> exists status b,
     srv (n + k)%nat (ReoonGetResult key tid) = Http status b
     /\ is_http_error status = false /\ b <> NotJson /\ completed b = false) ->
  poll tries key tid srv n
    = Run (Raise poll_timeout)
        (concat (replicate tries [Sleep 10; Call (ReoonGetResult key tid)]))
        (n + tries)%nat.
Proof.
  induction tries as [|tries IH]; intros n Hpending.
  { cbn. f_equal. lia. }
  rewrite poll_unfold.
  destruct (Hpending 0%nat ltac:(lia)) as (status & b & Hr & He & Hb & Hc).
  rewrite Nat.add_0_r in Hr. rewrite Hr, He, Hc.
  rewrite IH.
  - destruct b; try done; unfold after; cbn; f_equal; lia.
  - intros k Hk. replace (S n + k)%nat with (n + S k)%nat by lia.
    apply Hpending. lia.
Qed.

(** What a poll loop leaves behind: the result set of a completed task, or
    an exception (never a [KeyError]) and no result set. *)
Lemma poll_outcome tries key tid srv : forall n,
  match result (poll tries key tid srv n) with
  | Ret b =>
      completed b = true
      /\ task_results srv n (events (poll tries key tid srv n)) = results_of b
  | Raise e =>
      task_results srv n (events (poll tries key tid srv n)) = []
      /\ forall k, e <> KeyError k
  | OutOfFuel => False
  end.
Proof.
  induction tries as [|tries IH]; intros n; [done|].
  rewrite poll_unfold. unfold after. cbn [result events app task_results].
  destruct (srv n (ReoonGetResult key tid)) as [|status b] eqn:Hr; [done|].
  destruct (is_http_error status) eqn:He; [done|]. cbn [negb andb].
  destruct b; try done;
    (destruct (completed _) eqn:Hc;
     [cbn [result events task_results]; split; [done|apply app_nil_r]
     |cbn [app]; exact (IH (S n))]).
Qed.

Lemma task_results_app srv ev1 : forall n ev2,
  task_results srv n (ev1 ++ ev2)
    = task_results srv n ev1
      ++ task_results srv (n + length (requests_of ev1))%nat ev2.
Proof.
  induction ev1 as [|[q|s] ev1 IH]; intros n ev2; cbn [app task_results].
  - by rewrite Nat.add_0_r.
  - rewrite IH, requests_of_call, <- app_assoc. cbn [length].
    by replace (S n + length (requests_of ev1))%nat
         with (n + S (length (requests_of ev1)))%nat by lia.
  - by rewrite IH, requests_of_sleep.
Qed.

Lemma task_results_batch srv n key batch ev1 ev2 :
  task_results srv n (([Call (ReoonCreateTask key batch)] ++ ev1) ++ ev2)
    = task_results srv (S n) ev1
      ++ task_results srv (S n + length (requests_of ev1))%nat ev2.
Proof.
  change (([Call (ReoonCreateTask key batch)] ++ ev1) ++ ev2)
    with (Call (ReoonCreateTask key batch) :: (ev1 ++ ev2)).
  change (task_results srv n (Call (ReoonCreateTask key batch) :: (ev1 ++ ev2)))
    with (task_results srv (S n) (ev1 ++ ev2)).
  apply task_results_app.
Qed.

Lemma verify_batches_counts key cmap batches :
  forall valid invalid, counts_calls (verify_batches key cmap batches valid invalid).
Proof.
  induction batches as [|batch rest IH]; intros valid invalid; cbn [verify_batches].
  { apply counts_calls_ret. }
  apply counts_calls_bind; [apply counts_calls_call|]. intros [|status b].
  { apply counts_calls_raise. }
  destruct (is_http_error status); [apply counts_calls_raise|].
  assert (Hgo : counts_calls
    (if negb (truthy (task_id_of b)) then
       raise (Exception "No task ID returned from Reoon API")
     else
       let* results_data := poll max_tries key (default ""%string (task_id_of b)) in
       let* (valid_contacts, invalid_contacts) :=
         lift (process_results cmap (results_of results_data) valid invalid) in
       let* _ := sleep 2 in
       verify_batches key cmap rest valid_contacts invalid_contacts)).
  { destruct (negb _); [apply counts_calls_raise|].
    apply counts_calls_bind; [apply poll_counts|]. intros rd.
    apply counts_calls_bind; [apply counts_calls_lift|]. intros [v i].
    apply counts_calls_bind; [apply counts_calls_sleep|]. intros _. apply IH. }
  destruct b; (apply counts_calls_raise || exact Hgo).
Qed.

(** The iteration for one batch, once the task has been created. *)
Lemma verify_batches_created key cmap batch rest valid invalid srv n status b tid :
  srv n (ReoonCreateTask key batch) = Http status b ->
  is_http_error status = false -> b <> NotJson ->
  task_id_of b = Some tid -> tid <> ""%string ->
  verify_batches key cmap (batch :: rest) valid invalid srv n
    = after [Call (ReoonCreateTask key batch)]
        ((let* results_data := poll max_tries key tid in
          let* (valid_contacts, invalid_contacts) :=
            lift (process_results cmap (results_of results_data) valid invalid) in
          let* _ := sleep 2 in
          verify_batches key cmap rest valid_contacts invalid_contacts) srv (S n)).
Proof.
  intros Hr He Hb Hid Hne. cbn [verify_batches]. rewrite bind_call, Hr, He, Hid.
  cbn [truthy default]. destruct (String.eqb_spec tid ""); [done|].
  by destruct b.
Qed.

(** The ways in which creating the task fails. *)
Lemma verify_batches_not_created key cmap batch rest valid invalid srv n :
  (forall status b tid,
     srv n (ReoonCreateTask key batch) = Http status b ->
     is_http_error status = false -> b <> NotJson ->
     task_id_of b = Some tid -> tid = ""%string) ->
  exists e,
    verify_batches key cmap (batch :: rest) valid invalid srv n
      = Run (Raise e) [Call (ReoonCreateTask key batch)] (S n)
    /\ forall k, e <> KeyError k.
Proof.
  intros Hbad. cbn [verify_batches]. rewrite bind_call.
  destruct (srv n (ReoonCreateTask key batch)) as [|status b]; [eexists; split; [reflexivity|done]|].
  destruct (is_http_error status) eqn:He; [eexists; split; [reflexivity|done]|].
  destruct (body_json_cases b) as [->|Hb]; [eexists; split; [reflexivity|done]|].
  destruct (task_id_of b) as [tid|] eqn:Hid.
  - rewrite (Hbad status b tid eq_refl He Hb Hid). cbn.
    destruct b; (eexists; split; [reflexivity|done]).
  - cbn. destruct b; (eexists; split; [reflexivity|done]).
Qed.

Lemma create_cases (srv : server) n q :
  (exists status b tid,
     srv n q = Http status b /\ is_http_error status = false /\ b <> NotJson
     /\ task_id_of b = Some tid /\ tid <> ""%string)
  \/ (forall status b tid,
        srv n q = Http status b -> is_http_error status = false -> b <> NotJson ->
        task_id_of b = Some tid -> tid = ""%string).
Proof.
  destruct (srv n q) as [|status b]; [by right|].
  destruct (is_http_error status) eqn:He.
  { right. intros ??? [= <- <-]. congruence. }
  destruct (body_json_cases b) as [->|Hb].
  { right. by intros ??? [= <- <-]. }
  destruct (task_id_of b) as [tid|] eqn:Hid.
  - destruct (decide (tid = ""%string)) as [->|Hne].
    + right. intros ??? [= <- <-]. congruence.
    + left. by exists status, b, tid.
  - right. intros ??? [= <- <-]. congruence.
Qed.

(** The loop over the batches, in terms of the result sets returned by the
    completed tasks of the run. *)
Lemma verify_batches_outcome key cmap srv batches : forall valid invalid n,
  let r := verify_batches key cmap batches valid invalid srv n in
  let returned := task_results srv n (events r) in
  match result r with
  | Ret (valid', invalid') =>
      Forall (fun ev => is_Some (cmap !! ev.1)) returned
      /\ (exists vs, valid' = valid ++ vs
            /\ Some <$> vs = (fun ev => cmap !! ev.1) <$> List.filter ok returned)
      /\ invalid' = invalid ++
           ((fun ev => invalid_entry ev.1 ev.2) <$> List.filter rejected returned)
  | Raise e =>
      (Forall (fun ev => is_Some (cmap !! ev.1)) returned
       /\ forall k, e <> KeyError k)
      \/ exists k, e = KeyError k /\ cmap !! k = None
  | OutOfFuel => False
  end.
Proof.
  induction batches as [|batch rest IH]; intros valid invalid n; cbv zeta.
  { cbn. split; [constructor|]. split; [exists []|]; by rewrite app_nil_r. }
  destruct (create_cases srv n (ReoonCreateTask key batch))
    as [(status & b & tid & Hr & He & Hb & Hid & Hne)|Hbad].
  2:{ destruct (verify_batches_not_created key cmap batch rest valid invalid srv n Hbad)
        as (e & -> & Hk).
      cbn. left. split; [constructor|done]. }
  rewrite (verify_batches_created key cmap batch rest valid invalid srv n status b tid)
    by done.
  pose proof (poll_outcome max_tries key tid srv (S n)) as Hpoll.
  pose proof (poll_counts max_tries key tid srv (S n)) as Hcount.
  remember (poll max_tries key tid srv (S n)) as rp eqn:Hrp.
  destruct (result rp) as [rd|e|] eqn:Hres; [| |done].
  { destruct Hpoll as [_ Htr].
    rewrite (bind_ret_run (poll max_tries key tid) _ srv (S n) rd)
      by (rewrite <- Hrp; exact Hres).
    rewrite <- Hrp.
    pose proof (process_results_cases cmap (results_of rd) valid invalid) as Hproc.
    destruct (process_results cmap (results_of rd) valid invalid)
      as [[v1 i1]|e|]; [| |done].
    { rewrite bind_lift_ret, bind_sleep, !after_after.
      specialize (IH v1 i1 (calls rp)). cbv zeta in IH.
      remember (verify_batches key cmap rest v1 i1 srv (calls rp)) as r2 eqn:Hr2.
      assert (Hret : task_results srv n
                (events (after (([Call (ReoonCreateTask key batch)] ++ events rp)
                                ++ [Sleep 2]) r2))
              = results_of rd ++ task_results srv (calls rp) (events r2)).
      { rewrite events_after, <- app_assoc, task_results_batch, Htr, <- Hcount.
        reflexivity. }
      rewrite Hret, result_after.
      destruct Hproc as (Hall1 & (vs1 & -> & Hvs1) & ->).
      destruct (result r2) as [[v2 i2]|e|]; [| |done].
      { destruct IH as (Hall2 & (vs2 & -> & Hvs2) & ->). split; [|split].
        { by apply Forall_app. }
        { exists (vs1 ++ vs2). rewrite <- app_assoc. split; [done|].
          rewrite List.filter_app, (fmap_app Some), (fmap_app (fun ev => cmap !! ev.1)).
          by rewrite Hvs1, Hvs2. }
        rewrite List.filter_app, (fmap_app (fun ev => invalid_entry ev.1 ev.2)).
        by rewrite <- app_assoc. }
      destruct IH as [[Hall2 Hk]|Hkey]; [left|by right].
      split; [by apply Forall_app|done]. }
    rewrite bind_lift_raise, !result_after. cbn [result].
    destruct Hproc as (k & -> & Hk & _). right. by exists k. }
  destruct Hpoll as [Htr Hk].
  rewrite (bind_raise_run (poll max_tries key tid) _ srv (S n) e)
    by (rewrite <- Hrp; exact Hres).
  rewrite <- Hrp, result_after, events_after.
  cbn [result events].
  rewrite <- (app_nil_r ([Call (ReoonCreateTask key batch)] ++ events rp)).
  rewrite task_results_batch, Htr.
  left. split; [|done]. constructor.
Qed.

Lemma after_nil {A} (r : run A) : after [] r = r.
Proof. by destruct r. Qed.

Lemma after_eq_run {A} ev0 (r : run A) o ev n :
  after ev0 r = Run o ev n -> result r = o /\ ev0 ++ events r = ev /\ calls r = n.
Proof. unfold after. by intros [= -> -> ->]. Qed.

(** Batches that went through can be split off the front of the loop. *)
Lemma verify_batches_app key cmap srv bs1 : forall bs2 valid invalid n v1 i1 ev n1,
  verify_batches key cmap bs1 valid invalid srv n = Run (Ret (v1, i1)) ev n1 ->
  verify_batches key cmap (bs1 ++ bs2) valid invalid srv n
    = after ev (verify_batches key cmap bs2 v1 i1 srv n1).
Proof.
  induction bs1 as [|batch bs1 IH]; intros bs2 valid invalid n v1 i1 ev n1 H.
  { cbn in H. injection H as <- <- <- <-. by rewrite after_nil. }
  destruct (create_cases srv n (ReoonCreateTask key batch))
    as [(status & b & tid & Hr & He & Hb & Hid & Hne)|Hbad].
  2:{ destruct (verify_batches_not_created key cmap batch bs1 valid invalid srv n Hbad)
        as (e & He & _).
      rewrite He in H. discriminate. }
  change ((batch :: bs1) ++ bs2) with (batch :: (bs1 ++ bs2)).
  rewrite (verify_batches_created key cmap batch bs1 valid invalid srv n status b tid)
    in H by done.
  rewrite (verify_batches_created key cmap batch (bs1 ++ bs2) valid invalid srv n
             status b tid) by done.
  pose proof (poll_outcome max_tries key tid srv (S n)) as Hpoll.
  remember (poll max_tries key tid srv (S n)) as rp eqn:Hrp.
  destruct (result rp) as [rd|e|] eqn:Hres; [| |done].
  2:{ rewrite (bind_raise_run (poll max_tries key tid) _ srv (S n) e)
        in H by (rewrite <- Hrp; exact Hres).
      apply after_eq_run in H as (H & _). discriminate. }
  rewrite (bind_ret_run (poll max_tries key tid) _ srv (S n) rd)
    in H by (rewrite <- Hrp; exact Hres).
  rewrite (bind_ret_run (poll max_tries key tid) _ srv (S n) rd)
    by (rewrite <- Hrp; exact Hres).
  rewrite <- Hrp in H |- *.
  destruct (process_results cmap (results_of rd) valid invalid) as [[v i]|e|].
  { rewrite bind_lift_ret, bind_sleep in H. rewrite bind_lift_ret, bind_sleep.
    remember (verify_batches key cmap bs1 v i srv (calls rp)) as r2 eqn:Hr2.
    rewrite !after_after in H. apply after_eq_run in H as (Hres2 & Hev & Hn1).
    rewrite (IH bs2 v i (calls rp) v1 i1 (events r2) n1).
    { rewrite !after_after. by rewrite <- Hev. }
    rewrite <- Hr2, <- Hres2, <- Hn1. by rewrite run_eta. }
  { rewrite bind_lift_raise in H. apply after_eq_run in H as (H & _).
    rewrite result_after in H. discriminate. }
  unfold lift, bind in H. apply after_eq_run in H as (H & _).
  rewrite result_after in H. discriminate.
Qed.

Lemma batches_100 {A} (l : list A) :
  batches 100 l = Ret (chunks_fuel (length l) 100 l).
Proof. reflexivity. Qed.

(** [verify_emails] around its loop: the two [except] clauses and the
    final division. *)
Lemma verify_emails_run env api_key contacts srv n :
  getenv env "REOON_API_KEY" = Some api_key -> api_key <> ""%string ->
  let rb := verify_batches api_key (contact_map contacts)
              (chunks_fuel (length (email <$> contacts)) 100 (email <$> contacts))
              [] [] srv n in
  verify_emails env contacts srv n
    = Run (match result rb with
           | Ret vi =>
               if (length contacts =? 0)%nat then Raise ZeroDivisionError else Ret vi
           | Raise e => Raise (reraise e)
           | OutOfFuel => OutOfFuel
           end) (events rb) (calls rb).
Proof.
  intros Hkey Hne rb. unfold verify_emails. rewrite Hkey. cbn [truthy default].
  destruct (String.eqb_spec api_key ""); [done|]. cbn [negb].
  cbv zeta. rewrite batches_100. unfold bind at 1. unfold try_except.
  rewrite (bind_lift_ret (chunks_fuel _ _ _)).
  change (Datatypes.id api_key) with api_key. fold rb.
  destruct rb as [[[v i]|e|] ev nb]; cbn.
  - destruct (length contacts =? 0)%nat; cbn; by rewrite app_nil_r.
  - by rewrite app_nil_r.
  - done.
Qed.

Lemma verify_emails_no_key env contacts srv n :
  truthy (getenv env "REOON_API_KEY") = false ->
  verify_emails env contacts srv n
    = Run (Raise (ValueError "Missing REOON_API_KEY in environment variables")) [] n.
Proof. intros H. unfold verify_emails. by rewrite H. Qed.

Lemma api_key_cases env name :
  truthy (getenv env name) = false
  \/ exists key, getenv env name = Some key /\ key <> ""%string.
Proof.
  destruct (getenv env name) as [key|]; [|by left]. cbn.
  destruct (String.eqb_spec key ""); [by left|right; eauto].
Qed.

End VerifyFacts.

Lemma filter_partition_length {A} (f : A -> bool) (l : list A) :
  (length (List.filter f l) + length (List.filter (fun x => negb (f x)) l))%nat
    = length l.
Proof.
  induction l as [|x l IH]; [done|]. cbn. destruct (f x); cbn; lia.
Qed.

Lemma NoDup_fst_unique {A B} (l : list (A * B)) a b1 b2 :
  NoDup l.*1 -> (a, b1) ∈ l -> (a, b2) ∈ l -> b1 = b2.
Proof.
  induction l as [|[a0 b0] l IH]; intros Hnd H1 H2.
  { by apply elem_of_nil in H1. }
  cbn in Hnd. apply NoDup_cons in Hnd as [Hnotin Hnd].
  apply elem_of_cons in H1 as [H1|H1]; apply elem_of_cons in H2 as [H2|H2].
  - congruence.
  - injection H1 as -> ->. exfalso. apply Hnotin, list_elem_of_fmap.
    by exists (a0, b2).
  - injection H2 as -> ->. exfalso. apply Hnotin, list_elem_of_fmap.
    by exists (a0, b1).
  - by apply IH.
Qed.

Lemma elem_of_filter_fst {A B} (f : A * B -> bool) (l : list (A * B)) a :
  a ∈ (List.filter f l).*1 <-> exists b, (a, b) ∈ l /\ f (a, b) = true.
Proof.
  rewrite list_elem_of_fmap. split.
  - intros ([a0 b] & -> & Hin). apply list_elem_of_In, List.filter_In in Hin as [Hin Hf].
    exists b. split; [by apply list_elem_of_In|done].
  - intros (b & Hin & Hf). exists (a, b). split; [done|].
    apply list_elem_of_In, List.filter_In. split; [by apply list_elem_of_In|done].
Qed.

Lemma lookups_emails contacts (l : list (string * verification)) : forall vs,
  Some <$> vs = (fun ev => Reoon.contact_map contacts !! ev.1) <$> l ->
  email <$> vs = l.*1.
Proof.
  induction l as [|[e v] l IH]; intros [|c vs] H; try done.
  cbn in H. injection H as Hc Hrest. cbn. f_equal; [|by apply IH].
  symmetry in Hc. by apply contact_map_Some in Hc as [Hc _].
Qed.

(** C4: when the verification returns, the entries of the completed
    tasks' result sets with both flags set are exactly the valid contacts
    (the submitted contacts with those e-mails, in order); every other
    entry is recorded as invalid with its reason (the task's status, or
    "unknown") and a details string carrying the score.  The two lists
    together account for every returned entry, and where the returned keys
    are distinct an e-mail is in exactly one of them. *)
Theorem verify_emails_partition env contacts srv valid invalid :
  let r := Reoon.verify_emails env contacts srv 0%nat in
  result r = Ret (valid, invalid) ->
  let returned := Reoon.task_results srv 0%nat (events r) in
  let both_flags := fun ev : string * verification =>
    is_safe_to_send ev.2 && is_deliverable ev.2 in
  Some <$> valid
    = (fun ev => Reoon.contact_map contacts !! ev.1) <$> List.filter both_flags returned
  /\ email <$> valid = (List.filter both_flags returned).*1
  /\ invalid
     = (fun ev =>
          {| Reoon.inv_email := ev.1;
             Reoon.reason := default "unknown"%string (v_status ev.2);
             Reoon.details :=
               "Score: " +:+ Reoon.show_score (overall_score ev.2)
               +:+ ", Status: " +:+ default "unknown"%string (v_status ev.2) |})
       <$> List.filter (fun ev => negb (both_flags ev)) returned
  /\ (length valid + length invalid)%nat = length returned
  /\ (NoDup returned.*1 -> forall e v, (e, v) ∈ returned ->
        (both_flags (e, v) = true <-> e ∈ email <$> valid)
        /\ (both_flags (e, v) = false <-> e ∈ Reoon.inv_email <$> invalid)).
Proof.
  intros r Hret returned both_flags.
  destruct (api_key_cases env "REOON_API_KEY") as [Hno|(key & Hkey & Hne)].
  { subst r. rewrite verify_emails_no_key in Hret by done. discriminate. }
  pose proof (verify_emails_run env key contacts srv 0%nat Hkey Hne) as Hrun.
  cbv zeta in Hrun.
  pose proof (verify_batches_outcome key (Reoon.contact_map contacts) srv
                (chunks_fuel (length (email <$> contacts)) 100 (email <$> contacts))
                [] [] 0%nat) as Hout.
  cbv zeta in Hout.
  remember (Reoon.verify_batches key (Reoon.contact_map contacts)
              (chunks_fuel (length (email <$> contacts)) 100 (email <$> contacts))
              [] [] srv 0%nat) as rb eqn:Hrb.
  assert (Hev : returned = Reoon.task_results srv 0%nat (events rb))
    by (subst returned r; by rewrite Hrun).
  assert (Hres : result rb = Ret (valid, invalid)).
  { subst r. rewrite Hrun in Hret. cbn [result] in Hret.
    destruct (result rb) as [vi|e|]; [|done..].
    by destruct (length contacts =? 0)%nat. }
  rewrite Hres, <- Hev in Hout. clearbody returned. clear Hev Hrun Hret r.
  destruct Hout as (_ & (vs & Hv & Hvs) & Hi). cbn [app] in Hv, Hi. subst vs.
  assert (Hmail : email <$> valid = (List.filter both_flags returned).*1)
    by (by apply (lookups_emails contacts)).
  assert (Hinv : Reoon.inv_email <$> invalid
                 = (List.filter (fun ev => negb (both_flags ev)) returned).*1).
  { rewrite Hi, <- list_fmap_compose. done. }
  split; [done|]. split; [done|]. split; [done|]. split.
  { rewrite <- (filter_partition_length both_flags returned).
    rewrite <- (length_fmap email valid), Hmail, length_fmap.
    by rewrite Hi, length_fmap. }
  intros Hnd e v Hin. rewrite Hmail, Hinv, !elem_of_filter_fst. split.
  - split; [intros Hf; by exists v|].
    intros (v' & Hin' & Hf). by rewrite (NoDup_fst_unique returned e v v').
  - split.
    + intros Hf. exists v. split; [done|]. by rewrite Hf.
    + intros (v' & Hin' & Hf). rewrite (NoDup_fst_unique returned e v v') by done.
      by apply negb_true_iff.
Qed.

Lemma verify_emails_partition_witness :
  let env : gmap string string := {[ "REOON_API_KEY"%string := "key"%string ]} in
  let person e := Contact None "" "" e "" "" "" "" in
  let contacts := [person "a@x.com"; person "b@x.com"]%string in
  let results :=
    [("a@x.com", Verification true true (Some "safe") (Some 98));
     ("b@x.com", Verification true false None (Some 10))]%string in
  let valid := [person "a@x.com"]%string in
  let invalid :=
    [Reoon.InvalidContact "b@x.com" "unknown" "Score: 10, Status: unknown"]%string in
  let r := Reoon.verify_emails env contacts (Reoon.scripted_service 2 results) 0%nat in
  let returned := Reoon.task_results (Reoon.scripted_service 2 results) 0%nat (events r) in
  let both_flags := fun ev : string * verification =>
    is_safe_to_send ev.2 && is_deliverable ev.2 in
  Some <$> valid
    = (fun ev => Reoon.contact_map contacts !! ev.1) <$> List.filter both_flags returned
  /\ email <$> valid = (List.filter both_flags returned).*1
  /\ invalid
     = (fun ev =>
          {| Reoon.inv_email := ev.1;
             Reoon.reason := default "unknown"%string (v_status ev.2);
             Reoon.details :=
               "Score: " +:+ Reoon.show_score (overall_score ev.2)
               +:+ ", Status: " +:+ default "unknown"%string (v_status ev.2) |})
       <$> List.filter (fun ev => negb (both_flags ev)) returned
  /\ (length valid + length invalid)%nat = length returned
  /\ (NoDup returned.*1 -> forall e v, (e, v) ∈ returned ->
        (both_flags (e, v) = true <-> e ∈ email <$> valid)
        /\ (both_flags (e, v) = false <-> e ∈ Reoon.inv_email <$> invalid)).
Proof.
  intros env person contacts results valid invalid.
  apply (verify_emails_partition env contacts (Reoon.scripted_service 2 results)
           valid invalid).
  vm_compute. reflexivity.
Defined.

(** C9: a completed task whose result set names an e-mail that was not
    submitted makes the whole verification raise ([KeyError], re-raised by
    the outer handler); when the function returns, every returned key is
    the e-mail of a submitted contact. *)
Theorem verify_emails_unknown_email env contacts srv :
  let r := Reoon.verify_emails env contacts srv 0%nat in
  let returned := Reoon.task_results srv 0%nat (events r) in
  (forall e v, (e, v) ∈ returned -> e ∉ email <$> contacts ->
     exists k, (k ∉ email <$> contacts)
       /\ result r = Raise (Wrapped "Verification failed" (KeyError k)))
  /\ (forall valid invalid, result r = Ret (valid, invalid) ->
      forall e v, (e, v) ∈ returned -> e ∈ email <$> contacts).
Proof.
  intros r returned.
  destruct (api_key_cases env "REOON_API_KEY") as [Hno|(key & Hkey & Hne)].
  { subst returned r. rewrite verify_emails_no_key by done. cbn.
    split; [intros e v Hin|intros _ _ _ e v Hin]; (by apply elem_of_nil in Hin). }
  pose proof (verify_emails_run env key contacts srv 0%nat Hkey Hne) as Hrun.
  cbv zeta in Hrun.
  pose proof (verify_batches_outcome key (Reoon.contact_map contacts) srv
                (chunks_fuel (length (email <$> contacts)) 100 (email <$> contacts))
                [] [] 0%nat) as Hout.
  cbv zeta in Hout.
  remember (Reoon.verify_batches key (Reoon.contact_map contacts)
              (chunks_fuel (length (email <$> contacts)) 100 (email <$> contacts))
              [] [] srv 0%nat) as rb eqn:Hrb.
  assert (Hev : returned = Reoon.task_results srv 0%nat (events rb))
    by (subst returned r; by rewrite Hrun).
  assert (Hres : result r = match result rb with
                            | Ret vi => if (length contacts =? 0)%nat
                                        then Raise ZeroDivisionError else Ret vi
                            | Raise e => Raise (Reoon.reraise e)
                            | OutOfFuel => OutOfFuel
                            end)
    by (subst r; by rewrite Hrun).
  rewrite <- Hev in Hout. clearbody returned r. clear Hev Hrun.
  assert (Hknown : forall e v,
            Forall (fun ev : string * verification =>
                      is_Some (Reoon.contact_map contacts !! ev.1)) returned ->
            (e, v) ∈ returned -> e ∈ email <$> contacts).
  { intros e v Hall Hin. rewrite Forall_forall in Hall.
    destruct (decide (e ∈ email <$> contacts)) as [|Hnot]; [done|].
    apply contact_map_None in Hnot. destruct (Hall (e, v) Hin) as [c Hc].
    cbn in Hc. congruence. }
  split.
  - intros e v Hin Hnot. rewrite Hres.
    destruct (result rb) as [[vs ivs]|ex|]; [| |done].
    + destruct Hout as (Hall & _). by destruct Hnot; apply (Hknown e v).
    + destruct Hout as [[Hall _]|(k & -> & Hk)].
      * by destruct Hnot; apply (Hknown e v).
      * exists k. split; [by apply contact_map_None|done].
  - intros valid invalid Hret e v Hin. rewrite Hres in Hret.
    destruct (result rb) as [[vs ivs]|ex|]; [|done..].
    destruct Hout as (Hall & _). by apply (Hknown e v).
Qed.

Lemma verify_emails_unknown_email_witness :
  let env : gmap string string := {[ "REOON_API_KEY"%string := "key"%string ]} in
  let person e := Contact None "" "" e "" "" "" "" in
  let contacts := [person "a@x.com"]%string in
  let stranger := ("z@x.com", Verification false false (Some "invalid") (Some 0))%string in
  let srv := Reoon.scripted_service 0 [stranger] in
  exists k, (k ∉ email <$> contacts)
    /\ result (Reoon.verify_emails env contacts srv 0%nat)
       = Raise (Wrapped "Verification failed" (KeyError k)).
Proof.
  intros env person contacts stranger srv.
  apply (proj1 (verify_emails_unknown_email env contacts srv) stranger.1 stranger.2).
  - vm_compute. constructor.
  - apply not_elem_of_cons. split; [discriminate|apply not_elem_of_nil].
Defined.

Lemma verify_batches_timeout key cmap srv bs1 batch rest valid invalid ev n status b tid :
  Reoon.verify_batches key cmap bs1 [] [] srv 0%nat = Run (Ret (valid, invalid)) ev n ->
  srv n (ReoonCreateTask key batch) = Http status b ->
  is_http_error status = false -> b <> NotJson ->
  Reoon.task_id_of b = Some tid -> tid <> ""%string ->
  (forall k, (k < 18)%nat -> exists st rb,
     srv (S n + k)%nat (ReoonGetResult key tid) = Http st rb
     /\ is_http_error st = false /\ rb <> NotJson /\ Reoon.completed rb = false) ->
  Reoon.verify_batches key cmap (bs1 ++ batch :: rest) [] [] srv 0%nat
    = Run (Raise Reoon.poll_timeout)
        (ev ++ Call (ReoonCreateTask key batch)
            :: concat (replicate 18 [Sleep 10; Call (ReoonGetResult key tid)]))
        (n + 19)%nat.
Proof.
  intros Hdone Hr He Hb Hid Hne Hpending.
  rewrite (verify_batches_app key cmap srv bs1 (batch :: rest) [] [] 0%nat
             valid invalid ev n Hdone).
  rewrite (verify_batches_created key cmap batch rest valid invalid srv n status b tid)
    by done.
  pose proof (poll_pending Reoon.max_tries key tid srv (S n) Hpending) as Hpoll.
  rewrite (bind_raise_run (Reoon.poll Reoon.max_tries key tid) _ srv (S n)
             Reoon.poll_timeout) by (by rewrite Hpoll).
  rewrite Hpoll. unfold after. cbn [result events calls]. f_equal.
  unfold Reoon.max_tries. lia.
Qed.

(** C6: every poll loop makes at most 18 requests, each after a 10 s
    sleep.  When the batches before some batch went through and the task of
    that batch is still not completed at its 18th poll, the verification
    raises: nothing is returned, neither the valid and invalid contacts of
    the earlier batches nor anything of the pending task. *)
Theorem verify_emails_poll_timeout :
  (forall key tid srv n, exists k, (k <= 18)%nat
     /\ events (Reoon.poll Reoon.max_tries key tid srv n)
        = concat (replicate k [Sleep 10; Call (ReoonGetResult key tid)])
     /\ calls (Reoon.poll Reoon.max_tries key tid srv n) = (n + k)%nat)
  /\ (forall env api_key contacts srv i batch valid invalid ev n status b tid,
        getenv env "REOON_API_KEY" = Some api_key -> api_key <> ""%string ->
        let batches :=
          chunks_fuel (length (email <$> contacts)) 100 (email <$> contacts) in
        batches !! i = Some batch ->
        Reoon.verify_batches api_key (Reoon.contact_map contacts) (take i batches)
          [] [] srv 0%nat = Run (Ret (valid, invalid)) ev n ->
        srv n (ReoonCreateTask api_key batch) = Http status b ->
        is_http_error status = false -> b <> NotJson ->
        Reoon.task_id_of b = Some tid -> tid <> ""%string ->
        (forall k, (k < 18)%nat -> exists st rb,
           srv (S n + k)%nat (ReoonGetResult api_key tid) = Http st rb
           /\ is_http_error st = false /\ rb <> NotJson
           /\ Reoon.completed rb = false) ->
        Reoon.verify_emails env contacts srv 0%nat
          = Run (Raise (Wrapped "Verification failed"
                          (Exception "Verification not completed after 180 seconds")))
              (ev ++ Call (ReoonCreateTask api_key batch)
                  :: concat (replicate 18 [Sleep 10; Call (ReoonGetResult api_key tid)]))
              (n + 19)%nat).
Proof.
  split; [intros key tid srv n; apply poll_trace|].
  intros env api_key contacts srv i batch valid invalid ev n status b tid
    Hkey Hne batches Hi Hdone Hr He Hb Hid Htid Hpending.
  rewrite (verify_emails_run env api_key contacts srv 0%nat Hkey Hne). cbv zeta.
  fold batches. rewrite <- (take_drop_middle batches i batch Hi).
  rewrite (verify_batches_timeout api_key _ srv (take i batches) batch
             (drop (S i) batches) valid invalid ev n status b tid) by done.
  reflexivity.
Qed.

Lemma verify_emails_poll_timeout_witness :
  let env : gmap string string := {[ "REOON_API_KEY"%string := "key"%string ]} in
  let person e := Contact None "" "" e "" "" "" "" in
  let contacts := [person "a@x.com"; person "b@x.com"]%string in
  let srv := Reoon.scripted_service 100 [] in
  Reoon.verify_emails env contacts srv 0%nat
    = Run (Raise (Wrapped "Verification failed"
                    (Exception "Verification not completed after 180 seconds")))
        ([] ++ Call (ReoonCreateTask "key" ["a@x.com"; "b@x.com"]%string)
            :: concat (replicate 18 [Sleep 10; Call (ReoonGetResult "key" "task-1")]))
        (0 + 19)%nat.
Proof.
  intros env person contacts srv.
  apply (proj2 verify_emails_poll_timeout env "key"%string contacts srv 0%nat
           ["a@x.com"; "b@x.com"]%string [] [] [] 0%nat
           200 (ReoonTask (Some "task-1"%string)) "task-1"%string).
  - reflexivity.
  - discriminate.
  - reflexivity.
  - reflexivity.
  - reflexivity.
  - reflexivity.
  - discriminate.
  - reflexivity.
  - discriminate.
  - intros k Hk. exists 200, (ReoonResult (Some "running"%string) None).
    split; [|done]. unfold srv, Reoon.scripted_service.
    destruct (Nat.leb_spec (1 + k) 100); [done|lia].
Defined.

(** ** instantly.py: the batched uploader *)

Section UploadFacts.
Import Instantly.

Lemma uploaded_app srv ev1 : forall n ev2,
  uploaded srv n (ev1 ++ ev2)
    = uploaded srv n ev1 + uploaded srv (n + length (requests_of ev1))%nat ev2.
Proof.
  induction ev1 as [|[q|s] ev1 IH]; intros n ev2.
  - cbn [app uploaded requests_of omap length]. rewrite Nat.add_0_r. lia.
  - change ((Call q :: ev1) ++ ev2) with (Call q :: (ev1 ++ ev2)).
    cbn [uploaded]. rewrite IH, requests_of_call. cbn [length].
    replace (S n + length (requests_of ev1))%nat
      with (n + S (length (requests_of ev1)))%nat by lia.
    lia.
  - change ((Sleep s :: ev1) ++ ev2) with (Sleep s :: (ev1 ++ ev2)).
    cbn [uploaded]. by rewrite IH, requests_of_sleep.
Qed.

Lemma leads_sent_upload_request api_key (leads : list lead) :
  leads_sent (upload_request api_key leads) = Z.of_nat (length leads).
Proof. by destruct leads as [|l [|l' leads]]. Qed.

Lemma upload_request_many api_key (leads : list lead) :
  length leads <> 1%nat -> upload_request api_key leads = InstantlyAddLeads api_key leads.
Proof. by destruct leads as [|l [|l' leads]]. Qed.

(** One batch: the request, then a sleep unless the request raised; the
    batch counts when the answer is 200 or 201. *)
Lemma upload_batch_run api_key campaign_id batch total srv n :
  let q := upload_request api_key (lead_data campaign_id <$> batch) in
  upload_batch api_key campaign_id batch total srv n
    = match srv n q with
      | NoResponse => Run (Ret total) [Call q] (S n)
      | Http status _ =>
          Run (Ret (if created status then total + Z.of_nat (length batch) else total))
            [Call q; Sleep 1] (S n)
      end.
Proof.
  cbv zeta. unfold upload_batch, try_except. rewrite bind_call.
  destruct (srv n _) as [|status b]; [done|]. by rewrite bind_sleep.
Qed.

Lemma upload_batch_counts api_key campaign_id batch total :
  counts_calls (upload_batch api_key campaign_id batch total).
Proof.
  intros srv n. rewrite upload_batch_run.
  destruct (srv n _) as [|status b]; cbn; lia.
Qed.

Lemma upload_batch_total api_key campaign_id batch total srv n :
  result (upload_batch api_key campaign_id batch total srv n)
    = Ret (total + uploaded srv n
                     (events (upload_batch api_key campaign_id batch total srv n))).
Proof.
  rewrite upload_batch_run. cbv zeta.
  destruct (srv n _) as [|status b] eqn:Hr; cbn [result events uploaded];
    rewrite Hr; cbn [accepted].
  - f_equal. lia.
  - rewrite leads_sent_upload_request, length_fmap.
    destruct (created status); f_equal; lia.
Qed.

Lemma upload_batches_counts api_key campaign_id batches :
  forall total, counts_calls (upload_batches api_key campaign_id batches total).
Proof.
  induction batches as [|batch rest IH]; intros total; cbn [upload_batches].
  - apply counts_calls_ret.
  - apply counts_calls_bind; [apply upload_batch_counts|]. intros t. apply IH.
Qed.

(** The loop over the batches never raises, and its total is the number
    of leads of the batches that were accepted. *)
Lemma upload_batches_total api_key campaign_id srv batches : forall total n,
  result (upload_batches api_key campaign_id batches total srv n)
    = Ret (total + uploaded srv n
                     (events (upload_batches api_key campaign_id batches total srv n))).
Proof.
  induction batches as [|batch rest IH]; intros total n; cbn [upload_batches].
  { cbn. f_equal. lia. }
  pose proof (upload_batch_total api_key campaign_id batch total srv n) as Hb.
  pose proof (upload_batch_counts api_key campaign_id batch total srv n) as Hc.
  remember (upload_batch api_key campaign_id batch total srv n) as rb eqn:Hrb.
  rewrite (bind_ret_run (upload_batch api_key campaign_id batch total) _ srv n _)
    by (rewrite <- Hrb; exact Hb).
  rewrite <- Hrb, result_after, events_after, IH, uploaded_app, <- Hc.
  f_equal. lia.
Qed.

Lemma push_campaigns_counts env api_key batch_size items :
  forall total, counts_calls (push_campaigns env api_key batch_size items total).
Proof.
  induction items as [|[key l] rest IH]; intros total; cbn [push_campaigns].
  { apply counts_calls_ret. }
  destruct (negb (truthy _)); [apply IH|].
  destruct (negb (nonempty l)); [apply IH|].
  apply counts_calls_bind; [apply counts_calls_lift|]. intros bs.
  apply counts_calls_bind; [apply upload_batches_counts|]. intros t. apply IH.
Qed.

Lemma batches_nonzero {A} size (l : list A) :
  size <> 0 -> exists bs, batches size l = Ret bs.
Proof.
  intros H. unfold batches. destruct (Z.eqb_spec size 0); [done|].
  destruct (size <? 0); eauto.
Qed.

(** The loop over the campaigns: with a batch size other than zero it
    returns, and what it adds to the total are the accepted leads. *)
Lemma push_campaigns_total env api_key batch_size srv items :
  batch_size <> 0 -> forall total n,
  result (push_campaigns env api_key batch_size items total srv n)
    = Ret (total + uploaded srv n
                     (events (push_campaigns env api_key batch_size items total srv n))).
Proof.
  intros Hsize. induction items as [|[key l] rest IH]; intros total n;
    cbn [push_campaigns].
  { cbn. f_equal. lia. }
  destruct (negb (truthy _)); [apply IH|].
  destruct (negb (nonempty l)); [apply IH|].
  destruct (batches_nonzero batch_size l Hsize) as [bs ->].
  rewrite bind_lift_ret.
  set (cid := default ""%string (campaign_id_of env key)).
  pose proof (upload_batches_total api_key cid srv bs total n) as Hb.
  pose proof (upload_batches_counts api_key cid bs total srv n) as Hc.
  remember (upload_batches api_key cid bs total srv n) as rb eqn:Hrb.
  rewrite (bind_ret_run (upload_batches api_key cid bs total) _ srv n _)
    by (rewrite <- Hrb; exact Hb).
  rewrite <- Hrb, result_after, events_after, IH, uploaded_app, <- Hc.
  f_equal. lia.
Qed.

(** Entries under a key other than [campaign_a] and [campaign_b] have no
    destination and are passed over. *)
Lemma push_campaigns_known_keys env api_key batch_size items : forall total srv n,
  push_campaigns env api_key batch_size items total srv n
    = push_campaigns env api_key batch_size
        (List.filter (fun kv => String.eqb kv.1 "campaign_a"
                                || String.eqb kv.1 "campaign_b") items)
        total srv n.
Proof.
  induction items as [|[key l] rest IH]; intros total srv n; [done|].
  cbn [List.filter fst].
  destruct (String.eqb key "campaign_a" || String.eqb key "campaign_b") eqn:Hkey.
  - cbn [push_campaigns].
    destruct (negb (truthy _)); [apply IH|].
    destruct (negb (nonempty l)); [apply IH|].
    unfold bind. destruct (lift _ srv n) as [[bs| |] ev n1]; [|done..].
    destruct (upload_batches _ _ _ _ srv n1) as [[t| |] ev1 n2]; [|done..].
    by rewrite IH.
  - cbn [push_campaigns]. unfold campaign_id_of.
    apply orb_false_iff in Hkey as [-> ->]. cbn. apply IH.
Qed.

End UploadFacts.

Lemma credentials_ok_true env :
  Instantly.credentials_ok env = true <->
  truthy (getenv env "INSTANTLY_API_KEY") = true
  /\ truthy (getenv env "CAMPAIGN_PRIMARY_ID") = true
  /\ truthy (getenv env "CAMPAIGN_SECONDARY_ID") = true.
Proof.
  unfold Instantly.credentials_ok. cbn [forallb].
  rewrite !andb_true_iff. intuition.
Qed.

(** C2, as the code has it: without the API key or without either of the
    two campaign identifiers the upload raises before any request; with all
    three it returns, whatever the platform answers, the number of leads of
    the accepted batches, and entries under any other key are passed
    over. *)
Theorem push_to_instantly_credentials_and_total env contacts_split batch_size srv :
  batch_size <> 0 ->
  let r := Instantly.push_to_instantly env contacts_split batch_size srv 0%nat in
  (truthy (getenv env "INSTANTLY_API_KEY") = false
   \/ truthy (getenv env "CAMPAIGN_PRIMARY_ID") = false
   \/ truthy (getenv env "CAMPAIGN_SECONDARY_ID") = false ->
   r = Run (Raise (ValueError "Missing Instantly credentials (API Key or Campaign IDs)"))
         [] 0%nat)
  /\ (truthy (getenv env "INSTANTLY_API_KEY") = true ->
      truthy (getenv env "CAMPAIGN_PRIMARY_ID") = true ->
      truthy (getenv env "CAMPAIGN_SECONDARY_ID") = true ->
      result r = Ret (Instantly.uploaded srv 0%nat (events r))
      /\ r = Instantly.push_to_instantly env
               (List.filter (fun kv => String.eqb kv.1 "campaign_a"
                                       || String.eqb kv.1 "campaign_b") contacts_split)
               batch_size srv 0%nat).
Proof.
  intros Hsize r. subst r. unfold Instantly.push_to_instantly. split.
  - intros Hmissing.
    destruct (Instantly.credentials_ok env) eqn:Hok; [|done].
    apply credentials_ok_true in Hok as (H1 & H2 & H3).
    destruct Hmissing as [H|[H|H]]; congruence.
  - intros H1 H2 H3.
    rewrite (proj2 (credentials_ok_true env)) by done. cbn [negb]. split.
    + by rewrite push_campaigns_total.
    + apply push_campaigns_known_keys.
Qed.

Lemma push_to_instantly_credentials_and_total_witness :
  let env : gmap string string :=
    {[ "INSTANTLY_API_KEY"%string := "key"%string;
       "CAMPAIGN_PRIMARY_ID"%string := "primary"%string;
       "CAMPAIGN_SECONDARY_ID"%string := "secondary"%string ]} in
  let person e := Contact None "" "" e "" "" "" "" in
  let split := [("campaign_c", [person "c@x.com"]);
                ("campaign_a", [person "a@x.com"; person "b@x.com"])]%string in
  let srv := Instantly.scripted_platform (fun _ => 500) [] in
  let r := Instantly.push_to_instantly env split 100 srv 0%nat in
  result r = Ret (Instantly.uploaded srv 0%nat (events r))
  /\ r = Instantly.push_to_instantly env
           (List.filter (fun kv => String.eqb kv.1 "campaign_a"
                                   || String.eqb kv.1 "campaign_b") split)
           100 srv 0%nat.
Proof.
  intros env person split srv.
  apply (proj2 (push_to_instantly_credentials_and_total env split 100 srv
                  ltac:(discriminate))); reflexivity.
Defined.

(** C2 as stated fails: with the API key and the primary identifier set
    but no secondary identifier, a mapping with a [campaign_b] entry is not
    uploaded with that entry skipped: the call raises. *)
Lemma push_unconfigured_campaign_raises :
  let env : gmap string string :=
    {[ "INSTANTLY_API_KEY"%string := "key"%string;
       "CAMPAIGN_PRIMARY_ID"%string := "primary"%string ]} in
  let person e := Contact None "" "" e "" "" "" "" in
  let split := [("campaign_a", [person "a@x.com"]);
                ("campaign_b", [person "b@x.com"])]%string in
  let srv := Instantly.scripted_platform (fun _ => 200) [] in
  truthy (getenv env "INSTANTLY_API_KEY") = true
  /\ Instantly.campaign_id_of env "campaign_b" = None
  /\ Instantly.push_to_instantly env split 100 srv 0%nat
     = Run (Raise (ValueError "Missing Instantly credentials (API Key or Campaign IDs)"))
         [] 0%nat.
Proof. cbv zeta. repeat split; vm_compute; reflexivity. Qed.

Section Upload250.
Import Instantly.

Lemma chunks_fuel_cons {A} fuel size (l : list A) :
  l <> [] ->
  chunks_fuel (S fuel) size l = take size l :: chunks_fuel fuel size (drop size l).
Proof. by destruct l. Qed.

Lemma chunks_fuel_nil {A} fuel size : chunks_fuel fuel size (@nil A) = [].
Proof. by destruct fuel. Qed.

Lemma length_nonempty {A} (l : list A) : (0 < length l)%nat -> l <> [].
Proof. destruct l; cbn; [lia|done]. Qed.

Lemma chunks_250 {A} (l : list A) :
  length l = 250%nat ->
  chunks_fuel (length l) 100 l
    = [take 100 l; take 100 (drop 100 l); take 100 (drop 200 l)].
Proof.
  intros Hlen. rewrite Hlen.
  rewrite chunks_fuel_cons by (apply length_nonempty; lia).
  rewrite chunks_fuel_cons by (apply length_nonempty; rewrite length_drop; lia).
  rewrite chunks_fuel_cons by (apply length_nonempty; rewrite !length_drop; lia).
  replace (drop 100 (drop 100 (drop 100 l))) with (@nil A)
    by (symmetry; apply drop_ge; rewrite !length_drop; lia).
  by rewrite chunks_fuel_nil, drop_drop.
Qed.

Lemma upload_batches_cons api_key campaign_id batch rest total srv n status b :
  srv n (upload_request api_key (lead_data campaign_id <$> batch)) = Http status b ->
  upload_batches api_key campaign_id (batch :: rest) total srv n
    = after [Call (upload_request api_key (lead_data campaign_id <$> batch)); Sleep 1]
        (upload_batches api_key campaign_id rest
           (if created status then total + Z.of_nat (length batch) else total)
           srv (S n)).
Proof.
  intros Hr. cbn [upload_batches]. unfold bind, after.
  rewrite upload_batch_run. cbv zeta. rewrite Hr.
  by destruct (upload_batches _ _ rest _ srv (S n)).
Qed.

End Upload250.

(** C5: a group of 250 contacts is uploaded in three requests of 100, 100
    and 50 leads, one second apart; when the second one is answered with a
    status other than 200 and 201 and the other two are accepted, the
    function returns 150. *)
Theorem push_250_second_batch_fails env api_key primary secondary
    (contacts : list contact) srv s0 b0 s1 b1 s2 b2 :
  getenv env "INSTANTLY_API_KEY" = Some api_key -> api_key <> ""%string ->
  getenv env "CAMPAIGN_PRIMARY_ID" = Some primary -> primary <> ""%string ->
  getenv env "CAMPAIGN_SECONDARY_ID" = Some secondary -> secondary <> ""%string ->
  length contacts = 250%nat ->
  let batch i :=
    Instantly.lead_data primary <$> take 100 (drop (100 * i) contacts) in
  srv 0%nat (InstantlyAddLeads api_key (batch 0%nat)) = Http s0 b0 ->
  srv 1%nat (InstantlyAddLeads api_key (batch 1%nat)) = Http s1 b1 ->
  srv 2%nat (InstantlyAddLeads api_key (batch 2%nat)) = Http s2 b2 ->
  Instantly.created s0 = true -> Instantly.created s1 = false ->
  Instantly.created s2 = true ->
  Instantly.push_to_instantly env
    [("campaign_a"%string, contacts); ("campaign_b"%string, [])] 100 srv 0%nat
    = Run (Ret 150)
        [Call (InstantlyAddLeads api_key (batch 0%nat)); Sleep 1;
         Call (InstantlyAddLeads api_key (batch 1%nat)); Sleep 1;
         Call (InstantlyAddLeads api_key (batch 2%nat)); Sleep 1] 3%nat
  /\ length (batch 0%nat) = 100%nat /\ length (batch 1%nat) = 100%nat
  /\ length (batch 2%nat) = 50%nat.
Proof.
  intros Hkey Hkey' Hp Hp' Hs Hs' Hlen batch Hr0 Hr1 Hr2 Hc0 Hc1 Hc2.
  assert (Hl0 : length (batch 0%nat) = 100%nat)
    by (unfold batch; rewrite length_fmap, length_take, length_drop; lia).
  assert (Hl1 : length (batch 1%nat) = 100%nat)
    by (unfold batch; rewrite length_fmap, length_take, length_drop; lia).
  assert (Hl2 : length (batch 2%nat) = 50%nat)
    by (unfold batch; rewrite length_fmap, length_take, length_drop; lia).
  split; [|done].
  assert (Htruthy : forall v, v <> ""%string -> truthy (Some v) = true)
    by (intros v Hv; cbn; by destruct (String.eqb_spec v "")).
  unfold Instantly.push_to_instantly.
  rewrite (proj2 (credentials_ok_true env))
    by (rewrite Hkey, Hp, Hs; auto).
  cbn [negb]. rewrite Hkey. cbn [default Instantly.push_campaigns].
  change (Instantly.campaign_id_of env "campaign_a")
    with (getenv env "CAMPAIGN_PRIMARY_ID").
  change (Instantly.campaign_id_of env "campaign_b")
    with (getenv env "CAMPAIGN_SECONDARY_ID").
  rewrite Hp, Hs, !Htruthy by done. cbn [negb nonempty default].
  assert (Hne : nonempty contacts = true) by (by destruct contacts).
  rewrite Hne. cbn [negb]. unfold Datatypes.id.
  rewrite batches_100, bind_lift_ret, chunks_250 by done.
  assert (Hq : forall i, (i < 3)%nat ->
            Instantly.upload_request api_key (batch i)
            = InstantlyAddLeads api_key (batch i)).
  { intros i Hi. apply upload_request_many.
    destruct i as [|[|[|i]]]; [rewrite Hl0|rewrite Hl1|rewrite Hl2|]; lia. }
  change (take 100 contacts) with (take 100 (drop (100 * 0) contacts)).
  change (drop 100 contacts) with (drop (100 * 1) contacts).
  change (drop 200 contacts) with (drop (100 * 2) contacts).
  unfold bind.
  rewrite (upload_batches_cons api_key primary _ _ 0 srv 0%nat s0 b0)
    by exact (eq_trans (f_equal (srv 0%nat) (Hq 0%nat ltac:(lia))) Hr0).
  rewrite (upload_batches_cons api_key primary _ _ _ srv 1%nat s1 b1)
    by exact (eq_trans (f_equal (srv 1%nat) (Hq 1%nat ltac:(lia))) Hr1).
  rewrite (upload_batches_cons api_key primary _ _ _ srv 2%nat s2 b2)
    by exact (eq_trans (f_equal (srv 2%nat) (Hq 2%nat ltac:(lia))) Hr2).
  change (Instantly.lead_data primary <$> take 100 (drop (100 * 0) contacts))
    with (batch 0%nat).
  change (Instantly.lead_data primary <$> take 100 (drop (100 * 1) contacts))
    with (batch 1%nat).
  change (Instantly.lead_data primary <$> take 100 (drop (100 * 2) contacts))
    with (batch 2%nat).
  rewrite !Hq by lia.
  rewrite Hc0, Hc1, Hc2. cbn [Instantly.upload_batches].
  rewrite !length_take, !length_drop, Hlen. reflexivity.
Qed.

Lemma push_250_second_batch_fails_witness :
  let env : gmap string string :=
    {[ "INSTANTLY_API_KEY"%string := "key"%string;
       "CAMPAIGN_PRIMARY_ID"%string := "primary"%string;
       "CAMPAIGN_SECONDARY_ID"%string := "secondary"%string ]} in
  let contacts := replicate 250 (Contact None "" "" "a@x.com" "" "" "" "") in
  let srv := Instantly.scripted_platform (fun n => if (n =? 1)%nat then 500 else 201) [] in
  let batch i :=
    Instantly.lead_data "primary" <$> take 100 (drop (100 * i) contacts) in
  Instantly.push_to_instantly env
    [("campaign_a"%string, contacts); ("campaign_b"%string, [])] 100 srv 0%nat
    = Run (Ret 150)
        [Call (InstantlyAddLeads "key" (batch 0%nat)); Sleep 1;
         Call (InstantlyAddLeads "key" (batch 1%nat)); Sleep 1;
         Call (InstantlyAddLeads "key" (batch 2%nat)); Sleep 1] 3%nat
  /\ length (batch 0%nat) = 100%nat /\ length (batch 1%nat) = 100%nat
  /\ length (batch 2%nat) = 50%nat.
Proof.
  intros env contacts srv.
  apply (push_250_second_batch_fails env "key" "primary" "secondary" contacts srv
           201 EmptyObject 500 EmptyObject 201 EmptyObject);
    (reflexivity || discriminate).
Defined.

(** ** instantly.py: the cleanup sweeper *)

Section SweepFacts.
Import Instantly.

Lemma collect_leads_counts fuel api_key campaign filter_val :
  forall starting_after emails,
  counts_calls (collect_leads fuel api_key campaign filter_val starting_after emails).
Proof.
  induction fuel as [|fuel IH]; intros starting_after emails; cbn [collect_leads].
  { intros srv n. cbn. lia. }
  apply counts_calls_bind; [apply counts_calls_call|]. intros [|status b].
  { apply counts_calls_raise. }
  destruct (is_http_error status); [apply counts_calls_raise|].
  destruct b; try apply counts_calls_raise;
    (destruct (negb _ || negb _); [apply counts_calls_ret|apply IH]).
Qed.

(** A page with a cursor and at least one lead: the loop goes on from
    that cursor. *)
Lemma collect_leads_next fuel api_key campaign filter_val starting_after emails
    srv n status data cursor :
  srv n (list_request api_key campaign filter_val starting_after)
    = Http status (InstantlyLeads data cursor) ->
  is_http_error status = false ->
  truthy cursor = true -> default [] data <> [] ->
  collect_leads (S fuel) api_key campaign filter_val starting_after emails srv n
    = after [Call (list_request api_key campaign filter_val starting_after)]
        (collect_leads fuel api_key campaign filter_val cursor
           (emails ++ default [] data) srv (S n)).
Proof.
  intros Hr He Hcursor Hdata. cbn [collect_leads]. rewrite bind_call, Hr, He.
  cbn [cursor_of leads_of]. rewrite Hcursor.
  destruct data as [[|l leads]|]; try done.
Qed.

End SweepFacts.

(** C8: at any point of the pagination, a page without a cursor (absent or
    empty) or without leads ends the loop after that one request, and the
    leads of that page are part of what the loop returns. *)
Theorem collect_leads_last_page fuel api_key campaign filter_val starting_after
    emails srv n status data cursor :
  srv n (Instantly.list_request api_key campaign filter_val starting_after)
    = Http status (InstantlyLeads data cursor) ->
  is_http_error status = false ->
  truthy cursor = false \/ default [] data = [] ->
  Instantly.collect_leads (S fuel) api_key campaign filter_val starting_after
    emails srv n
    = Run (Ret (emails ++ default [] data))
        [Call (Instantly.list_request api_key campaign filter_val starting_after)]
        (S n).
Proof.
  intros Hr He Hlast. cbn [Instantly.collect_leads]. rewrite bind_call, Hr, He.
  cbn [Instantly.cursor_of Instantly.leads_of].
  destruct data as [leads|].
  - change (default [] (Some leads)) with leads in *.
    destruct Hlast as [->| ->]; [done|]. by rewrite orb_true_r.
  - change (default [] (@None (list string))) with (@nil string) in *.
    by rewrite orb_true_r.
Qed.

Lemma collect_leads_last_page_witness :
  let leads := ["a@x.com"; "b@x.com"; "c@x.com"; "d@x.com"; "e@x.com"]%string in
  let srv := Instantly.scripted_platform (fun _ => 200) [(""%string, (leads, None))] in
  Instantly.collect_leads 1 "key" "primary" "FILTER_VAL_COMPLETED" None [] srv 0%nat
    = Run (Ret ([] ++ default [] (Some leads)))
        [Call (Instantly.list_request "key" "primary" "FILTER_VAL_COMPLETED" None)]
        1%nat.
Proof.
  intros leads srv.
  apply (collect_leads_last_page 0 "key" "primary" "FILTER_VAL_COMPLETED" None []
           srv 0%nat 200 (Some leads) None).
  - reflexivity.
  - reflexivity.
  - by left.
Defined.

(** The scenario of the specification: one page of five leads and no
    cursor.  The sweep lists each campaign once and removes the five
    leads. *)
Example delete_single_terminal_page :
  let env : gmap string string :=
    {[ "INSTANTLY_API_KEY"%string := "key"%string;
       "CAMPAIGN_PRIMARY_ID"%string := "primary"%string ]} in
  let leads := ["a@x.com"; "b@x.com"; "c@x.com"; "d@x.com"; "e@x.com"]%string in
  let srv := Instantly.scripted_platform (fun _ => 200) [(""%string, (leads, None))] in
  forall fuel,
  Instantly.delete_finished_leads env (S fuel) srv 0%nat
    = Run (Ret 5)
        [Call (InstantlyListLeads "key" "primary" "FILTER_VAL_COMPLETED" 100 None);
         Call (InstantlyRemoveLeads "key" "primary" leads); Sleep 1] 2%nat.
Proof. intros env leads srv fuel. reflexivity. Qed.

(** ** main.py and logger.py: deduplication *)

Section DedupFacts.
Import Logger Main.
Variable lower : string -> string.

(** The filter of the deduplication step. *)
Lemma new_contacts_spec (processed : gset string) fetched c :
  c ∈ new_contacts lower processed fetched
  <-> c ∈ fetched /\ email c <> ""%string /\ lower (email c) ∉ processed.
Proof.
  unfold new_contacts. rewrite !list_elem_of_In, List.filter_In.
  rewrite andb_true_iff, !negb_true_iff, bool_decide_eq_false.
  destruct (String.eqb_spec (email c) ""); intuition congruence.
Qed.

Lemma new_contacts_empty fetched :
  new_contacts lower ∅ fetched
    = List.filter (fun c => negb (String.eqb (email c) "")) fetched.
Proof.
  unfold new_contacts. apply List.filter_ext. intros c.
  rewrite bool_decide_eq_false_2 by set_solver. apply andb_true_r.
Qed.

(** With the attribute assigned, the set is the first column as stored,
    header left out. *)
Lemma get_processed_emails_assigned self sheet cells s :
  processed_sheet self = Some sheet -> col_values_1 sheet = Some cells ->
  s ∈ get_processed_emails self <-> s ∈ drop 1 cells.
Proof.
  intros Hsheet Hcells. unfold get_processed_emails. rewrite Hsheet, Hcells.
  apply elem_of_list_to_set.
Qed.

Lemma get_processed_emails_unassigned self :
  processed_sheet self = None -> get_processed_emails self = ∅.
Proof. intros H. unfold get_processed_emails. by rewrite H. Qed.

(** The constructor never assigns the attribute. *)
Lemma init_processed_sheet env opened self :
  init env opened = Ret self -> processed_sheet self = None.
Proof.
  unfold init. destruct (getenv env "GOOGLE_PRIVATE_KEY"); [|done].
  destruct opened as [sheets| |]; [|done..].
  destruct (sheets !! "Log"%string); [|done]. by intros [= <-].
Qed.

End DedupFacts.

(** C10 (as the code behaves): the constructor never assigns
    [processed_sheet], so reading the stored e-mails always fails, the
    failure is caught, and deduplication works with the empty set: every
    fetched contact with an e-mail is classified as new, one whose
    lower-cased e-mail is in the first column of the "Processed Leads"
    worksheet included. *)
Theorem dedup_ignores_stored_emails (lower : string -> string) env
    (sheets : Logger.spreadsheet) stored cells self fetched c :
  Logger.init env (Ret sheets) = Ret self ->
  sheets !! "Processed Leads"%string = Some stored ->
  Logger.col_values_1 stored = Some cells ->
  c ∈ fetched -> email c <> ""%string ->
  lower (email c) ∈ drop 1 cells ->
  Logger.get_processed_emails self = ∅
  /\ c ∈ Main.new_contacts lower (Logger.get_processed_emails self) fetched
  /\ Main.new_contacts lower (Logger.get_processed_emails self) fetched
     = List.filter (fun c => negb (String.eqb (email c) "")) fetched.
Proof.
  intros Hinit _ _ Hin Hmail _.
  assert (Hset : Logger.get_processed_emails self = ∅).
  { apply get_processed_emails_unassigned. by eapply init_processed_sheet. }
  rewrite Hset. split; [done|]. split; [|apply new_contacts_empty].
  apply new_contacts_spec. split; [done|]. split; [done|]. set_solver.
Qed.

Lemma dedup_ignores_stored_emails_witness :
  let env : gmap string string := {[ "GOOGLE_PRIVATE_KEY"%string := "key"%string ]} in
  let sheets : Logger.spreadsheet :=
    {[ "Log"%string := Logger.Worksheet (Some []);
       "Processed Leads"%string
         := Logger.Worksheet (Some ["Email"; "bob@x.com"]%string) ]} in
  let self := Logger.Manager (Some (Logger.Worksheet (Some []))) None None in
  let bob := Contact None "" "" "bob@x.com" "" "" "" "" in
  Logger.get_processed_emails self = ∅
  /\ bob ∈ Main.new_contacts Main.ascii_lower (Logger.get_processed_emails self) [bob]
  /\ Main.new_contacts Main.ascii_lower (Logger.get_processed_emails self) [bob]
     = List.filter (fun c => negb (String.eqb (email c) "")) [bob].
Proof.
  intros env sheets self bob.
  apply (dedup_ignores_stored_emails Main.ascii_lower env sheets
           (Logger.Worksheet (Some ["Email"; "bob@x.com"]%string))
           ["Email"; "bob@x.com"]%string self [bob] bob).
  - reflexivity.
  - reflexivity.
  - reflexivity.
  - by left.
  - discriminate.
  - vm_compute. by left.
Defined.

(** Had the attribute been assigned, the stored address would have kept
    the contact out. *)
Example dedup_with_assigned_sheet :
  let stored := Logger.Worksheet (Some ["Email"; "bob@x.com"]%string) in
  let self := Logger.Manager None (Some stored) None in
  let person e := Contact None "" "" e "" "" "" "" in
  Main.new_contacts Main.ascii_lower (Logger.get_processed_emails self)
    [person "Bob@x.com"; person "ann@x.com"]%string
  = [person "ann@x.com"]%string.
Proof. vm_compute. reflexivity. Qed.

(** * Further properties *)

(** ** utils.py *)

(** Whenever the split returns, it returns the two groups under the keys
    [campaign_a] and [campaign_b], and the two groups, one after the other,
    are the shuffled list: no contact is lost, added or put in both. *)
Theorem split_contacts_returns_partition {contact : Type}
    (shuffle : list contact -> list contact) (contacts : list contact) p groups :
  (forall l, shuffle l ≡ₚ l) ->
  Utils.split_contacts shuffle contacts p = Ret groups ->
  exists a b,
    groups = [("campaign_a"%string, a); ("campaign_b"%string, b)]
    /\ a ++ b = shuffle contacts
    /\ a ++ b ≡ₚ contacts
    /\ (length a + length b)%nat = length contacts.
Proof.
  intros Hperm. unfold Utils.split_contacts.
  destruct (negb _); [discriminate|].
  destruct (Utils.split_index _ _) as [k| |]; [|discriminate..].
  intros [= <-]. eexists _, _. split; [reflexivity|].
  rewrite slice_to_from_app. split; [done|]. split; [apply Hperm|].
  rewrite <- length_app, slice_to_from_app. by rewrite (Hperm contacts).
Qed.

Lemma split_contacts_returns_partition_witness :
  exists a b,
    [("campaign_a"%string, [3; 2]%nat); ("campaign_b"%string, [1%nat])]
      = [("campaign_a"%string, a); ("campaign_b"%string, b)]
    /\ a ++ b = rev [1; 2; 3]%nat
    /\ a ++ b ≡ₚ [1; 2; 3]%nat
    /\ (length a + length b)%nat = length [1; 2; 3]%nat.
Proof.
  apply (split_contacts_returns_partition (@rev nat) [1; 2; 3]%nat 70).
  - intros l. symmetry. apply Permutation_rev.
  - vm_compute. reflexivity.
Defined.

(** A percentage outside 0..100 is refused before the list is touched. *)
Theorem split_contacts_rejects_percentage {contact : Type}
    (shuffle : list contact -> list contact) (contacts : list contact) p :
  p < 0 \/ 100 < p ->
  Utils.split_contacts shuffle contacts p
    = Raise (ValueError "Percentage must be between 0 and 100.").
Proof. apply split_contacts_out_of_range. Qed.

Lemma split_contacts_rejects_percentage_witness :
  Utils.split_contacts (@rev nat) [1; 2; 3]%nat 101
    = Raise (ValueError "Percentage must be between 0 and 100.").
Proof.
  apply (split_contacts_rejects_percentage (@rev nat) [1; 2; 3]%nat 101). lia.
Defined.


(** ** apollo.py *)

Section FetchInvariants.
Import Apollo.
Variables (api_key list_id : string) (test_mode_pages : option string).
Variable srv : server.

Local Notation "'loop'" := (fetch_loop api_key list_id test_mode_pages).
Local Notation "'query'" := (search api_key list_id).

(** Induction over the iterations of the fetch loop: a property of runs
    that holds for every way an iteration can end, and is carried over the
    two ways it can go on, holds for every run. *)
Lemma fetch_loop_run_ind
    (P : Z -> option Z -> list contact -> nat -> run (list contact) -> Prop) :
  (forall page tp acc n, P page tp acc n (Run OutOfFuel [] n)) ->
  (forall page tp acc n,
     test_limit_reached test_mode_pages page = Ret true ->
     P page tp acc n (Run (Ret acc) [] n)) ->
  (forall page tp acc n e,
     test_limit_reached test_mode_pages page = Raise e ->
     P page tp acc n (Run (Raise e) [] n)) ->
  (forall page tp acc n e,
     test_limit_reached test_mode_pages page = Ret false ->
     handled (srv n (query page)) tp acc = Raise e ->
     P page tp acc n (Run (Raise e) [Call (query page)] (S n))) ->
  (forall page tp acc n,
     test_limit_reached test_mode_pages page = Ret false ->
     handled (srv n (query page)) tp acc = Ret Stop ->
     P page tp acc n (Run (Ret acc) [Call (query page)] (S n))) ->
  (forall page tp acc n r,
     test_limit_reached test_mode_pages page = Ret false ->
     handled (srv n (query page)) tp acc = Ret Again ->
     P page tp acc (S n) r ->
     P page tp acc n (after [Call (query page); Sleep 900] r)) ->
  (forall page tp acc n tp' acc' r,
     test_limit_reached test_mode_pages page = Ret false ->
     handled (srv n (query page)) tp acc = Ret (Advance tp' acc') ->
     P (page + 1) tp' acc' (S n) r ->
     P page tp acc n (after [Call (query page); Sleep 1] r)) ->
  forall fuel page tp acc n, P page tp acc n (loop fuel page tp acc srv n).
Proof.
  intros Hfuel Hstop Hlimit Hraise Hlast Hretry Hnext.
  induction fuel as [|fuel IH]; intros page tp acc n; [apply Hfuel|].
  rewrite fetch_loop_unfold.
  destruct (test_limit_reached_cases test_mode_pages page) as [[[|] Hl]|[e Hl]];
    rewrite Hl; [by apply Hstop| |by apply Hlimit].
  pose proof (handled_outcome (srv n (query page)) tp acc) as Hout.
  destruct (handled (srv n (query page)) tp acc) as [[| |tp' acc']|e|] eqn:Hh;
    [| | | |done]; cbn [pause].
  - by apply Hretry.
  - by apply Hlast.
  - by apply (Hnext page tp acc n tp' acc').
  - by apply Hraise.
Qed.

Lemma kept_emails new kept :
  Forall2 (fun entry c => normalize c = Ret entry) new kept ->
  Forall (fun c => truthy (raw_email c) = true) kept ->
  Forall (fun c => email c <> ""%string) new.
Proof.
  induction 1 as [|entry c new kept Hentry _ IH]; intros Hkept; [done|].
  apply Forall_cons in Hkept as [Hc Hkept]. constructor; [|by apply IH].
  rewrite (normalize_email c entry Hentry).
  destruct (raw_email c) as [e|]; [|done]. cbn in *.
  by destruct (String.eqb_spec e "").
Qed.

Lemma handled_emails r tp acc tp' acc' :
  handled r tp acc = Ret (Advance tp' acc') ->
  Forall (fun c => email c <> ""%string) acc ->
  Forall (fun c => email c <> ""%string) acc'.
Proof.
  intros Hh Hacc. destruct r as [|status b]; [done|].
  destruct (is_http_error status) eqn:He.
  { rewrite handled_http_error in Hh by done. by destruct (_ =? 429). }
  pose proof (handled_no_http_error status b tp acc He) as Hcases.
  rewrite Hh in Hcases. destruct Hcases as (_ & _ & Hadd).
  destruct (add_valid_contacts_cases (contacts_of b) acc)
    as [(new & Hret & Hnew)|[Hret _]]; [|congruence].
  rewrite Hret in Hadd. injection Hadd as <-.
  apply Forall_app. split; [done|].
  apply (kept_emails _ _ Hnew).
  apply Forall_forall. intros c Hc. apply list_elem_of_In, List.filter_In in Hc.
  by destruct Hc.
Qed.

Lemma fetch_loop_emails fuel page tp acc n :
  Forall (fun c => email c <> ""%string) acc ->
  forall cs, result (loop fuel page tp acc srv n) = Ret cs ->
  Forall (fun c => email c <> ""%string) cs.
Proof.
  revert fuel page tp acc n.
  apply (fetch_loop_run_ind (fun page tp acc n r =>
    Forall (fun c => email c <> ""%string) acc ->
    forall cs, result r = Ret cs -> Forall (fun c => email c <> ""%string) cs));
    cbn [result]; try (intros; congruence).
  - intros page tp acc n r _ _ IH Hacc cs Hr. by apply IH.
  - intros page tp acc n tp' acc' r _ Hh IH Hacc cs Hr.
    apply IH; [|done]. by eapply handled_emails.
Qed.


Lemma fetch_loop_within_limit limit fuel page tp acc n :
  (forall p, test_limit_reached test_mode_pages p = Ret (limit <? p)
             \/ exists e, test_limit_reached test_mode_pages p = Raise e) ->
  Forall (fun q => exists p, q = query p /\ page <= p <= limit)
    (requests_of (events (loop fuel page tp acc srv n))).
Proof.
  intros Hlimit. revert fuel page tp acc n.
  assert (Hin : forall p, test_limit_reached test_mode_pages p = Ret false -> p <= limit).
  { intros p Hp. destruct (Hlimit p) as [H|[e H]]; rewrite H in Hp; [|done].
    injection Hp as Hp. by apply Z.ltb_ge in Hp. }
  apply (fetch_loop_run_ind (fun page tp acc n r =>
    Forall (fun q => exists p, q = query p /\ page <= p <= limit)
      (requests_of (events r)))); cbn [events].
  - by constructor.
  - by constructor.
  - by constructor.
  - intros page tp acc n e Hl _. rewrite requests_of_call. constructor; [|done].
    exists page. split; [done|]. specialize (Hin page Hl). lia.
  - intros page tp acc n Hl _. rewrite requests_of_call.
    constructor; [|done]. exists page. split; [done|]. specialize (Hin page Hl). lia.
  - intros page tp acc n r Hl _ IH. rewrite events_after. cbn [app].
    rewrite requests_of_call, requests_of_sleep. constructor; [|done].
    exists page. split; [done|]. specialize (Hin page Hl). lia.
  - intros page tp acc n tp' acc' r Hl _ IH. rewrite events_after. cbn [app].
    rewrite requests_of_call, requests_of_sleep. constructor.
    + exists page. split; [done|]. specialize (Hin page Hl). lia.
    + eapply Forall_impl; [exact IH|]. intros q (p & -> & Hp). exists p.
      split; [done|lia].
Qed.

(** A request whose answer makes the [try] statement raise, whatever the
    loop holds at that point, is the last one of the run, and the run ends
    with that exception. *)
Lemma fetch_loop_abort fuel : forall page tp acc n k q e,
  requests_of (events (loop fuel page tp acc srv n)) !! k = Some q ->
  (forall tp acc, handled (srv (n + k)%nat q) tp acc = Raise e) ->
  result (loop fuel page tp acc srv n) = Raise e
  /\ calls (loop fuel page tp acc srv n) = S (n + k).
Proof.
  induction fuel as [|fuel IH]; intros page tp acc n k q e Hk Hq; [done|].
  rewrite fetch_loop_unfold in Hk |- *.
  destruct (test_limit_reached test_mode_pages page) as [[|]|e0|]; [done| |done..].
  rewrite events_after, <- app_comm_cons, requests_of_call in Hk.
  rewrite result_after. change (calls (after ?ev ?r)) with (calls r).
  destruct k as [|k].
  { injection Hk as <-. rewrite Nat.add_0_r in Hq |- *. by rewrite Hq. }
  cbn [lookup list_lookup] in Hk. rewrite requests_of_app in Hk.
  replace (n + S k)%nat with (S n + k)%nat in * by lia.
  assert (Hsl : requests_of (pause (handled (srv n (query page)) tp acc)) = []).
  { by destruct (handled _ _ _) as [[| |]| |]. }
  rewrite Hsl in Hk. cbn [app] in Hk.
  destruct (handled (srv n (query page)) tp acc) as [[| |tp' acc']|e0|];
    [|done| |done..]; by apply (IH _ _ _ (S n) k q e).
Qed.

End FetchInvariants.

Section FetchBounds.
Import Apollo.
Variables (api_key list_id : string) (test_mode_pages : option string).
Variable srv : server.

Local Notation "'loop'" := (fetch_loop api_key list_id test_mode_pages).
Local Notation "'query'" := (search api_key list_id).


Lemma fetch_loop_rate_limited_forever page tp acc :
  test_limit_reached test_mode_pages page = Ret false ->
  (forall n, exists b, srv n (query page) = Http 429 b) ->
  forall fuel n,
  loop fuel page tp acc srv n
    = Run OutOfFuel (concat (replicate fuel [Call (query page); Sleep 900]))
        (n + fuel)%nat.
Proof.
  intros Hl Hsrv. induction fuel as [|fuel IH]; intros n.
  { cbn. f_equal. lia. }
  destruct (Hsrv n) as [b Hb].
  rewrite fetch_loop_unfold, Hl, Hb, (handled_http_error 429 b) by done.
  cbn [Z.eqb Pos.eqb pause]. rewrite IH.
  unfold after. cbn. f_equal. lia.
Qed.

End FetchBounds.

Lemma fetch_configuration_cases env :
  (exists msg, forall fuel srv n,
     Apollo.fetch_all_contacts_from_list env fuel srv n
       = Run (Raise (ValueError msg)) [] n)
  \/ (exists api_key list_id,
        getenv env "APOLLO_API_KEY" = Some api_key /\ api_key <> ""%string
        /\ getenv env "APOLLO_LIST_ID" = Some list_id /\ list_id <> ""%string
        /\ Apollo.contains "REPLACE_WITH" list_id = false
        /\ forall fuel,
             Apollo.fetch_all_contacts_from_list env fuel
               = Apollo.fetch_loop api_key list_id (getenv env "TEST_MODE_PAGES")
                   fuel 1 None []).
Proof.
  destruct (api_key_cases env "APOLLO_API_KEY") as [Hk|(key & Hk & Hk')].
  { left. exists "Missing Apollo credentials"%string. intros fuel srv n.
    unfold Apollo.fetch_all_contacts_from_list. by rewrite Hk. }
  destruct (api_key_cases env "APOLLO_LIST_ID") as [Hl|(lid & Hl & Hl')].
  { left. exists "Missing Apollo credentials"%string. intros fuel srv n.
    unfold Apollo.fetch_all_contacts_from_list. rewrite Hl. by rewrite orb_true_r. }
  destruct (Apollo.contains "REPLACE_WITH" lid) eqn:Hc.
  { left. exists "Please replace APOLLO_LIST_ID placeholder"%string. intros fuel srv n.
    unfold Apollo.fetch_all_contacts_from_list. rewrite Hk, Hl. cbn [truthy default].
    destruct (String.eqb_spec key ""); [done|].
    destruct (String.eqb_spec lid ""); [done|]. cbn [negb orb].
    change (Datatypes.id lid) with lid. by rewrite Hc. }
  right. exists key, lid. repeat (split; [done|]). intros fuel.
  by apply fetch_with_credentials.
Qed.

Lemma int_of_string_raises s e :
  Apollo.int_of_string s = Raise e -> exists msg, e = ValueError msg.
Proof.
  unfold Apollo.int_of_string.
  destruct (_ ≫= _) as [chars|]; [|intros [= <-]; by eexists].
  destruct (match Apollo.lstrip chars with [] => _ | _ => _ end) as [negative unsigned].
  destruct (Apollo.digit_run false unsigned) as [[[|d digits] rest]|];
    [intros [= <-]; by eexists| |intros [= <-]; by eexists].
  destruct (Apollo.lstrip rest); [|intros [= <-]; by eexists].
  destruct (_ <? _)%nat; [intros [= <-]; by eexists|done].
Qed.

(** A configuration error is raised before anything is requested: a
    missing or empty API key or list identifier, a list identifier still
    holding the placeholder, and a page limit that [int] does not accept. *)
Theorem fetch_configuration_errors env fuel srv :
  let r := Apollo.fetch_all_contacts_from_list env (S fuel) srv 0%nat in
  (truthy (getenv env "APOLLO_API_KEY") = false
   \/ truthy (getenv env "APOLLO_LIST_ID") = false
   \/ (exists list_id, getenv env "APOLLO_LIST_ID" = Some list_id
         /\ Apollo.contains "REPLACE_WITH" list_id = true)
   \/ (exists limit e, getenv env "TEST_MODE_PAGES" = Some limit
         /\ limit <> ""%string /\ Apollo.int_of_string limit = Raise e)) ->
  exists msg, r = Run (Raise (ValueError msg)) [] 0%nat.
Proof.
  intros r Hbad. subst r.
  destruct (fetch_configuration_cases env)
    as [[msg Hmsg]|(key & lid & Hk & Hk' & Hl & Hl' & Hc & Hrun)].
  { exists msg. apply Hmsg. }
  assert (Htruthy : forall v, v <> ""%string -> truthy (Some v) = true)
    by (intros v Hv; cbn; by destruct (String.eqb_spec v "")).
  destruct Hbad as [H|[H|[(l & H1 & H2)|(limit & e & H1 & H2 & H3)]]].
  - rewrite Hk, Htruthy in H; done.
  - rewrite Hl, Htruthy in H; done.
  - congruence.
  - rewrite Hrun, H1. destruct (int_of_string_raises limit e H3) as [msg ->].
    exists msg. rewrite fetch_loop_unfold. unfold Apollo.test_limit_reached.
    by rewrite Htruthy, H3.
Qed.

Lemma fetch_configuration_errors_witness :
  let env : gmap string string :=
    {[ "APOLLO_API_KEY"%string := "key"%string;
       "APOLLO_LIST_ID"%string := "list-1"%string;
       "TEST_MODE_PAGES"%string := "two"%string ]} in
  exists msg,
    Apollo.fetch_all_contacts_from_list env 1 (Apollo.paged_server []) 0%nat
      = Run (Raise (ValueError msg)) [] 0%nat.
Proof.
  intros env.
  apply (fetch_configuration_errors env 0 (Apollo.paged_server [])).
  right. right. right. eexists "two"%string, _.
  split; [reflexivity|]. split; [discriminate|]. vm_compute. reflexivity.
Defined.

(** No contact with an empty e-mail is ever returned, whatever the source
    sends. *)
Theorem fetch_keeps_only_contacts_with_email env fuel srv contacts :
  result (Apollo.fetch_all_contacts_from_list env fuel srv 0%nat) = Ret contacts ->
  Forall (fun c => email c <> ""%string) contacts.
Proof.
  destruct (fetch_configuration_cases env)
    as [[msg Hmsg]|(key & lid & _ & _ & _ & _ & _ & Hrun)].
  { by rewrite Hmsg. }
  rewrite Hrun. by apply fetch_loop_emails.
Qed.

Lemma fetch_keeps_only_contacts_with_email_witness :
  let env : gmap string string :=
    {[ "APOLLO_API_KEY"%string := "key"%string;
       "APOLLO_LIST_ID"%string := "list-1"%string ]} in
  let raw e := RawContact None None None e Absent None in
  let person e := Contact None "" "" e "" "" "" "" in
  Forall (fun c => email c <> ""%string) [person "a@x.com"; person "b@x.com"]%string.
Proof.
  intros env raw person.
  apply (fetch_keeps_only_contacts_with_email env 3
           (Apollo.paged_server
              [[raw (Some "a@x.com"); raw None]; [raw (Some ""); raw (Some "b@x.com")]]%string)).
  vm_compute. reflexivity.
Defined.


(** With a page limit [k] in TEST_MODE_PAGES no page beyond [k] is ever
    requested. *)
Theorem fetch_test_mode_limit env limit k fuel srv :
  getenv env "TEST_MODE_PAGES" = Some limit -> limit <> ""%string ->
  Apollo.int_of_string limit = Ret k ->
  Forall (fun q => exists api_key list_id page,
            q = ApolloSearch api_key [list_id] 100 page /\ 1 <= page <= k)
    (requests_of (events (Apollo.fetch_all_contacts_from_list env fuel srv 0%nat))).
Proof.
  intros Hlimit Hne Hint.
  destruct (fetch_configuration_cases env)
    as [[msg Hmsg]|(key & lid & _ & _ & _ & _ & _ & Hrun)].
  { rewrite Hmsg. constructor. }
  rewrite Hrun, Hlimit.
  eapply Forall_impl; [apply (fetch_loop_within_limit key lid (Some limit) srv k)|].
  - intros p. left. unfold Apollo.test_limit_reached. rewrite Hint.
    cbn. by destruct (String.eqb_spec limit "").
  - intros q (p & -> & Hp). by exists key, lid, p.
Qed.

Lemma fetch_test_mode_limit_witness :
  let env : gmap string string :=
    {[ "APOLLO_API_KEY"%string := "key"%string;
       "APOLLO_LIST_ID"%string := "list-1"%string;
       "TEST_MODE_PAGES"%string := "2"%string ]} in
  let raw := RawContact None None None (Some "a@x.com"%string) Absent None in
  Forall (fun q => exists api_key list_id page,
            q = ApolloSearch api_key [list_id] 100 page /\ 1 <= page <= 2)
    (requests_of (events (Apollo.fetch_all_contacts_from_list env 9
                            (Apollo.paged_server [[raw]; [raw]; [raw]; [raw]]) 0%nat))).
Proof.
  intros env raw.
  apply (fetch_test_mode_limit env "2" 2 9
           (Apollo.paged_server [[raw]; [raw]; [raw]; [raw]])).
  - reflexivity.
  - discriminate.
  - reflexivity.
Defined.



(** The retry after a rate-limit response has no bound: against a source
    that answers every request for page 1 with HTTP 429 the fetch never
    returns and never raises, it sleeps 900 s and asks again. *)
Theorem fetch_rate_limited_forever env api_key list_id srv :
  getenv env "APOLLO_API_KEY" = Some api_key -> api_key <> ""%string ->
  getenv env "APOLLO_LIST_ID" = Some list_id -> list_id <> ""%string ->
  Apollo.contains "REPLACE_WITH" list_id = false ->
  Apollo.test_limit_reached (getenv env "TEST_MODE_PAGES") 1 = Ret false ->
  (forall n, exists b, srv n (Apollo.search api_key list_id 1) = Http 429 b) ->
  forall fuel,
  Apollo.fetch_all_contacts_from_list env fuel srv 0%nat
    = Run OutOfFuel
        (concat (replicate fuel
                   [Call (ApolloSearch api_key [list_id] 100 1); Sleep 900]))
        fuel.
Proof.
  intros Hk Hk' Hl Hl' Hc Hlimit Hsrv fuel.
  rewrite (fetch_with_credentials env api_key list_id) by done.
  by rewrite (fetch_loop_rate_limited_forever api_key list_id _ srv 1 None []).
Qed.

Lemma fetch_rate_limited_forever_witness :
  let env : gmap string string :=
    {[ "APOLLO_API_KEY"%string := "key"%string;
       "APOLLO_LIST_ID"%string := "list-1"%string ]} in
  Apollo.fetch_all_contacts_from_list env 3 (always (Http 429 NotJson)) 0%nat
    = Run OutOfFuel
        (concat (replicate 3
                   [Call (ApolloSearch "key" ["list-1"%string] 100 1); Sleep 900]))
        3%nat.
Proof.
  intros env.
  apply (fetch_rate_limited_forever env "key" "list-1" (always (Http 429 NotJson)));
    try first [reflexivity | discriminate].
  intros n. by exists NotJson.
Defined.

Lemma Forall2_elem_of_r {A B} (P : A -> B -> Prop) l k y :
  Forall2 P l k -> y ∈ k -> exists x, x ∈ l /\ P x y.
Proof.
  induction 1 as [|x y' l k Hxy _ IH]; intros Hy; [by apply elem_of_nil in Hy|].
  apply elem_of_cons in Hy as [->|Hy].
  - exists x. split; [by left|done].
  - destruct (IH Hy) as (x' & Hx' & HP). exists x'. split; [by right|done].
Qed.

Lemma handled_unreadable status b c total_pages acc :
  is_http_error status = false -> b <> NotJson ->
  c ∈ Apollo.contacts_of b -> truthy (raw_email c) = true ->
  raw_organization c = NotObject ->
  Apollo.handled (Http status b) total_pages acc
    = Raise (Wrapped "Unexpected error on page" AttributeError).
Proof.
  intros He Hb Hin Hmail Horg. unfold Apollo.handled. rewrite tried_json by done.
  destruct (read_total_pages_cases total_pages b)
    as [(_ & _ & ->)|(_ & tp & ->)]; [done|]. cbn [and_then].
  destruct (Apollo.contacts_of b) as [|c0 cs] eqn:Hcs; [by apply elem_of_nil in Hin|].
  cbn [nonempty negb].
  destruct (add_valid_contacts_cases (c0 :: cs) acc)
    as [(new & _ & Hnew)|[-> _]]; [|done].
  exfalso.
  assert (Hkept : c ∈ List.filter (fun c => truthy (raw_email c)) (c0 :: cs)).
  { apply list_elem_of_In, List.filter_In. split; [by apply list_elem_of_In|done]. }
  destruct (Forall2_elem_of_r _ _ _ _ Hnew Hkept) as (entry & _ & Hentry).
  destruct (normalize_cases c) as [[_ Hraise]|[Hok _]]; congruence.
Qed.

(** A request that gets no answer, or an answer that is not JSON, ends the
    fetch: it is the last request, and the fetch raises. *)
Theorem fetch_unusable_answer env fuel srv k q :
  let r := Apollo.fetch_all_contacts_from_list env fuel srv 0%nat in
  requests_of (events r) !! k = Some q ->
  (srv k q = NoResponse ->
   result r = Raise (Wrapped "Unexpected error on page" ConnectionError)
   /\ calls r = S k)
  /\ (forall status,
        srv k q = Http status NotJson -> is_http_error status = false ->
        result r = Raise (Wrapped "Unexpected error on page" JSONDecodeError)
        /\ calls r = S k).
Proof.
  intros r Hq. subst r.
  destruct (fetch_configuration_cases env)
    as [[msg Hmsg]|(key & lid & _ & _ & _ & _ & _ & Hrun)].
  { by rewrite Hmsg in Hq. }
  rewrite Hrun in Hq |- *. split.
  - intros Hsrv.
    apply (fetch_loop_abort key lid _ srv fuel 1 None [] 0%nat k q); [done|].
    intros tp acc. cbn [Nat.add]. by rewrite Hsrv.
  - intros status Hsrv He.
    apply (fetch_loop_abort key lid _ srv fuel 1 None [] 0%nat k q); [done|].
    intros tp acc. cbn [Nat.add]. rewrite Hsrv.
    unfold Apollo.handled, Apollo.tried. cbn [Apollo.json_of]. by rewrite He.
Qed.

Lemma fetch_unusable_answer_witness :
  let env : gmap string string :=
    {[ "APOLLO_API_KEY"%string := "key"%string;
       "APOLLO_LIST_ID"%string := "list-1"%string ]} in
  let raw := RawContact None None None (Some "a@x.com"%string) Absent None in
  let srv : server := fun n r =>
    if (n =? 1)%nat then Http 200 NotJson else Apollo.paged_server [[raw]; [raw]] n r in
  let r := Apollo.fetch_all_contacts_from_list env 5 srv 0%nat in
  (srv 1%nat (ApolloSearch "key" ["list-1"%string] 100 2) = NoResponse ->
   result r = Raise (Wrapped "Unexpected error on page" ConnectionError)
   /\ calls r = 2%nat)
  /\ (forall status,
        srv 1%nat (ApolloSearch "key" ["list-1"%string] 100 2) = Http status NotJson ->
        is_http_error status = false ->
        result r = Raise (Wrapped "Unexpected error on page" JSONDecodeError)
        /\ calls r = 2%nat).
Proof.
  intros env raw srv r.
  apply (fetch_unusable_answer env 5 srv 1 (ApolloSearch "key" ["list-1"%string] 100 2)).
  reflexivity.
Defined.

(** A record that has an e-mail and whose organization is [null] (or
    anything but an object) ends the fetch: the request that brought it is
    the last one, the fetch raises, and the contacts gathered so far are
    lost with it. *)
Theorem fetch_null_organization env fuel srv k q status b c :
  let r := Apollo.fetch_all_contacts_from_list env fuel srv 0%nat in
  requests_of (events r) !! k = Some q ->
  srv k q = Http status b -> is_http_error status = false -> b <> NotJson ->
  c ∈ Apollo.contacts_of b -> truthy (raw_email c) = true ->
  raw_organization c = NotObject ->
  result r = Raise (Wrapped "Unexpected error on page" AttributeError)
  /\ calls r = S k.
Proof.
  intros r Hq Hsrv He Hb Hin Hmail Horg. subst r.
  destruct (fetch_configuration_cases env)
    as [[msg Hmsg]|(key & lid & _ & _ & _ & _ & _ & Hrun)].
  { by rewrite Hmsg in Hq. }
  rewrite Hrun in Hq |- *.
  apply (fetch_loop_abort key lid _ srv fuel 1 None [] 0%nat k q); [done|].
  intros tp acc. cbn [Nat.add]. rewrite Hsrv. by eapply handled_unreadable.
Qed.

Lemma fetch_null_organization_witness :
  let env : gmap string string :=
    {[ "APOLLO_API_KEY"%string := "key"%string;
       "APOLLO_LIST_ID"%string := "list-1"%string ]} in
  let good := RawContact None None None (Some "a@x.com"%string) Absent None in
  let bad := RawContact None None None (Some "b@x.com"%string) NotObject None in
  let r := Apollo.fetch_all_contacts_from_list env 5
             (Apollo.paged_server [[good]; [good; bad]; [good]]) 0%nat in
  result r = Raise (Wrapped "Unexpected error on page" AttributeError)
  /\ calls r = 2%nat.
Proof.
  intros env good bad r.
  apply (fetch_null_organization env 5
           (Apollo.paged_server [[good]; [good; bad]; [good]]) 1
           (ApolloSearch "key" ["list-1"%string] 100 2) 200
           (ApolloPage (Object (Some 3)) (Some [good; bad])) bad).
  - reflexivity.
  - reflexivity.
  - reflexivity.
  - discriminate.
  - right. by left.
  - reflexivity.
  - reflexivity.
Defined.

(** ** reoon.py *)

Lemma chunks_fuel_concat {A} size : forall fuel (l : list A),
  (0 < size)%nat -> (length l <= fuel)%nat -> concat (chunks_fuel fuel size l) = l.
Proof.
  induction fuel as [|fuel IH]; intros [|a l] Hsize Hlen; try done.
  { cbn in Hlen. lia. }
  rewrite chunks_fuel_cons by done. cbn [concat].
  rewrite IH; [apply take_drop|done|].
  rewrite length_drop. cbn [length] in *. lia.
Qed.

Lemma chunks_fuel_sizes {A} size : forall fuel (l : list A),
  (0 < size)%nat ->
  Forall (fun b => (0 < length b <= size)%nat) (chunks_fuel fuel size l).
Proof.
  induction fuel as [|fuel IH]; intros [|a l] Hsize; try by constructor.
  rewrite chunks_fuel_cons by done. constructor; [|by apply IH].
  rewrite length_take. cbn [length]. lia.
Qed.

Section VerifyTraces.
Import Reoon.
Variables (key : string) (cmap : gmap string contact) (srv : server).

Lemma created_batches_app ev1 ev2 :
  created_batches (ev1 ++ ev2) = created_batches ev1 ++ created_batches ev2.
Proof. apply omap_app. Qed.

Lemma created_batches_polls k tid :
  created_batches (concat (replicate k [Sleep 10; Call (ReoonGetResult key tid)])) = [].
Proof. induction k as [|k IH]; [done|exact IH]. Qed.

Lemma created_batches_poll tries tid n :
  created_batches (events (poll tries key tid srv n)) = [].
Proof.
  destruct (poll_trace tries key tid srv n) as (k & _ & -> & _).
  apply created_batches_polls.
Qed.

(** One iteration of the loop over the batches: the ways it can end, and
    the way it goes on to the next batch. *)
Lemma verify_batches_step batch rest valid invalid n :
  let r := verify_batches key cmap (batch :: rest) valid invalid srv n in
  let q := ReoonCreateTask key batch in
  (exists e, r = Run (Raise e) [Call q] (S n)
     /\ (srv n q = NoResponse -> e = ConnectionError)
     /\ (forall status b, srv n q = Http status b -> is_http_error status = true ->
           e = HTTPError status))
  \/ (exists tid,
        (exists status b, srv n q = Http status b /\ is_http_error status = false)
        /\ let rp := poll max_tries key tid srv (S n) in
           (exists e, result rp = Raise e
              /\ r = Run (Raise e) (Call q :: events rp) (calls rp))
           \/ (exists rd, result rp = Ret rd
                 /\ ((exists e, r = Run (Raise e) (Call q :: events rp) (calls rp)
                        /\ exists k, e = KeyError k)
                     \/ (exists v1 i1,
                           r = after (Call q :: events rp ++ [Sleep 2])
                                 (verify_batches key cmap rest v1 i1 srv (calls rp)))))).
Proof.
  cbv zeta.
  destruct (create_cases srv n (ReoonCreateTask key batch))
    as [(status & b & tid & Hr & He & Hb & Hid & Hne)|Hbad].
  2:{ left. cbn [verify_batches]. rewrite bind_call.
      destruct (srv n (ReoonCreateTask key batch)) as [|status b].
      { eexists. split; [reflexivity|]. split; [done|]. by intros. }
      destruct (is_http_error status) eqn:He.
      { eexists. split; [reflexivity|]. split; [done|]. by intros ?? [= <- <-] _. }
      assert (Hno : forall e : exn, (Http status b = NoResponse -> e = ConnectionError)
                /\ (forall status0 b0, Http status b = Http status0 b0 ->
                      is_http_error status0 = true -> e = HTTPError status0)).
      { intros e. split; [done|]. intros ?? [= <- <-]. congruence. }
      destruct (body_json_cases b) as [->|Hb]; [eexists; split; [reflexivity|apply Hno]|].
      destruct (task_id_of b) as [tid|] eqn:Hid.
      - rewrite (Hbad status b tid eq_refl He Hb Hid). cbn.
        destruct b; (eexists; split; [reflexivity|apply Hno]).
      - cbn. destruct b; (eexists; split; [reflexivity|apply Hno]). }
  right. exists tid. split; [by exists status, b|].
  rewrite (verify_batches_created key cmap batch rest valid invalid srv n status b tid)
    by done.
  pose proof (poll_outcome max_tries key tid srv (S n)) as Hpoll.
  remember (poll max_tries key tid srv (S n)) as rp eqn:Hrp.
  destruct (result rp) as [rd|e|] eqn:Hres; [| |done].
  2:{ left. exists e. split; [done|].
      rewrite (bind_raise_run (poll max_tries key tid) _ srv (S n) e)
        by (rewrite <- Hrp; exact Hres).
      by rewrite <- Hrp. }
  right. exists rd. split; [done|].
  rewrite (bind_ret_run (poll max_tries key tid) _ srv (S n) rd)
    by (rewrite <- Hrp; exact Hres).
  rewrite <- Hrp.
  pose proof (process_results_cases cmap (results_of rd) valid invalid) as Hproc.
  destruct (process_results cmap (results_of rd) valid invalid)
    as [[v1 i1]|e|]; [| |done].
  - right. exists v1, i1. rewrite bind_lift_ret, bind_sleep, !after_after.
    by rewrite <- app_assoc.
  - left. exists e. rewrite bind_lift_raise. unfold after. cbn [result events calls].
    rewrite app_nil_r. destruct Hproc as (k & -> & _). split; [done|by exists k].
Qed.


(** A request of the polling loop that gets no response, or an error
    status, ends the loop with that error. *)
Lemma poll_request_error tries tid : forall n k q e,
  requests_of (events (poll tries key tid srv n)) !! k = Some q ->
  (srv (n + k)%nat q = NoResponse /\ e = ConnectionError)
  \/ (exists status b, srv (n + k)%nat q = Http status b
        /\ is_http_error status = true /\ e = HTTPError status) ->
  result (poll tries key tid srv n) = Raise e
  /\ calls (poll tries key tid srv n) = S (n + k).
Proof.
  induction tries as [|tries IH]; intros n k q e; [done|].
  rewrite poll_unfold, events_after, result_after, requests_of_app.
  change (requests_of [Sleep 10; Call (ReoonGetResult key tid)])
    with [ReoonGetResult key tid].
  change (calls (after ?ev ?r)) with (calls r).
  destruct k as [|k].
  { intros [= <-]. rewrite Nat.add_0_r.
    intros [[-> ->]|(status & b & -> & -> & ->)]; done. }
  cbn [lookup list_lookup]. replace (n + S k)%nat with (S n + k)%nat by lia.
  intros Hq Hbad.
  destruct (srv n (ReoonGetResult key tid)) as [|status b]; [done|].
  destruct (is_http_error status); [done|].
  assert (Hgo : requests_of
            (events (if completed b then Run (Ret b) [] (S n)
                     else poll tries key tid srv (S n))) !! k = Some q ->
          result (if completed b then Run (Ret b) [] (S n)
                  else poll tries key tid srv (S n)) = Raise e
          /\ calls (after [Sleep 10; Call (ReoonGetResult key tid)]
                      (if completed b then Run (Ret b) [] (S n)
                       else poll tries key tid srv (S n))) = S (S n + k)).
  { destruct (completed b); [done|]. intros H. by apply (IH (S n) k q e). }
  destruct b; first [done | by apply Hgo].
Qed.

(** The same for the whole loop over the batches. *)
Lemma verify_batches_request_error batches : forall valid invalid n k q e,
  requests_of (events (verify_batches key cmap batches valid invalid srv n)) !! k
    = Some q ->
  (srv (n + k)%nat q = NoResponse /\ e = ConnectionError)
  \/ (exists status b, srv (n + k)%nat q = Http status b
        /\ is_http_error status = true /\ e = HTTPError status) ->
  result (verify_batches key cmap batches valid invalid srv n) = Raise e
  /\ calls (verify_batches key cmap batches valid invalid srv n) = S (n + k).
Proof.
  induction batches as [|batch rest IH]; intros valid invalid n k q e; [done|].
  destruct (verify_batches_step batch rest valid invalid n)
    as [(e0 & -> & Hno & Herr)|(tid & (status & b & Hr & He) & Hstep)].
  { cbn [events result calls]. rewrite requests_of_call.
    destruct k as [|k]; [|done]. intros [= <-]. rewrite Nat.add_0_r.
    intros [[Hq ->]|(status & b & Hq & He & ->)].
    - by rewrite (Hno Hq).
    - by rewrite (Herr status b Hq He). }
  cbv zeta in Hstep.
  pose proof (poll_request_error max_tries tid (S n)) as Hpoll.
  pose proof (poll_counts max_tries key tid srv (S n)) as Hcount.
  remember (poll max_tries key tid srv (S n)) as rp eqn:Hrp. clear Hrp.
  assert (Hin_poll : forall k q,
            requests_of (Call (ReoonCreateTask key batch) :: events rp) !! k = Some q ->
            (srv (n + k)%nat q = NoResponse /\ e = ConnectionError)
            \/ (exists status b, srv (n + k)%nat q = Http status b
                  /\ is_http_error status = true /\ e = HTTPError status) ->
            result rp = Raise e /\ calls rp = S (n + k)).
  { intros k0 q0. rewrite requests_of_call. destruct k0 as [|k0].
    { intros [= <-]. rewrite Nat.add_0_r, Hr.
      intros [[? _]|(s1 & b1 & [= <- <-] & He1 & _)]; congruence. }
    intros Hq Hbad. rewrite lookup_cons in Hq.
    assert (Heq : (n + S k0)%nat = (S n + k0)%nat) by lia. rewrite Heq in Hbad.
    destruct (Hpoll k0 q0 e Hq Hbad) as [H1 H2]. split; [done|]. rewrite H2. lia. }
  destruct Hstep as [(e0 & Hres & ->)|(rd & Hres & [(e0 & -> & _)|(v1 & i1 & ->)])].
  - cbn [events result calls]. intros Hq Hbad.
    destruct (Hin_poll k q Hq Hbad) as [H1 H2]. split; [congruence|done].
  - cbn [events result calls]. intros Hq Hbad.
    destruct (Hin_poll k q Hq Hbad) as [H1 H2]. congruence.
  - rewrite events_after, result_after.
    change (calls (after ?ev ?r)) with (calls r).
    rewrite requests_of_app, app_comm_cons, requests_of_app.
    change (requests_of [Sleep 2]) with (@nil request). rewrite app_nil_r.
    intros Hq Hbad. apply lookup_app_Some in Hq as [Hq|[Hlen Hq]].
    { destruct (Hin_poll k q Hq Hbad) as [H1 H2]. congruence. }
    rewrite requests_of_call in Hlen, Hq. cbn [length] in Hlen, Hq.
    apply (IH v1 i1 (calls rp) _ q e) in Hq.
    + destruct Hq as [H1 H2]. split; [done|]. rewrite H2, Hcount. lia.
    + replace (calls rp + (k - S (length (requests_of (events rp)))))%nat
        with (n + k)%nat by (rewrite Hcount; lia).
      done.
Qed.

(** The task-creation requests go through the batches in order; when the
    loop returns it has gone through all of them. *)
Lemma verify_batches_created_batches batches : forall valid invalid n,
  let r := verify_batches key cmap batches valid invalid srv n in
  created_batches (events r) `prefix_of` batches
  /\ (forall vi, result r = Ret vi -> created_batches (events r) = batches).
Proof.
  induction batches as [|batch rest IH]; intros valid invalid n; cbv zeta.
  { split; [done|]. by intros. }
  destruct (verify_batches_step batch rest valid invalid n)
    as [(e0 & -> & _)|(tid & _ & Hstep)].
  { cbn. split; [|done]. by apply prefix_cons, prefix_nil. }
  cbv zeta in Hstep.
  pose proof (created_batches_poll max_tries tid (S n)) as Hpoll.
  remember (poll max_tries key tid srv (S n)) as rp eqn:Hrp. clear Hrp.
  assert (Hhead : created_batches (Call (ReoonCreateTask key batch) :: events rp)
                  = [batch]).
  { change (Call (ReoonCreateTask key batch) :: events rp)
      with ([Call (ReoonCreateTask key batch)] ++ events rp).
    by rewrite created_batches_app, Hpoll. }
  destruct Hstep as [(e0 & Hres & ->)|(rd & Hres & [(e0 & -> & _)|(v1 & i1 & ->)])].
  - cbn [events result]. rewrite Hhead. split; [|done]. by apply prefix_cons, prefix_nil.
  - cbn [events result]. rewrite Hhead. split; [|done]. by apply prefix_cons, prefix_nil.
  - rewrite events_after, result_after, app_comm_cons, !created_batches_app, Hhead.
    change (created_batches [Sleep 2]) with (@nil (list string)).
    destruct (IH v1 i1 (calls rp)) as [H1 H2]. split.
    + by apply prefix_cons.
    + intros vi Hvi. cbn. f_equal. by apply (H2 vi).
Qed.

End VerifyTraces.

Lemma contact_map_snoc contacts c :
  Reoon.contact_map (contacts ++ [c]) = <[email c := c]> (Reoon.contact_map contacts).
Proof. unfold Reoon.contact_map. by rewrite foldl_app. Qed.

(** The map keeps, for every e-mail, the last contact that carries it. *)
Lemma contact_map_last contacts e c :
  Reoon.contact_map contacts !! e = Some c ->
  exists before later,
    contacts = before ++ c :: later /\ email c = e /\ e ∉ email <$> later.
Proof.
  induction contacts as [|c' contacts IH] using rev_ind; [done|].
  rewrite contact_map_snoc. destruct (decide (email c' = e)) as [<-|Hne].
  - rewrite lookup_insert_eq. intros [= <-]. exists contacts, [].
    split; [done|]. split; [done|]. apply not_elem_of_nil.
  - rewrite lookup_insert_ne by done. intros Hc.
    destruct (IH Hc) as (before & later & -> & Hmail & Hlater).
    exists before, (later ++ [c']). split; [by rewrite <- app_assoc|].
    split; [done|]. rewrite fmap_app, elem_of_app. intros [?|Hin]; [done|].
    apply list_elem_of_singleton in Hin. congruence.
Qed.

Lemma prefix_concat {A} (l1 l2 : list (list A)) :
  l1 `prefix_of` l2 -> concat l1 `prefix_of` concat l2.
Proof. intros [k ->]. rewrite concat_app. by eexists. Qed.

(** With the key set, an empty list of contacts is not verified at all:
    no request is made and the success rate printed at the end divides by
    zero. *)
Theorem verify_emails_empty_list env srv n :
  truthy (getenv env "REOON_API_KEY") = true ->
  Reoon.verify_emails env [] srv n = Run (Raise ZeroDivisionError) [] n.
Proof.
  intros Hkey.
  destruct (api_key_cases env "REOON_API_KEY") as [H|(key & Hk & Hne)]; [congruence|].
  by rewrite (verify_emails_run env key [] srv n Hk Hne).
Qed.

Lemma verify_emails_empty_list_witness :
  Reoon.verify_emails {[ "REOON_API_KEY"%string := "key"%string ]} []
    (Reoon.scripted_service 0 []) 0%nat
  = Run (Raise ZeroDivisionError) [] 0%nat.
Proof.
  apply (verify_emails_empty_list {[ "REOON_API_KEY"%string := "key"%string ]}
           (Reoon.scripted_service 0 []) 0%nat).
  reflexivity.
Defined.

(** The e-mails are submitted for verification in batches of at most 100,
    in the order of the contacts and without gaps: the batches submitted
    so far always make up a prefix of the contacts' e-mails, and when the
    verification returns every e-mail has been submitted exactly once. *)
Theorem verify_emails_batches env contacts srv :
  let r := Reoon.verify_emails env contacts srv 0%nat in
  let submitted := Reoon.created_batches (events r) in
  Forall (fun batch => (0 < length batch <= 100)%nat) submitted
  /\ concat submitted `prefix_of` (email <$> contacts)
  /\ (forall vi, result r = Ret vi -> concat submitted = email <$> contacts).
Proof.
  cbv zeta.
  destruct (api_key_cases env "REOON_API_KEY") as [H|(key & Hk & Hne)].
  { rewrite verify_emails_no_key by done. cbn. split; [constructor|].
    split; [apply prefix_nil|done]. }
  rewrite (verify_emails_run env key contacts srv 0%nat Hk Hne). cbn [events result].
  destruct (verify_batches_created_batches key (Reoon.contact_map contacts) srv
              (chunks_fuel (length (email <$> contacts)) 100 (email <$> contacts))
              [] [] 0%nat) as [Hprefix Hall].
  cbv zeta in Hprefix, Hall.
  remember (Reoon.verify_batches key (Reoon.contact_map contacts)
              (chunks_fuel (length (email <$> contacts)) 100 (email <$> contacts))
              [] [] srv 0%nat) as rb eqn:Hrb. clear Hrb.
  assert (Hconcat : concat (chunks_fuel (length (email <$> contacts)) 100
                              (email <$> contacts)) = email <$> contacts)
    by (apply chunks_fuel_concat; lia).
  split; [|split].
  - destruct Hprefix as [k Hk']. 
    pose proof (chunks_fuel_sizes 100 (length (email <$> contacts))
                  (email <$> contacts) ltac:(lia)) as Hsizes.
    rewrite Hk' in Hsizes. by apply Forall_app in Hsizes as [? _].
  - rewrite <- Hconcat. by apply prefix_concat.
  - intros vi Hvi. destruct (result rb) as [vi'| |] eqn:Hres; [|done..].
    rewrite (Hall vi' eq_refl). exact Hconcat.
Qed.

(** A request to the verification service that gets no response makes the
    first [except] clause fail on the missing response: the verification
    raises [AttributeError].  An error status is re-raised as an
    [Exception].  In both cases it is the last request. *)
Theorem verify_emails_request_error env contacts srv k q :
  let r := Reoon.verify_emails env contacts srv 0%nat in
  requests_of (events r) !! k = Some q ->
  (srv k q = NoResponse -> result r = Raise AttributeError /\ calls r = S k)
  /\ (forall status b,
        srv k q = Http status b -> is_http_error status = true ->
        result r = Raise (Wrapped "Reoon API request failed" (HTTPError status))
        /\ calls r = S k).
Proof.
  cbv zeta.
  destruct (api_key_cases env "REOON_API_KEY") as [H|(key & Hk & Hne)].
  { by rewrite verify_emails_no_key by done. }
  rewrite (verify_emails_run env key contacts srv 0%nat Hk Hne). cbn [events result calls].
  intros Hq.
  pose proof (verify_batches_request_error key (Reoon.contact_map contacts) srv
                (chunks_fuel (length (email <$> contacts)) 100 (email <$> contacts))
                [] [] 0%nat k q) as Herr.
  cbn [Nat.add] in Herr.
  remember (Reoon.verify_batches key (Reoon.contact_map contacts)
              (chunks_fuel (length (email <$> contacts)) 100 (email <$> contacts))
              [] [] srv 0%nat) as rb eqn:Hrb. clear Hrb.
  split.
  - intros Hsrv. destruct (Herr ConnectionError Hq) as [-> ->]; [by left|done].
  - intros status b Hsrv He.
    destruct (Herr (HTTPError status) Hq) as [-> ->]; [|done].
    right. by exists status, b.
Qed.

Lemma verify_emails_request_error_witness :
  let env : gmap string string := {[ "REOON_API_KEY"%string := "key"%string ]} in
  let person e := Contact None "" "" e "" "" "" "" in
  let srv : server := fun n r =>
    if (n =? 1)%nat then Http 503 NotJson else Reoon.scripted_service 0 [] n r in
  let r := Reoon.verify_emails env [person "a@x.com"]%string srv 0%nat in
  (srv 1%nat (ReoonGetResult "key" "task-1") = NoResponse ->
   result r = Raise AttributeError /\ calls r = 2%nat)
  /\ (forall status b,
        srv 1%nat (ReoonGetResult "key" "task-1") = Http status b ->
        is_http_error status = true ->
        result r = Raise (Wrapped "Reoon API request failed" (HTTPError status))
        /\ calls r = 2%nat).
Proof.
  intros env person srv r.
  apply (verify_emails_request_error env [person "a@x.com"]%string srv 1
           (ReoonGetResult "key" "task-1")).
  reflexivity.
Defined.

(** What the verification returns comes from what was submitted: every
    valid contact is one of the submitted contacts, unchanged, and where
    several contacts share its e-mail it is the last of them; every
    invalid entry names the e-mail of a submitted contact. *)
Theorem verify_emails_returns_submitted env contacts srv valid invalid :
  result (Reoon.verify_emails env contacts srv 0%nat) = Ret (valid, invalid) ->
  (forall c, c ∈ valid ->
     exists before later,
       contacts = before ++ c :: later /\ email c ∉ email <$> later)
  /\ (forall i, i ∈ invalid -> Reoon.inv_email i ∈ email <$> contacts).
Proof.
  destruct (api_key_cases env "REOON_API_KEY") as [H|(key & Hk & Hne)].
  { by rewrite verify_emails_no_key by done. }
  rewrite (verify_emails_run env key contacts srv 0%nat Hk Hne). cbn [result].
  pose proof (verify_batches_outcome key (Reoon.contact_map contacts) srv
                (chunks_fuel (length (email <$> contacts)) 100 (email <$> contacts))
                [] [] 0%nat) as Hout.
  cbv zeta in Hout.
  remember (Reoon.verify_batches key (Reoon.contact_map contacts)
              (chunks_fuel (length (email <$> contacts)) 100 (email <$> contacts))
              [] [] srv 0%nat) as rb eqn:Hrb. clear Hrb.
  destruct (result rb) as [[v i]|e|]; [|done..].
  destruct (length contacts =? 0)%nat; [done|]. intros [= -> ->].
  destruct Hout as (Hknown & (vs & -> & Hvs) & ->). cbn [app].
  remember (Reoon.task_results srv 0 (events rb)) as returned eqn:Hret. clear Hret.
  split.
  - intros c Hc.
    assert (Hlook : exists ev : string * verification,
              Reoon.contact_map contacts !! ev.1 = Some c).
    { assert (Hsome : Some c ∈ Some <$> vs) by (by apply list_elem_of_fmap_2).
      rewrite Hvs in Hsome.
      apply list_elem_of_fmap in Hsome as (ev & Hev & _). by exists ev. }
    destruct Hlook as [ev Hev].
    destruct (contact_map_last contacts ev.1 c Hev) as (before & later & -> & <- & Hlater).
    by exists before, later.
  - intros i Hi. apply list_elem_of_fmap in Hi as (ev & -> & Hev). cbn.
    apply list_elem_of_In, List.filter_In in Hev as [Hev _].
    apply list_elem_of_In in Hev.
    rewrite Forall_forall in Hknown. destruct (Hknown ev Hev) as [c Hc].
    destruct (contact_map_Some contacts ev.1 c Hc) as [<- Hin].
    by apply list_elem_of_fmap_2.
Qed.

Lemma verify_emails_returns_submitted_witness :
  let person n e := Contact None n "" e "" "" "" "" in
  let contacts := [person "first" "a@x.com"; person "second" "a@x.com"]%string in
  (forall c, c ∈ [person "second" "a@x.com"]%string ->
     exists before later,
       contacts = before ++ c :: later /\ email c ∉ email <$> later)
  /\ (forall i, i ∈ @nil Reoon.invalid_contact ->
        Reoon.inv_email i ∈ email <$> contacts).
Proof.
  intros person contacts.
  apply (verify_emails_returns_submitted
           {[ "REOON_API_KEY"%string := "key"%string ]} contacts
           (Reoon.scripted_service 0
              [("a@x.com"%string, Verification true true (Some "safe"%string) (Some 98))])).
  vm_compute. reflexivity.
Defined.

(** ** instantly.py *)

Section UploadTraces.
Import Instantly.

Lemma sent_leads_app ev1 ev2 :
  sent_leads (ev1 ++ ev2) = sent_leads ev1 ++ sent_leads ev2.
Proof. unfold sent_leads. by rewrite requests_of_app, bind_app. Qed.

Lemma leads_in_upload_request api_key (leads : list lead) :
  leads_in (upload_request api_key leads) = leads.
Proof. by destruct leads as [|l [|l' leads]]. Qed.

Lemma leads_sent_length q : leads_sent q = Z.of_nat (length (leads_in q)).
Proof. by destruct q. Qed.

Lemma sent_leads_upload_batch api_key campaign_id batch total srv n :
  sent_leads (events (upload_batch api_key campaign_id batch total srv n))
    = lead_data campaign_id <$> batch.
Proof.
  rewrite upload_batch_run. cbv zeta.
  destruct (srv n _) as [|status b]; unfold sent_leads; cbn [events];
    rewrite requests_of_call, ?requests_of_sleep, bind_cons, leads_in_upload_request;
    apply app_nil_r.
Qed.

Lemma upload_batch_returns api_key campaign_id batch total srv n :
  exists total',
    result (upload_batch api_key campaign_id batch total srv n) = Ret total'.
Proof.
  rewrite upload_batch_run. cbv zeta. destruct (srv n _); by eexists.
Qed.

Lemma sent_leads_upload_batches api_key campaign_id srv batches : forall total n,
  sent_leads (events (upload_batches api_key campaign_id batches total srv n))
    = lead_data campaign_id <$> concat batches.
Proof.
  induction batches as [|batch rest IH]; intros total n; [done|].
  cbn [upload_batches].
  destruct (upload_batch_returns api_key campaign_id batch total srv n) as [t Ht].
  rewrite (bind_ret_run (upload_batch api_key campaign_id batch total) _ srv n t Ht).
  rewrite events_after, sent_leads_app, sent_leads_upload_batch, IH.
  cbn [concat]. by rewrite fmap_app.
Qed.

Lemma upload_batches_returns api_key campaign_id srv batches : forall total n,
  exists total',
    result (upload_batches api_key campaign_id batches total srv n) = Ret total'.
Proof.
  induction batches as [|batch rest IH]; intros total n; [by eexists|].
  cbn [upload_batches].
  destruct (upload_batch_returns api_key campaign_id batch total srv n) as [t Ht].
  rewrite (bind_ret_run (upload_batch api_key campaign_id batch total) _ srv n t Ht).
  rewrite result_after. apply IH.
Qed.

(** The leads a mapping entry gives rise to: those of its contacts, for
    the campaign of its key, when the key has one. *)
Lemma sent_leads_push_campaigns env api_key batch_size srv items :
  0 < batch_size ->
  (forall key cid, campaign_id_of env key = Some cid -> cid <> ""%string) ->
  forall total n,
  sent_leads (events (push_campaigns env api_key batch_size items total srv n))
    = items ≫= fun kv =>
        match campaign_id_of env kv.1 with
        | Some cid => lead_data cid <$> kv.2
        | None => []
        end.
Proof.
  intros Hsize Hids. induction items as [|[key contacts] rest IH]; intros total n;
    [done|].
  cbn [push_campaigns mbind list_bind fst snd].
  destruct (campaign_id_of env key) as [cid|] eqn:Hcid; [|apply IH].
  pose proof (Hids key cid Hcid) as Hne. cbn [truthy default].
  destruct (String.eqb_spec cid ""); [done|]. cbn [negb].
  destruct contacts as [|c contacts]; [apply IH|]. cbn [nonempty negb].
  unfold batches. destruct (Z.eqb_spec batch_size 0); [lia|].
  destruct (Z.ltb_spec batch_size 0); [lia|].
  rewrite bind_lift_ret.
  set (bs := chunks_fuel (length (c :: contacts)) (Z.to_nat batch_size) (c :: contacts)).
  destruct (upload_batches_returns api_key cid srv bs total n) as [t Ht].
  rewrite (bind_ret_run (upload_batches api_key cid bs total) _ srv n t Ht).
  rewrite events_after, sent_leads_app, sent_leads_upload_batches, IH.
  f_equal. f_equal. apply chunks_fuel_concat; lia.
Qed.

Lemma uploaded_bounds srv ev : forall n,
  0 <= uploaded srv n ev <= Z.of_nat (length (sent_leads ev)).
Proof.
  induction ev as [|[q|s] ev IH]; intros n; cbn [uploaded]; [done| |apply IH].
  change (sent_leads (Call q :: ev)) with (leads_in q ++ sent_leads ev).
  rewrite length_app, Nat2Z.inj_add. specialize (IH (S n)).
  assert (0 <= accepted q (srv n q) <= Z.of_nat (length (leads_in q))).
  { unfold accepted. rewrite leads_sent_length.
    destruct (srv n q) as [|status b]; [lia|]. destruct (created status); lia. }
  lia.
Qed.

Lemma uploaded_all srv ev : forall n,
  (forall k q, exists status b, srv k q = Http status b /\ created status = true) ->
  uploaded srv n ev = Z.of_nat (length (sent_leads ev)).
Proof.
  intros n Hsrv. revert n.
  induction ev as [|[q|s] ev IH]; intros n; cbn [uploaded]; [done| |apply IH].
  change (sent_leads (Call q :: ev)) with (leads_in q ++ sent_leads ev).
  rewrite length_app, Nat2Z.inj_add, IH. f_equal.
  destruct (Hsrv n q) as (status & b & -> & Hc). unfold accepted.
  by rewrite Hc, leads_sent_length.
Qed.

End UploadTraces.

Lemma campaign_ids_nonempty env :
  Instantly.credentials_ok env = true ->
  forall key cid, Instantly.campaign_id_of env key = Some cid -> cid <> ""%string.
Proof.
  intros Hok key cid. apply credentials_ok_true in Hok as (_ & Ha & Hb).
  unfold Instantly.campaign_id_of.
  destruct (String.eqb key "campaign_a").
  { intros H. rewrite H in Ha. cbn in Ha. by destruct (String.eqb_spec cid ""). }
  destruct (String.eqb key "campaign_b"); [|done].
  intros H. rewrite H in Hb. cbn in Hb. by destruct (String.eqb_spec cid "").
Qed.

Lemma push_with_credentials env contacts_split batch_size :
  Instantly.credentials_ok env = true ->
  Instantly.push_to_instantly env contacts_split batch_size
    = Instantly.push_campaigns env (default ""%string (getenv env "INSTANTLY_API_KEY"))
        batch_size contacts_split 0.
Proof. intros Hok. unfold Instantly.push_to_instantly. by rewrite Hok. Qed.

(** With the credentials set and a positive batch size, every contact
    filed under [campaign_a] or [campaign_b] is sent exactly once, in the
    order of the mapping, as a lead of its campaign, whatever the platform
    answers: a failed batch is neither sent again nor a reason to stop.
    Contacts under any other key are not sent. *)
Theorem push_sends_every_contact_once env contacts_split batch_size srv :
  Instantly.credentials_ok env = true -> 0 < batch_size ->
  Instantly.sent_leads
    (events (Instantly.push_to_instantly env contacts_split batch_size srv 0%nat))
  = contacts_split ≫= fun kv =>
      match Instantly.campaign_id_of env kv.1 with
      | Some campaign_id => Instantly.lead_data campaign_id <$> kv.2
      | None => []
      end.
Proof.
  intros Hok Hsize. rewrite push_with_credentials by done.
  apply sent_leads_push_campaigns; [done|by apply campaign_ids_nonempty].
Qed.

Lemma push_sends_every_contact_once_witness :
  let env : gmap string string :=
    {[ "INSTANTLY_API_KEY"%string := "key"%string;
       "CAMPAIGN_PRIMARY_ID"%string := "primary"%string;
       "CAMPAIGN_SECONDARY_ID"%string := "secondary"%string ]} in
  let person e := Contact None "" "" e "" "" "" "" in
  let split := [("campaign_a", [person "a@x.com"; person "b@x.com"; person "c@x.com"]);
                ("other", [person "d@x.com"]);
                ("campaign_b", [person "e@x.com"])]%string in
  Instantly.sent_leads
    (events (Instantly.push_to_instantly env split 2
               (Instantly.scripted_platform (fun _ => 500) []) 0%nat))
  = split ≫= fun kv =>
      match Instantly.campaign_id_of env kv.1 with
      | Some campaign_id => Instantly.lead_data campaign_id <$> kv.2
      | None => []
      end.
Proof.
  intros env person split.
  apply (push_sends_every_contact_once env split 2
           (Instantly.scripted_platform (fun _ => 500) [])).
  - reflexivity.
  - lia.
Defined.

(** The number returned lies between zero and the number of contacts
    filed under the two campaigns; it is that number when every request is
    answered with 200 or 201. *)
Theorem push_total_bounds env contacts_split batch_size srv :
  Instantly.credentials_ok env = true -> 0 < batch_size ->
  let sendable := contacts_split ≫= fun kv =>
    match Instantly.campaign_id_of env kv.1 with
    | Some _ => kv.2
    | None => []
    end in
  exists total,
    result (Instantly.push_to_instantly env contacts_split batch_size srv 0%nat)
      = Ret total
    /\ 0 <= total <= Z.of_nat (length sendable)
    /\ ((forall k q, exists status b,
           srv k q = Http status b /\ Instantly.created status = true) ->
        total = Z.of_nat (length sendable)).
Proof.
  intros Hok Hsize sendable.
  pose proof (push_sends_every_contact_once env contacts_split batch_size srv Hok Hsize)
    as Hsent.
  assert (Hlen : length (contacts_split ≫= fun kv =>
                    match Instantly.campaign_id_of env kv.1 with
                    | Some campaign_id => Instantly.lead_data campaign_id <$> kv.2
                    | None => []
                    end) = length sendable).
  { subst sendable. clear. induction contacts_split as [|kv rest IH]; [done|].
    cbn [mbind list_bind]. rewrite !length_app, IH. f_equal.
    destruct (Instantly.campaign_id_of env kv.1); [apply length_fmap|done]. }
  rewrite push_with_credentials in Hsent |- * by done.
  pose proof (push_campaigns_total env (default ""%string (getenv env "INSTANTLY_API_KEY"))
                batch_size srv contacts_split ltac:(lia) 0 0%nat) as Htotal.
  remember (Instantly.push_campaigns env
              (default ""%string (getenv env "INSTANTLY_API_KEY")) batch_size
              contacts_split 0 srv 0%nat) as r eqn:Hr. clear Hr.
  eexists. split; [exact Htotal|]. rewrite Z.add_0_l, <- Hlen, <- Hsent.
  split; [apply uploaded_bounds|]. intros Hall. by apply uploaded_all.
Qed.

Lemma push_total_bounds_witness :
  let env : gmap string string :=
    {[ "INSTANTLY_API_KEY"%string := "key"%string;
       "CAMPAIGN_PRIMARY_ID"%string := "primary"%string;
       "CAMPAIGN_SECONDARY_ID"%string := "secondary"%string ]} in
  let person e := Contact None "" "" e "" "" "" "" in
  let split := [("campaign_a", [person "a@x.com"; person "b@x.com"; person "c@x.com"]);
                ("campaign_b", [person "e@x.com"])]%string in
  let srv := Instantly.scripted_platform (fun n => if (n =? 0)%nat then 500 else 200) [] in
  let sendable := split ≫= fun kv =>
    match Instantly.campaign_id_of env kv.1 with
    | Some _ => kv.2
    | None => []
    end in
  exists total,
    result (Instantly.push_to_instantly env split 2 srv 0%nat) = Ret total
    /\ 0 <= total <= Z.of_nat (length sendable)
    /\ ((forall k q, exists status b,
           srv k q = Http status b /\ Instantly.created status = true) ->
        total = Z.of_nat (length sendable)).
Proof.
  intros env person split srv.
  apply (push_total_bounds env split 2 srv); [reflexivity|lia].
Defined.

(** Splitting and uploading compose: when the platform accepts every
    request, the number uploaded is the number of contacts that went into
    the split, whatever the percentage and the shuffle. *)
Theorem split_then_push_uploads_all (shuffle : list contact -> list contact)
    env contacts p groups srv :
  (forall l, length (shuffle l) = length l) ->
  Utils.split_contacts shuffle contacts p = Ret groups ->
  Instantly.credentials_ok env = true ->
  (forall k q, exists status b,
     srv k q = Http status b /\ Instantly.created status = true) ->
  result (Instantly.push_to_instantly env groups 100 srv 0%nat)
    = Ret (Z.of_nat (length contacts)).
Proof.
  intros Hshuffle Hsplit Hok Hall.
  assert (Hgroups : exists a b,
            groups = [("campaign_a"%string, a); ("campaign_b"%string, b)]
            /\ a ++ b = shuffle contacts).
  { unfold Utils.split_contacts in Hsplit. destruct (negb _); [done|].
    destruct (Utils.split_index _ _) as [k| |]; [|done..].
    injection Hsplit as <-. eexists _, _. split; [done|]. apply slice_to_from_app. }
  destruct Hgroups as (a & b & -> & Hab).
  rewrite push_with_credentials by done.
  rewrite push_campaigns_total by lia.
  rewrite uploaded_all by done.
  rewrite sent_leads_push_campaigns by (lia || by apply campaign_ids_nonempty).
  apply credentials_ok_true in Hok as (_ & Ha & Hb).
  cbn [mbind list_bind fst snd]. unfold Instantly.campaign_id_of.
  cbn [String.eqb Ascii.eqb Bool.eqb].
  destruct (getenv env "CAMPAIGN_PRIMARY_ID") as [pid|]; [|done].
  destruct (getenv env "CAMPAIGN_SECONDARY_ID") as [sid|]; [|done].
  rewrite app_nil_r, length_app, !length_fmap, <- length_app, Hab, Hshuffle.
  by rewrite Z.add_0_l.
Qed.

Lemma split_then_push_uploads_all_witness :
  let env : gmap string string :=
    {[ "INSTANTLY_API_KEY"%string := "key"%string;
       "CAMPAIGN_PRIMARY_ID"%string := "primary"%string;
       "CAMPAIGN_SECONDARY_ID"%string := "secondary"%string ]} in
  let person e := Contact None "" "" e "" "" "" "" in
  let contacts := [person "a@x.com"; person "b@x.com"; person "c@x.com"]%string in
  result (Instantly.push_to_instantly env
            [("campaign_a"%string, [person "c@x.com"]%string);
             ("campaign_b"%string, [person "b@x.com"; person "a@x.com"]%string)]
            100 (always (Http 201 EmptyObject)) 0%nat)
    = Ret (Z.of_nat (length contacts)).
Proof.
  intros env person contacts.
  apply (split_then_push_uploads_all (@rev contact) env contacts 60).
  - intros l. apply length_rev.
  - vm_compute. reflexivity.
  - reflexivity.
  - intros k q. by eexists _, _.
Defined.

Section SweepTraces.
Import Instantly.

Lemma delete_with_key env api_key fuel :
  getenv env "INSTANTLY_API_KEY" = Some api_key -> api_key <> ""%string ->
  delete_finished_leads env fuel
    = sweep_campaigns fuel api_key
        [getenv env "CAMPAIGN_PRIMARY_ID"; getenv env "CAMPAIGN_SECONDARY_ID"] 0.
Proof.
  intros Hk Hne. unfold delete_finished_leads. rewrite Hk. cbn [truthy default].
  by destruct (String.eqb_spec api_key "").
Qed.

(** A list that goes on for ever: every page holds leads and a cursor. *)
Lemma collect_leads_endless api_key campaign filter_val srv :
  (forall n cursor, exists status leads next,
     srv n (list_request api_key campaign filter_val cursor)
       = Http status (InstantlyLeads (Some leads) (Some next))
     /\ is_http_error status = false /\ leads <> [] /\ next <> ""%string) ->
  forall fuel cursor emails n,
  result (collect_leads fuel api_key campaign filter_val cursor emails srv n)
    = OutOfFuel
  /\ calls (collect_leads fuel api_key campaign filter_val cursor emails srv n)
     = (n + fuel)%nat.
Proof.
  intros Hsrv. induction fuel as [|fuel IH]; intros cursor emails n.
  { cbn. split; [done|lia]. }
  destruct (Hsrv n cursor) as (status & leads & next & Hr & He & Hleads & Hnext).
  rewrite (collect_leads_next fuel api_key campaign filter_val cursor emails srv n
             status (Some leads) (Some next)); try done.
  - rewrite result_after. change (calls (after ?ev ?r)) with (calls r).
    destruct (IH (Some next) (emails ++ default [] (Some leads)) (S n)) as [-> ->].
    split; [done|lia].
  - cbn. by destruct (String.eqb_spec next "").
Qed.

Lemma collect_leads_error fuel api_key campaign filter_val cursor emails srv n
    status b :
  srv n (list_request api_key campaign filter_val cursor) = Http status b ->
  is_http_error status = true ->
  collect_leads (S fuel) api_key campaign filter_val cursor emails srv n
    = Run (Raise (HTTPError status))
        [Call (list_request api_key campaign filter_val cursor)] (S n).
Proof.
  intros Hsrv He. cbn [collect_leads]. by rewrite bind_call, Hsrv, He.
Qed.

End SweepTraces.

(** Without campaign identifiers there is nothing to clean: no request is
    made and the count is zero.  Only the API key is required. *)
Theorem delete_without_campaigns env fuel srv n :
  truthy (getenv env "INSTANTLY_API_KEY") = true ->
  truthy (getenv env "CAMPAIGN_PRIMARY_ID") = false ->
  truthy (getenv env "CAMPAIGN_SECONDARY_ID") = false ->
  Instantly.delete_finished_leads env fuel srv n = Run (Ret 0) [] n.
Proof.
  intros Hk Ha Hb. unfold Instantly.delete_finished_leads. rewrite Hk.
  cbn [negb Instantly.sweep_campaigns]. by rewrite Ha, Hb.
Qed.

Lemma delete_without_campaigns_witness :
  Instantly.delete_finished_leads {[ "INSTANTLY_API_KEY"%string := "key"%string ]} 0
    (always NoResponse) 0%nat
  = Run (Ret 0) [] 0%nat.
Proof.
  apply (delete_without_campaigns {[ "INSTANTLY_API_KEY"%string := "key"%string ]} 0
           (always NoResponse) 0%nat); reflexivity.
Defined.

(** The cleanup has no handler: an error status on the first list request
    ends it with the HTTP error itself, before anything is removed and
    before the second campaign is looked at. *)
Theorem delete_listing_error env api_key primary fuel srv status b :
  getenv env "INSTANTLY_API_KEY" = Some api_key -> api_key <> ""%string ->
  getenv env "CAMPAIGN_PRIMARY_ID" = Some primary -> primary <> ""%string ->
  srv 0%nat (InstantlyListLeads api_key primary "FILTER_VAL_COMPLETED" 100 None)
    = Http status b ->
  is_http_error status = true ->
  Instantly.delete_finished_leads env (S fuel) srv 0%nat
    = Run (Raise (HTTPError status))
        [Call (InstantlyListLeads api_key primary "FILTER_VAL_COMPLETED" 100 None)]
        1%nat.
Proof.
  intros Hk Hne Hp Hpne Hsrv He.
  rewrite (delete_with_key env api_key) by done. rewrite Hp.
  cbn [Instantly.sweep_campaigns truthy default].
  destruct (String.eqb_spec primary ""); [done|]. cbn [negb].
  cbn [Instantly.filter_values Instantly.collect_filters].
  change (Datatypes.id primary) with primary.
  pose proof (collect_leads_error fuel api_key primary "FILTER_VAL_COMPLETED" None []
                srv 0%nat status b Hsrv He) as Hrun.
  rewrite (bind_raise_run _ _ srv 0%nat (HTTPError status)).
  - rewrite (bind_raise_run _ _ srv 0%nat (HTTPError status)) by (by rewrite Hrun).
    by rewrite Hrun.
  - rewrite (bind_raise_run _ _ srv 0%nat (HTTPError status)) by (by rewrite Hrun).
    done.
Qed.

Lemma delete_listing_error_witness :
  let env : gmap string string :=
    {[ "INSTANTLY_API_KEY"%string := "key"%string;
       "CAMPAIGN_PRIMARY_ID"%string := "primary"%string;
       "CAMPAIGN_SECONDARY_ID"%string := "secondary"%string ]} in
  Instantly.delete_finished_leads env 1 (always (Http 401 EmptyObject)) 0%nat
    = Run (Raise (HTTPError 401))
        [Call (InstantlyListLeads "key" "primary" "FILTER_VAL_COMPLETED" 100 None)]
        1%nat.
Proof.
  intros env.
  apply (delete_listing_error env "key" "primary" 0 (always (Http 401 EmptyObject))
           401 EmptyObject); try first [reflexivity | discriminate].
Defined.

(** The pagination of the cleanup has no bound of its own: against a
    platform whose every page holds leads and a cursor to a next page, the
    cleanup goes on asking and never returns. *)
Theorem delete_endless_pagination env api_key primary srv :
  getenv env "INSTANTLY_API_KEY" = Some api_key -> api_key <> ""%string ->
  getenv env "CAMPAIGN_PRIMARY_ID" = Some primary -> primary <> ""%string ->
  (forall n cursor, exists status leads next,
     srv n (Instantly.list_request api_key primary "FILTER_VAL_COMPLETED" cursor)
       = Http status (InstantlyLeads (Some leads) (Some next))
     /\ is_http_error status = false /\ leads <> [] /\ next <> ""%string) ->
  forall fuel,
  result (Instantly.delete_finished_leads env fuel srv 0%nat) = OutOfFuel
  /\ calls (Instantly.delete_finished_leads env fuel srv 0%nat) = fuel.
Proof.
  intros Hk Hne Hp Hpne Hsrv fuel.
  rewrite (delete_with_key env api_key) by done. rewrite Hp.
  cbn [Instantly.sweep_campaigns truthy default].
  destruct (String.eqb_spec primary ""); [done|]. cbn [negb].
  cbn [Instantly.filter_values Instantly.collect_filters].
  change (Datatypes.id primary) with primary.
  destruct (collect_leads_endless api_key primary "FILTER_VAL_COMPLETED" srv Hsrv
              fuel None [] 0%nat) as [Hres Hcalls].
  unfold bind.
  destruct (Instantly.collect_leads fuel api_key primary "FILTER_VAL_COMPLETED" None []
              srv 0%nat) as [o ev k].
  cbn [result calls] in Hres, Hcalls. subst o k. split; reflexivity.
Qed.

Lemma delete_endless_pagination_witness :
  let env : gmap string string :=
    {[ "INSTANTLY_API_KEY"%string := "key"%string;
       "CAMPAIGN_PRIMARY_ID"%string := "primary"%string ]} in
  let srv := always (Http 200 (InstantlyLeads (Some ["a@x.com"%string])
                                 (Some "next"%string))) in
  result (Instantly.delete_finished_leads env 7 srv 0%nat) = OutOfFuel
  /\ calls (Instantly.delete_finished_leads env 7 srv 0%nat) = 7%nat.
Proof.
  intros env srv.
  apply (delete_endless_pagination env "key" "primary" srv);
    try first [reflexivity | discriminate].
  intros n cursor. by eexists 200, ["a@x.com"%string], "next"%string.
Defined.


(** ** main.py, logger.py and notifier.py: the run as a whole *)

Section Kinds.
Context (P : request -> Prop).

Lemma only_ret {A} (a : A) : only P (ret a).
Proof. intros srv n. constructor. Qed.

Lemma only_raise {A} e : only P (@raise A e).
Proof. intros srv n. constructor. Qed.

Lemma only_out_of_fuel {A} : only P (@out_of_fuel A).
Proof. intros srv n. constructor. Qed.

Lemma only_lift {A} (o : outcome A) : only P (lift o).
Proof. intros srv n. constructor. Qed.

Lemma only_sleep s : only P (sleep s).
Proof. intros srv n. constructor. Qed.

Lemma only_call q : P q -> only P (call q).
Proof. intros Hq srv n. by repeat constructor. Qed.

Lemma only_bind {A B} (m : M A) (f : A -> M B) :
  only P m -> (forall a, only P (f a)) -> only P (bind m f).
Proof.
  intros Hm Hf srv n. unfold bind. specialize (Hm srv n).
  destruct (m srv n) as [[a|e|] ev n1]; cbn [events] in *; try done.
  specialize (Hf a srv n1). destruct (f a srv n1) as [o ev1 n2]. cbn [events] in *.
  rewrite requests_of_app. by apply Forall_app.
Qed.

Lemma only_try_except {A} (m : M A) (h : exn -> M A) :
  only P m -> (forall e, only P (h e)) -> only P (try_except m h).
Proof.
  intros Hm Hh srv n. unfold try_except. specialize (Hm srv n).
  destruct (m srv n) as [[a|e|] ev n1]; cbn [events] in *; try done.
  specialize (Hh e srv n1). destruct (h e srv n1) as [o ev1 n2]. cbn [events] in *.
  rewrite requests_of_app. by apply Forall_app.
Qed.

(** The rest of the block only matters for the values the statement can
    give. *)
Lemma only_step {A} (m : M A) (h : exn -> M unit) (k : A -> M unit) :
  only P m -> (forall e, only P (h e)) ->
  (forall a, (exists srv n, result (m srv n) = Ret a) -> only P (k a)) ->
  only P (Main.step m h k).
Proof.
  intros Hm Hh Hk srv n. unfold Main.step. specialize (Hm srv n).
  destruct (m srv n) as [[a|e|] ev n1] eqn:Hrun; cbn [events] in *; try done.
  - rewrite events_after, requests_of_app. apply Forall_app. split; [done|].
    apply Hk. exists srv, n. by rewrite Hrun.
  - rewrite events_after, requests_of_app. apply Forall_app. split; [done|].
    apply Hh.
Qed.

End Kinds.

Lemma only_impl {A} (P Q : request -> Prop) (m : M A) :
  (forall q, P q -> Q q) -> only P m -> only Q m.
Proof. intros HPQ Hm srv n. eapply Forall_impl; [apply Hm|done]. Qed.

(** *** The kinds of request each stage makes *)

Lemma fetch_only_searches env fuel :
  only is_search (Apollo.fetch_all_contacts_from_list env fuel).
Proof.
  unfold Apollo.fetch_all_contacts_from_list.
  destruct (_ || _); [apply only_raise|].
  destruct (Apollo.contains _ _); [apply only_raise|].
  generalize 1 (@None Z) (@nil contact).
  induction fuel as [|fuel IH]; intros page tp acc; [apply only_out_of_fuel|].
  cbn [Apollo.fetch_loop]. apply only_bind; [apply only_lift|].
  intros [|]; [apply only_ret|]. apply only_bind.
  - unfold Apollo.attempt. apply only_try_except.
    + apply only_bind; [by apply only_call|]. intros response.
      apply only_bind; [apply only_lift|]. intros data.
      apply only_bind; [apply only_lift|]. intros tp'.
      destruct (negb _); [apply only_ret|].
      apply only_bind; [apply only_lift|]. intros acc'.
      apply only_bind; [apply only_sleep|]. intros _. apply only_ret.
    + intros e. destruct e; try apply only_raise.
      destruct (_ =? _); [|apply only_raise].
      apply only_bind; [apply only_sleep|]. intros _. apply only_ret.
  - intros [| |tp' acc']; [apply IH|apply only_ret|apply IH].
Qed.

Lemma poll_only_verification tries key tid :
  only is_verification (Reoon.poll tries key tid).
Proof.
  induction tries as [|tries IH]; [apply only_raise|].
  cbn [Reoon.poll]. apply only_bind; [apply only_sleep|]. intros _.
  apply only_bind; [by apply only_call|]. intros [|status b]; [apply only_raise|].
  destruct (is_http_error status); [apply only_raise|].
  destruct b; try apply only_raise;
    (destruct (Reoon.completed _); [apply only_ret|apply IH]).
Qed.

Lemma verify_only_verification env contacts :
  only is_verification (Reoon.verify_emails env contacts).
Proof.
  unfold Reoon.verify_emails. destruct (negb _); [apply only_raise|].
  apply only_bind.
  - apply only_try_except; [|intros e; apply only_raise].
    apply only_bind; [apply only_lift|]. intros batches.
    generalize (@nil contact) (@nil Reoon.invalid_contact).
    induction batches as [|batch rest IH]; intros valid invalid; [apply only_ret|].
    cbn [Reoon.verify_batches]. apply only_bind; [by apply only_call|].
    intros [|status b]; [apply only_raise|].
    destruct (is_http_error status); [apply only_raise|].
    assert (Hgo : only is_verification
      (if negb (truthy (Reoon.task_id_of b)) then
         raise (Exception "No task ID returned from Reoon API")
       else
         let* results_data :=
           Reoon.poll Reoon.max_tries
             (default ""%string (getenv env "REOON_API_KEY"))
             (default ""%string (Reoon.task_id_of b)) in
         let* (valid_contacts, invalid_contacts) :=
           lift (Reoon.process_results (Reoon.contact_map contacts)
                   (Reoon.results_of results_data) valid invalid) in
         let* _ := sleep 2 in
         Reoon.verify_batches (default ""%string (getenv env "REOON_API_KEY"))
           (Reoon.contact_map contacts) rest valid_contacts invalid_contacts)).
    { destruct (negb _); [apply only_raise|].
      apply only_bind; [apply poll_only_verification|]. intros rd.
      apply only_bind; [apply only_lift|]. intros [v i].
      apply only_bind; [apply only_sleep|]. intros _. apply IH. }
    destruct b; (apply only_raise || exact Hgo).
  - intros [valid invalid]. destruct (_ =? _)%nat; [apply only_raise|apply only_ret].
Qed.

Lemma push_only_uploads env contacts_split batch_size :
  only is_upload (Instantly.push_to_instantly env contacts_split batch_size).
Proof.
  unfold Instantly.push_to_instantly. destruct (negb _); [apply only_raise|].
  generalize 0.
  induction contacts_split as [|[key contacts] rest IH]; intros total;
    [apply only_ret|].
  cbn [Instantly.push_campaigns]. destruct (negb _); [apply IH|].
  destruct (negb _); [apply IH|].
  apply only_bind; [apply only_lift|]. intros batches.
  apply only_bind; [|intros total'; apply IH].
  revert total. induction batches as [|batch more IHb]; intros total; [apply only_ret|].
  cbn [Instantly.upload_batches]. apply only_bind; [|intros t; apply IHb].
  unfold Instantly.upload_batch. apply only_try_except; [|intros e; apply only_ret].
  apply only_bind.
  - apply only_call. unfold Instantly.upload_request.
    by destruct (Instantly.lead_data _ <$> batch) as [|l [|l' ls]].
  - intros [|status b]; [apply only_raise|].
    apply only_bind; [apply only_sleep|]. intros _. apply only_ret.
Qed.

Lemma append_only P q : P q -> only P (Logger.append q).
Proof.
  intros Hq. unfold Logger.append. apply only_bind; [by apply only_call|].
  intros [|status b]; [apply only_raise|].
  destruct (is_http_error status); [apply only_raise|apply only_ret].
Qed.

Lemma log_run_summary_only self status c e :
  only (is_summary status) (Logger.log_run_summary self status c e).
Proof.
  unfold Logger.log_run_summary. destruct (Logger.log_sheet self); [|apply only_raise].
  by apply append_only.
Qed.

Lemma send_error_email_only env e : only is_email (Notifier.send_error_email env e).
Proof.
  unfold Notifier.send_error_email. destruct (_ || _); [apply only_ret|].
  apply only_bind; [by apply only_call|]. intros _. apply only_ret.
Qed.

(** Without the attributes the lead logs raise as soon as there is a lead
    to log. *)
Lemma log_processed_leads_unassigned self leads srv n :
  Logger.processed_sheet self = None -> leads <> [] ->
  Logger.log_processed_leads self leads srv n = Run (Raise AttributeError) [] n.
Proof.
  intros Hsheet Hleads. unfold Logger.log_processed_leads. rewrite Hsheet.
  by destruct leads.
Qed.

Lemma log_invalid_leads_unassigned self leads srv n :
  Logger.invalid_sheet self = None -> leads <> [] ->
  Logger.log_invalid_leads self leads srv n = Run (Raise AttributeError) [] n.
Proof.
  intros Hsheet Hleads. unfold Logger.log_invalid_leads. rewrite Hsheet.
  by destruct leads.
Qed.

Lemma init_attributes env opened self :
  Logger.init env opened = Ret self ->
  Logger.processed_sheet self = None /\ Logger.invalid_sheet self = None
  /\ exists log, Logger.log_sheet self = Some log.
Proof.
  unfold Logger.init. destruct (getenv env "GOOGLE_PRIVATE_KEY"); [|done].
  destruct opened as [sheets| |]; [|done..].
  destruct (sheets !! "Log"%string) as [log|]; [|done]. intros [= <-].
  split; [done|]. split; [done|]. by exists log.
Qed.

(** *** The statements of the [try] block *)

Lemma step_ret {A} (m : M A) h k srv n a ev n' :
  m srv n = Run (Ret a) ev n' -> Main.step m h k srv n = after ev (k a srv n').
Proof. intros Hrun. unfold Main.step. by rewrite Hrun. Qed.

Lemma step_raise {A} (m : M A) h k srv n e ev n' :
  m srv n = Run (Raise e) ev n' -> Main.step m h k srv n = after ev (h e srv n').
Proof. intros Hrun. unfold Main.step. by rewrite Hrun. Qed.

Lemma step_never_raises {A} (m : M A) h k srv :
  (forall e n e', result (h e srv n) <> Raise e') ->
  (forall a n e', result (k a srv n) <> Raise e') ->
  forall n e', result (Main.step m h k srv n) <> Raise e'.
Proof.
  intros Hh Hk n e'. unfold Main.step.
  destruct (m srv n) as [[a|e|] ev n1]; rewrite ?result_after; [apply Hk|apply Hh|done].
Qed.

Lemma send_error_email_returns env e srv n :
  result (Notifier.send_error_email env e srv n) = Ret tt.
Proof. unfold Notifier.send_error_email. by destruct (_ || _). Qed.

Lemma send_error_email_unconfigured env e srv n :
  getenv env "SMTP_EMAIL" = None ->
  Notifier.send_error_email env e srv n = Run (Ret tt) [] n.
Proof. intros Hsender. unfold Notifier.send_error_email. by rewrite Hsender. Qed.

Lemma log_run_summary_accepted self status c e srv n code b :
  is_Some (Logger.log_sheet self) ->
  srv n (SheetAppendRow (Summary status c e)) = Http code b ->
  is_http_error code = false ->
  Logger.log_run_summary self status c e srv n
  = Run (Ret tt) [Call (SheetAppendRow (Summary status c e))] (S n).
Proof.
  intros [log Hlog] Hsrv Hcode. unfold Logger.log_run_summary, Logger.append.
  rewrite Hlog. unfold bind, call. by rewrite Hsrv, Hcode.
Qed.

Lemma log_run_summary_refused self status c e srv n code b :
  is_Some (Logger.log_sheet self) ->
  srv n (SheetAppendRow (Summary status c e)) = Http code b ->
  is_http_error code = true ->
  Logger.log_run_summary self status c e srv n
  = Run (Raise (HTTPError code)) [Call (SheetAppendRow (Summary status c e))] (S n).
Proof.
  intros [log Hlog] Hsrv Hcode. unfold Logger.log_run_summary, Logger.append.
  rewrite Hlog. unfold bind, call. by rewrite Hsrv, Hcode.
Qed.

Lemma kinds_apart q :
  is_search q \/ is_verification q \/ is_upload q \/ is_email q
  \/ (exists status, status <> "Success"%string /\ is_summary status q) ->
  ~ is_cleanup q /\ ~ is_lead_log q /\ ~ is_summary "Success" q.
Proof.
  intros [H|[H|[H|[H|(status & Hstatus & H)]]]]; destruct q; cbn in *;
    try done; repeat split; try tauto; congruence.
Qed.

(** *** What no run does *)

(** Whatever the services answer, a run never lists or removes
    finished leads, never appends rows of leads to a worksheet and never
    logs the status "Success": the manager the constructor builds has no
    worksheet for the leads, so the first log of leads raises. *)
Theorem run_never_cleans_up lower shuffle env opened fuel srv n :
  (forall l, shuffle l ≡ₚ l) ->
  Forall (fun q => ~ is_cleanup q /\ ~ is_lead_log q /\ ~ is_summary "Success" q)
    (requests_of
       (events (Main.run_automation_flow lower shuffle env opened fuel srv n))).
Proof.
  intros Hshuffle. revert srv n.
  apply (only_impl _ _ _ kinds_apart).
  set (P := fun q => _).
  assert (Hsearch : forall q, is_search q -> P q) by (intros q; unfold P; tauto).
  assert (Hverification : forall q, is_verification q -> P q)
    by (intros q; unfold P; tauto).
  assert (Hupload : forall q, is_upload q -> P q) by (intros q; unfold P; tauto).
  assert (Hemail : forall q, is_email q -> P q) by (intros q; unfold P; tauto).
  assert (Hsummary : forall status, status <> "Success"%string ->
            forall q, is_summary status q -> P q).
  { intros status Hstatus q Hq. unfold P. do 4 right. by exists status. }
  assert (Hfailed : forall sm c e, only P (Main.failed env sm c e)).
  { intros sm c e. unfold Main.failed. apply only_bind.
    - destruct sm; [|apply only_ret].
      by apply (only_impl _ _ _ (Hsummary "Failed"%string ltac:(done))),
         log_run_summary_only.
    - intros _. by apply (only_impl _ _ _ Hemail), send_error_email_only. }
  assert (Hlog : forall self status c, status <> "Success"%string ->
            only P (Main.step (Logger.log_run_summary self status c None)
                      (Main.failed env (Some self) c) ret)).
  { intros self status c Hstatus. apply only_step; [|done|intros; apply only_ret].
    by apply (only_impl _ _ _ (Hsummary status Hstatus)), log_run_summary_only. }
  unfold Main.run_automation_flow.
  apply only_step; [apply only_lift|done|]. intros self (srv & n & Hself).
  cbn [lift result] in Hself. apply init_attributes in Hself as (Hprocessed & Hinvalid & _).
  apply only_step; [by apply (only_impl _ _ _ Hsearch), fetch_only_searches|done|].
  intros all _. cbv zeta. destruct (negb (nonempty _)); [by apply Hlog|].
  apply only_step;
    [by apply (only_impl _ _ _ Hverification), verify_only_verification|done|].
  intros [valid invalid] _. cbn [fst snd].
  apply only_step.
  { destruct (nonempty invalid) eqn:Hnonempty; [|apply only_ret].
    intros srv' n'. rewrite log_invalid_leads_unassigned; [constructor|done|].
    by destruct invalid. }
  { done. }
  intros _ _. destruct (negb (nonempty valid)) eqn:Hvalid; [by apply Hlog|].
  apply only_step; [apply only_lift|done|]. intros split_data _.
  apply only_step; [by apply (only_impl _ _ _ Hupload), push_only_uploads|done|].
  intros uploaded_count _.
  apply only_step.
  { intros srv' n'. rewrite log_processed_leads_unassigned; [constructor|done|].
    intros Hnil. specialize (Hshuffle valid). rewrite Hnil in Hshuffle.
    apply Permutation_nil_l in Hshuffle. by subst valid. }
  { done. }
  intros [] (srv' & n' & Hreturned).
  rewrite log_processed_leads_unassigned in Hreturned; [done|done|].
  intros Hnil. specialize (Hshuffle valid). rewrite Hnil in Hshuffle.
  apply Permutation_nil_l in Hshuffle. by subst valid.
Qed.

Lemma run_never_cleans_up_witness :
  let env : gmap string string :=
    {[ "GOOGLE_PRIVATE_KEY"%string := "k"%string;
       "APOLLO_API_KEY"%string := "key"%string;
       "APOLLO_LIST_ID"%string := "list"%string;
       "REOON_API_KEY"%string := "key"%string;
       "INSTANTLY_API_KEY"%string := "key"%string;
       "CAMPAIGN_PRIMARY_ID"%string := "primary"%string;
       "CAMPAIGN_SECONDARY_ID"%string := "secondary"%string ]} in
  let sheets : Logger.spreadsheet :=
    {[ "Log"%string := Logger.Worksheet (Some []) ]} in
  let ann := RawContact (Some "1") (Some "Ann") None (Some "ann@x.com") Absent None in
  let good := Verification true true (Some "valid") (Some 90) in
  Forall (fun q => ~ is_cleanup q /\ ~ is_lead_log q /\ ~ is_summary "Success" q)
    (requests_of
       (events (Main.run_automation_flow Main.ascii_lower (@rev contact) env
                  (Ret sheets) 5
                  (Main.scripted_run [ann] [("ann@x.com", good)] 200) 0%nat)))%string.
Proof.
  intros env sheets ann good.
  apply (run_never_cleans_up Main.ascii_lower (@rev contact) env (Ret sheets) 5
           (Main.scripted_run [ann] [("ann@x.com"%string, good)] 200) 0%nat).
  intros l. symmetry. apply Permutation_rev.
Defined.

(** When the log sheet accepts every summary row, a run never ends in
    an exception: every failure of a stage goes to the [except] clause,
    which logs it and returns. *)
Theorem run_returns_when_log_accepts lower shuffle env opened fuel srv n e :
  (forall k row, exists code b,
     srv k (SheetAppendRow row) = Http code b /\ is_http_error code = false) ->
  result (Main.run_automation_flow lower shuffle env opened fuel srv n) <> Raise e.
Proof.
  intros Haccepts. revert n e.
  assert (Hsummary : forall self status c e n,
            is_Some (Logger.log_sheet self) ->
            Logger.log_run_summary self status c e srv n
            = Run (Ret tt) [Call (SheetAppendRow (Summary status c e))] (S n)).
  { intros self status c e n Hlog.
    destruct (Haccepts n (Summary status c e)) as (code & b & Hsrv & Hcode).
    by eapply log_run_summary_accepted. }
  assert (Hfailed : forall sm c,
            (forall self, sm = Some self -> is_Some (Logger.log_sheet self)) ->
            forall e n e', result (Main.failed env sm c e srv n) <> Raise e').
  { intros sm c Hsm e n e'. unfold Main.failed, bind.
    destruct sm as [self|].
    - rewrite (Hsummary self _ _ _ _ (Hsm self eq_refl)).
      pose proof (send_error_email_returns env e srv (S n)) as Hsent.
      destruct (Notifier.send_error_email env e srv (S n)). cbn in *. by rewrite Hsent.
    - cbn [ret]. pose proof (send_error_email_returns env e srv n) as Hsent.
      destruct (Notifier.send_error_email env e srv n). cbn in *. by rewrite Hsent. }
  assert (Hlog : forall self status c, is_Some (Logger.log_sheet self) ->
            forall n e', result (Main.step (Logger.log_run_summary self status c None)
                        (Main.failed env (Some self) c) ret srv n) <> Raise e').
  { intros self status c Hself n e'.
    erewrite step_ret; [|by apply (Hsummary self status c None n)].
    by rewrite result_after. }
  unfold Main.run_automation_flow.
  destruct (Logger.init env opened) as [self| |] eqn:Hinit.
  2:{ intros n e'. erewrite step_raise; [|done]. rewrite result_after.
      by apply Hfailed. }
  2:{ done. }
  apply init_attributes in Hinit as (_ & _ & Hself).
  assert (Hsome : forall s, Some self = Some s -> is_Some (Logger.log_sheet s)).
  { intros s [= <-]. destruct Hself as [log Hlog']. by exists log. }
  assert (Hself' : is_Some (Logger.log_sheet self)) by by apply Hsome.
  intros n e'. erewrite step_ret; [|done]. rewrite result_after. revert n e'.
  apply step_never_raises; [by apply Hfailed|]. intros all. cbv zeta.
  destruct (negb (nonempty _)); [by apply Hlog|].
  apply step_never_raises; [by apply Hfailed|]. intros [valid invalid]. cbn [fst snd].
  apply step_never_raises; [by apply Hfailed|]. intros _.
  destruct (negb (nonempty valid)); [by apply Hlog|].
  apply step_never_raises; [by apply Hfailed|]. intros split_data.
  apply step_never_raises; [by apply Hfailed|]. intros uploaded_count.
  apply step_never_raises; [by apply Hfailed|]. intros _.
  apply step_never_raises; [by apply Hfailed|]. intros deleted_count.
  by apply Hlog.
Qed.

Lemma run_returns_when_log_accepts_witness :
  let env : gmap string string :=
    {[ "GOOGLE_PRIVATE_KEY"%string := "k"%string;
       "APOLLO_API_KEY"%string := "key"%string;
       "APOLLO_LIST_ID"%string := "list"%string ]} in
  let sheets : Logger.spreadsheet :=
    {[ "Log"%string := Logger.Worksheet (Some []) ]} in
  let ann := RawContact (Some "1") (Some "Ann") None (Some "ann@x.com") Absent None in
  result (Main.run_automation_flow Main.ascii_lower (@rev contact) env (Ret sheets) 5
            (Main.scripted_run [ann] [] 200) 0%nat)
  <> Raise (ValueError "Missing REOON_API_KEY in environment variables").
Proof.
  intros env sheets ann.
  apply (run_returns_when_log_accepts Main.ascii_lower (@rev contact) env (Ret sheets) 5
           (Main.scripted_run [ann] [] 200) 0%nat).
  intros k row. exists 200, EmptyObject. split; reflexivity.
Defined.

(** *** The course of a run *)

Lemma fetch_emails_at env fuel srv n contacts :
  result (Apollo.fetch_all_contacts_from_list env fuel srv n) = Ret contacts ->
  Forall (fun c => email c <> ""%string) contacts.
Proof.
  destruct (fetch_configuration_cases env)
    as [[msg Hmsg]|(key & lid & _ & _ & _ & _ & _ & Hrun)].
  { by rewrite Hmsg. }
  rewrite Hrun. by apply fetch_loop_emails.
Qed.

(** In a run the deduplication keeps every fetched contact. *)
Lemma run_new_contacts lower env opened self fuel srv n all :
  Logger.init env opened = Ret self ->
  result (Apollo.fetch_all_contacts_from_list env fuel srv n) = Ret all ->
  Main.new_contacts lower (Logger.get_processed_emails self) all = all.
Proof.
  intros Hself Hall. apply init_processed_sheet in Hself.
  rewrite (get_processed_emails_unassigned _ Hself), new_contacts_empty.
  apply fetch_emails_at in Hall. induction Hall as [|c l Hc Hl IH]; [done|].
  cbn [List.filter]. rewrite IH.
  by destruct (String.eqb_spec (email c) "").
Qed.

Lemma verify_emails_nothing env srv n r :
  result (Reoon.verify_emails env [] srv n) <> Ret r.
Proof.
  unfold Reoon.verify_emails. destruct (negb _); [done|].
  unfold bind. destruct (try_except _ _ srv n) as [[[v i]|e|] ev n1]; by cbn.
Qed.

Lemma failed_accepted env self c e srv n code b :
  is_Some (Logger.log_sheet self) ->
  srv n (SheetAppendRow (Summary "Failed" c (Some e))) = Http code b ->
  is_http_error code = false ->
  Main.failed env (Some self) c e srv n
  = after [Call (SheetAppendRow (Summary "Failed" c (Some e)))]
      (Notifier.send_error_email env e srv (S n)).
Proof.
  intros Hlog Hsrv Hcode. unfold Main.failed, bind.
  rewrite (log_run_summary_accepted _ _ _ _ _ _ _ _ Hlog Hsrv Hcode).
  by destruct (Notifier.send_error_email env e srv (S n)).
Qed.

Lemma failed_refused env self c e srv n code b :
  is_Some (Logger.log_sheet self) ->
  srv n (SheetAppendRow (Summary "Failed" c (Some e))) = Http code b ->
  is_http_error code = true ->
  Main.failed env (Some self) c e srv n
  = Run (Raise (HTTPError code))
      [Call (SheetAppendRow (Summary "Failed" c (Some e)))] (S n).
Proof.
  intros Hlog Hsrv Hcode. unfold Main.failed, bind.
  by rewrite (log_run_summary_refused _ _ _ _ _ _ _ _ Hlog Hsrv Hcode).
Qed.

Lemma init_log_sheet env opened self :
  Logger.init env opened = Ret self -> is_Some (Logger.log_sheet self).
Proof. intros Hself. by apply init_attributes in Hself as (_ & _ & log & ->). Qed.

(** Without the private key of the spreadsheet nothing is fetched:
    the run is the attempt to send the error e-mail and nothing else. *)
Theorem run_without_sheet_key lower shuffle env opened fuel srv n :
  getenv env "GOOGLE_PRIVATE_KEY" = None ->
  Main.run_automation_flow lower shuffle env opened fuel srv n
  = Notifier.send_error_email env
      (Wrapped "Failed to initialize GoogleSheetManager" AttributeError) srv n.
Proof.
  intros Hkey. unfold Main.run_automation_flow, Logger.init. rewrite Hkey.
  erewrite step_raise; [|done]. rewrite after_nil. unfold Main.failed, bind. cbn [ret].
  by destruct (Notifier.send_error_email _ _ srv n).
Qed.

Lemma run_without_sheet_key_witness :
  let env : gmap string string :=
    {[ "APOLLO_API_KEY"%string := "key"%string;
       "APOLLO_LIST_ID"%string := "list"%string;
       "SMTP_EMAIL"%string := "me@x.com"%string;
       "SMTP_PASS"%string := "secret"%string ]} in
  Main.run_automation_flow Main.ascii_lower (@rev contact) env (Ret ∅) 5
    (Main.scripted_run [] [] 200) 0%nat
  = Notifier.send_error_email env
      (Wrapped "Failed to initialize GoogleSheetManager" AttributeError)
      (Main.scripted_run [] [] 200) 0%nat.
Proof.
  intros env.
  apply (run_without_sheet_key Main.ascii_lower (@rev contact) env (Ret ∅) 5
           (Main.scripted_run [] [] 200) 0%nat).
  reflexivity.
Defined.

(** When the source list gives no contact, the run logs "Completed
    (No New Leads)" with all counters at zero and ends: nothing is
    verified, uploaded or deleted. *)
Theorem run_without_contacts lower shuffle env opened fuel srv n self ev n1 code b :
  Logger.init env opened = Ret self ->
  Apollo.fetch_all_contacts_from_list env fuel srv n = Run (Ret []) ev n1 ->
  srv n1 (SheetAppendRow (Summary "Completed (No New Leads)" Main.no_counts None))
    = Http code b ->
  is_http_error code = false ->
  Main.run_automation_flow lower shuffle env opened fuel srv n
  = Run (Ret tt)
      (ev ++ [Call (SheetAppendRow
                      (Summary "Completed (No New Leads)" Main.no_counts None))])
      (S n1).
Proof.
  intros Hself Hfetch Hsrv Hcode. unfold Main.run_automation_flow. rewrite Hself.
  erewrite step_ret; [|done]. rewrite after_nil.
  erewrite step_ret; [|done]. cbv zeta. cbn [Main.new_contacts List.filter nonempty negb length].
  erewrite step_ret;
    [|by apply (log_run_summary_accepted _ _ _ _ _ _ code b);
         [eapply init_log_sheet|..]].
  done.
Qed.

Lemma run_without_contacts_witness :
  let env : gmap string string :=
    {[ "GOOGLE_PRIVATE_KEY"%string := "k"%string;
       "APOLLO_API_KEY"%string := "key"%string;
       "APOLLO_LIST_ID"%string := "list"%string ]} in
  let sheets : Logger.spreadsheet :=
    {[ "Log"%string := Logger.Worksheet (Some []) ]} in
  Main.run_automation_flow Main.ascii_lower (@rev contact) env (Ret sheets) 5
    (Main.scripted_run [] [] 200) 0%nat
  = Run (Ret tt)
      ([Call (ApolloSearch "key" ["list"%string] 100 1)]
       ++ [Call (SheetAppendRow
                   (Summary "Completed (No New Leads)" Main.no_counts None))])
      2%nat.
Proof.
  intros env sheets.
  apply (run_without_contacts Main.ascii_lower (@rev contact) env (Ret sheets) 5
           (Main.scripted_run [] [] 200) 0%nat
           (Logger.Manager (Some (Logger.Worksheet (Some []))) None None)
           [Call (ApolloSearch "key" ["list"%string] 100 1)] 1%nat 200 EmptyObject).
  - vm_compute. reflexivity.
  - vm_compute. reflexivity.
  - reflexivity.
  - reflexivity.
Defined.

(** A run that verifies at least one contact as valid and none as
    invalid uploads the valid contacts and then fails: recording them
    raises [AttributeError], the run is logged as "Failed" with the
    counters reached, and the error e-mail follows.  Every fetched
    contact was sent to the verification, whatever the spreadsheet
    holds. *)
Theorem run_fails_after_upload lower shuffle env opened fuel srv n self all valid
    split_data uploaded_count ev1 ev2 ev3 n1 n2 n3 code b :
  (forall l, shuffle l ≡ₚ l) ->
  Logger.init env opened = Ret self ->
  Apollo.fetch_all_contacts_from_list env fuel srv n = Run (Ret all) ev1 n1 ->
  Reoon.verify_emails env all srv n1 = Run (Ret (valid, [])) ev2 n2 ->
  valid <> [] ->
  and_then (Main.split_percent env) (Utils.split_contacts shuffle valid)
    = Ret split_data ->
  Instantly.push_to_instantly env split_data 100 srv n2
    = Run (Ret uploaded_count) ev3 n3 ->
  srv n3 (SheetAppendRow
            (Summary "Failed"
               (Counts (Z.of_nat (length all)) (Z.of_nat (length all))
                  (Z.of_nat (length valid)) uploaded_count 0)
               (Some AttributeError)))
    = Http code b ->
  is_http_error code = false ->
  Main.run_automation_flow lower shuffle env opened fuel srv n
  = after (ev1 ++ ev2 ++ ev3
           ++ [Call (SheetAppendRow
                       (Summary "Failed"
                          (Counts (Z.of_nat (length all)) (Z.of_nat (length all))
                             (Z.of_nat (length valid)) uploaded_count 0)
                          (Some AttributeError)))])
      (Notifier.send_error_email env AttributeError srv (S n3)).
Proof.
  intros Hshuffle Hself Hfetch Hverify Hvalid Hsplit Hpush Hsrv Hcode.
  assert (Hnew : Main.new_contacts lower (Logger.get_processed_emails self) all = all).
  { eapply run_new_contacts; [done|]. by rewrite Hfetch. }
  assert (Hall : nonempty all = true).
  { destruct all; [|done]. exfalso.
    eapply (verify_emails_nothing env srv n1). by rewrite Hverify. }
  unfold Main.run_automation_flow. rewrite Hself.
  erewrite step_ret; [|done]. rewrite after_nil.
  erewrite step_ret; [|done]. cbv zeta. rewrite Hnew, Hall. cbn [negb].
  erewrite step_ret; [|done]. cbn [fst snd nonempty length].
  erewrite step_ret; [|done]. rewrite after_nil.
  assert (Hnonempty : nonempty valid = true) by by destruct valid.
  rewrite Hnonempty. cbn [negb]. rewrite Hsplit.
  erewrite step_ret; [|done]. rewrite after_nil.
  erewrite step_ret; [|done].
  erewrite step_raise.
  2:{ apply log_processed_leads_unassigned; [by eapply init_processed_sheet|].
      intros Hnil. specialize (Hshuffle valid). rewrite Hnil in Hshuffle.
      apply Permutation_nil_l in Hshuffle. by subst valid. }
  rewrite after_nil. cbn [fetched new verified].
  erewrite failed_accepted; [|by eapply init_log_sheet|done..].
  rewrite !after_after. by rewrite <- !app_assoc.
Qed.

Lemma run_fails_after_upload_witness :
  let env : gmap string string :=
    {[ "GOOGLE_PRIVATE_KEY"%string := "k"%string;
       "APOLLO_API_KEY"%string := "key"%string;
       "APOLLO_LIST_ID"%string := "list"%string;
       "REOON_API_KEY"%string := "key"%string;
       "INSTANTLY_API_KEY"%string := "key"%string;
       "CAMPAIGN_PRIMARY_ID"%string := "primary"%string;
       "CAMPAIGN_SECONDARY_ID"%string := "secondary"%string ]} in
  let sheets : Logger.spreadsheet :=
    {[ "Log"%string := Logger.Worksheet (Some []);
       "Processed Leads"%string := Logger.Worksheet (Some ["Email"; "ann@x.com"]%string) ]} in
  let ann := RawContact (Some "1") (Some "Ann") None (Some "ann@x.com") Absent None in
  let good := Verification true true (Some "valid") (Some 90) in
  let srv := Main.scripted_run [ann] [("ann@x.com"%string, good)] 200 in
  Main.run_automation_flow Main.ascii_lower (@rev contact) env (Ret sheets) 5 srv 0%nat
  = after
      ([Call (ApolloSearch "key" ["list"%string] 100 1); Sleep 1;
        Call (ApolloSearch "key" ["list"%string] 100 2)]
       ++ [Call (ReoonCreateTask "key" ["ann@x.com"%string]); Sleep 10;
           Call (ReoonGetResult "key" "task-1"); Sleep 2]
       ++ [Call (InstantlyAddLead "key"
                   (Lead "ann@x.com" "Ann" "" "" "" "secondary")); Sleep 1]
       ++ [Call (SheetAppendRow
                   (Summary "Failed" (Counts 1 1 1 1 0) (Some AttributeError)))])
      (Notifier.send_error_email env AttributeError srv 6%nat).
Proof.
  intros env sheets ann good srv.
  pose (person := Contact (Some "1"%string) "Ann" "" "ann@x.com" "" "" "" "").
  apply (run_fails_after_upload Main.ascii_lower (@rev contact) env (Ret sheets) 5
           srv 0%nat
           (Logger.Manager (Some (Logger.Worksheet (Some []))) None None)
           [person] [person]
           [("campaign_a"%string, []); ("campaign_b"%string, [person])] 1
           [Call (ApolloSearch "key" ["list"%string] 100 1); Sleep 1;
            Call (ApolloSearch "key" ["list"%string] 100 2)]
           [Call (ReoonCreateTask "key" ["ann@x.com"%string]); Sleep 10;
            Call (ReoonGetResult "key" "task-1"); Sleep 2]
           [Call (InstantlyAddLead "key"
                    (Lead "ann@x.com" "Ann" "" "" "" "secondary")); Sleep 1]
           2%nat 4%nat 5%nat 200 EmptyObject).
  - intros l. symmetry. apply Permutation_rev.
  - vm_compute. reflexivity.
  - vm_compute. reflexivity.
  - vm_compute. reflexivity.
  - discriminate.
  - vm_compute. reflexivity.
  - vm_compute. reflexivity.
  - reflexivity.
  - reflexivity.
Defined.

(** One contact that the verification reports as invalid ends the run
    before anything is uploaded: recording the invalid contacts raises
    [AttributeError], and the run is logged as "Failed". *)
Theorem run_fails_on_invalid_contact lower shuffle env opened fuel srv n self all valid
    invalid ev1 ev2 n1 n2 code b :
  Logger.init env opened = Ret self ->
  Apollo.fetch_all_contacts_from_list env fuel srv n = Run (Ret all) ev1 n1 ->
  Reoon.verify_emails env all srv n1 = Run (Ret (valid, invalid)) ev2 n2 ->
  invalid <> [] ->
  srv n2 (SheetAppendRow
            (Summary "Failed"
               (Counts (Z.of_nat (length all)) (Z.of_nat (length all))
                  (Z.of_nat (length valid)) 0 0)
               (Some AttributeError)))
    = Http code b ->
  is_http_error code = false ->
  Main.run_automation_flow lower shuffle env opened fuel srv n
  = after (ev1 ++ ev2
           ++ [Call (SheetAppendRow
                       (Summary "Failed"
                          (Counts (Z.of_nat (length all)) (Z.of_nat (length all))
                             (Z.of_nat (length valid)) 0 0)
                          (Some AttributeError)))])
      (Notifier.send_error_email env AttributeError srv (S n2)).
Proof.
  intros Hself Hfetch Hverify Hinvalid Hsrv Hcode.
  assert (Hnew : Main.new_contacts lower (Logger.get_processed_emails self) all = all).
  { eapply run_new_contacts; [done|]. by rewrite Hfetch. }
  assert (Hall : nonempty all = true).
  { destruct all; [|done]. exfalso.
    eapply (verify_emails_nothing env srv n1). by rewrite Hverify. }
  unfold Main.run_automation_flow. rewrite Hself.
  erewrite step_ret; [|done]. rewrite after_nil.
  erewrite step_ret; [|done]. cbv zeta. rewrite Hnew, Hall. cbn [negb].
  erewrite step_ret; [|done]. cbn [fst snd].
  assert (Hnonempty : nonempty invalid = true) by by destruct invalid.
  rewrite Hnonempty.
  erewrite step_raise.
  2:{ apply log_invalid_leads_unassigned; [|done].
      by apply init_attributes in Hself as (_ & ? & _). }
  rewrite after_nil. cbn [fetched new verified].
  erewrite failed_accepted; [|by eapply init_log_sheet|done..].
  rewrite !after_after. by rewrite <- !app_assoc.
Qed.

Lemma run_fails_on_invalid_contact_witness :
  let env : gmap string string :=
    {[ "GOOGLE_PRIVATE_KEY"%string := "k"%string;
       "APOLLO_API_KEY"%string := "key"%string;
       "APOLLO_LIST_ID"%string := "list"%string;
       "REOON_API_KEY"%string := "key"%string;
       "INSTANTLY_API_KEY"%string := "key"%string;
       "CAMPAIGN_PRIMARY_ID"%string := "primary"%string;
       "CAMPAIGN_SECONDARY_ID"%string := "secondary"%string ]} in
  let sheets : Logger.spreadsheet :=
    {[ "Log"%string := Logger.Worksheet (Some []) ]} in
  let ann := RawContact (Some "1") (Some "Ann") None (Some "ann@x.com") Absent None in
  let bob := RawContact (Some "2") (Some "Bob") None (Some "bob@x.com") Absent None in
  let good := Verification true true (Some "valid") (Some 90) in
  let bad := Verification false false (Some "invalid") (Some 10) in
  let srv :=
    Main.scripted_run [ann; bob]
      [("ann@x.com"%string, good); ("bob@x.com"%string, bad)] 200 in
  Main.run_automation_flow Main.ascii_lower (@rev contact) env (Ret sheets) 5 srv 0%nat
  = after
      ([Call (ApolloSearch "key" ["list"%string] 100 1); Sleep 1;
        Call (ApolloSearch "key" ["list"%string] 100 2)]
       ++ [Call (ReoonCreateTask "key" ["ann@x.com"; "bob@x.com"]%string); Sleep 10;
           Call (ReoonGetResult "key" "task-1"); Sleep 2]
       ++ [Call (SheetAppendRow
                   (Summary "Failed" (Counts 2 2 1 0 0) (Some AttributeError)))])
      (Notifier.send_error_email env AttributeError srv 5%nat).
Proof.
  intros env sheets ann bob good bad srv.
  pose (person1 := Contact (Some "1"%string) "Ann" "" "ann@x.com" "" "" "" "").
  pose (person2 := Contact (Some "2"%string) "Bob" "" "bob@x.com" "" "" "" "").
  apply (run_fails_on_invalid_contact Main.ascii_lower (@rev contact) env (Ret sheets) 5
           srv 0%nat
           (Logger.Manager (Some (Logger.Worksheet (Some []))) None None)
           [person1; person2] [person1]
           [Reoon.InvalidContact "bob@x.com" "invalid" "Score: 10, Status: invalid"]
           [Call (ApolloSearch "key" ["list"%string] 100 1); Sleep 1;
            Call (ApolloSearch "key" ["list"%string] 100 2)]
           [Call (ReoonCreateTask "key" ["ann@x.com"; "bob@x.com"]%string); Sleep 10;
            Call (ReoonGetResult "key" "task-1"); Sleep 2]
           2%nat 4%nat 200 EmptyObject).
  - vm_compute. reflexivity.
  - vm_compute. reflexivity.
  - vm_compute. reflexivity.
  - discriminate.
  - reflexivity.
  - reflexivity.
Defined.

(** When the log sheet refuses the "Failed" row of a run whose fetch
    raised, the exception of the spreadsheet leaves the run: nothing
    catches it, and no error e-mail is sent. *)
Theorem run_failure_log_refused lower shuffle env opened fuel srv n self e ev n1 code b :
  Logger.init env opened = Ret self ->
  Apollo.fetch_all_contacts_from_list env fuel srv n = Run (Raise e) ev n1 ->
  srv n1 (SheetAppendRow (Summary "Failed" Main.no_counts (Some e))) = Http code b ->
  is_http_error code = true ->
  Main.run_automation_flow lower shuffle env opened fuel srv n
  = Run (Raise (HTTPError code))
      (ev ++ [Call (SheetAppendRow (Summary "Failed" Main.no_counts (Some e)))])
      (S n1).
Proof.
  intros Hself Hfetch Hsrv Hcode. unfold Main.run_automation_flow. rewrite Hself.
  erewrite step_ret; [|done]. rewrite after_nil.
  erewrite step_raise; [|done].
  erewrite failed_refused; [|by eapply init_log_sheet|done..].
  done.
Qed.

Lemma run_failure_log_refused_witness :
  let env : gmap string string := {[ "GOOGLE_PRIVATE_KEY"%string := "k"%string ]} in
  let sheets : Logger.spreadsheet :=
    {[ "Log"%string := Logger.Worksheet (Some []) ]} in
  Main.run_automation_flow Main.ascii_lower (@rev contact) env (Ret sheets) 5
    (Main.scripted_run [] [] 500) 0%nat
  = Run (Raise (HTTPError 500))
      ([] ++ [Call (SheetAppendRow
                      (Summary "Failed" Main.no_counts
                         (Some (ValueError "Missing Apollo credentials"))))])
      1%nat.
Proof.
  intros env sheets.
  apply (run_failure_log_refused Main.ascii_lower (@rev contact) env (Ret sheets) 5
           (Main.scripted_run [] [] 500) 0%nat
           (Logger.Manager (Some (Logger.Worksheet (Some []))) None None)
           (ValueError "Missing Apollo credentials") [] 0%nat 500 EmptyObject).
  - vm_compute. reflexivity.
  - vm_compute. reflexivity.
  - reflexivity.
  - reflexivity.
Defined.
